(** * OIBus: history windows, connector lifecycle and delivery paths

    A shallow embedding of the parts of the OIBus gateway that the
    specification talks about:

    - [Utils]: [generateIntervals] and the file-name stem computed by
      [generateFormDataBodyFromFile] (src/services/utils.js);
    - [NorthSFTP]: [handleFile] and [testConnection]
      (backend/src/north/north-sftp/north-sftp.ts);
    - [IpFilter]: the Koa middleware of src/server/middlewares/ipFilter.js;
    - [MongoDB]: [handleValues], [makeRequest] and [ensureCollectionExists]
      (src/north/mongodb/MongoDB.class.js);
    - [SouthOPCHDA]: the OPCHDA south connector (history query, read
      messages, connect messages, disconnect).

    [generateIntervals] computes on [Date] objects and JavaScript numbers,
    which are IEEE-754 doubles ([Number]); its theorems compare it with the
    same loop in exact integer arithmetic.  The instants of the connectors
    are epoch milliseconds ([Z]), as [DateTime.fromISO(..).toMillis()] gives
    them.  JavaScript exceptions and rejected promises are the [Throw]
    outcome of a small state-and-exception monad; Node's timer table is a
    finite map from timer handles to callbacks. *)

From Stdlib Require Import ZArith Lia Bool Ascii.
From Stdlib Require String.
From stdpp Require Import base option list gmap strings pretty.

Local Open Scope Z_scope.

(** ** JavaScript values shared by all modules *)

(** What a [throw] carries (or what a promise rejects with). *)
Inductive Exn : Type :=
  | Error (message : string)
  | TypeError (message : string)
  | ReferenceError (message : string)
  | SyntaxError (message : string)
  | HttpError (status : Z) (message : string)
  | COMMUNICATION_ERROR.

(** Result of running a (possibly async) function to completion. *)
Inductive Outcome (X : Type) : Type :=
  | Ret (x : X)
  | Throw (e : Exn).
Arguments Ret {X} x.
Arguments Throw {X} e.

(** State-and-exception monad: the state survives a [Throw], as the fields
    of a JavaScript object do when a method throws half-way. *)
Definition M (S X : Type) : Type := S -> Outcome X * S.

Definition ret {S X} (x : X) : M S X := fun s => (Ret x, s).
Definition throw {S X} (e : Exn) : M S X := fun s => (Throw e, s).
Definition bind {S X Y} (m : M S X) (k : X -> M S Y) : M S Y :=
  fun s => match m s with
           | (Ret x, s') => k x s'
           | (Throw e, s') => (Throw e, s')
           end.
Definition get {S} : M S S := fun s => (Ret s, s).
Definition modify {S} (f : S -> S) : M S unit := fun s => (Ret tt, f s).
(** [try { m } catch (error) { h error }] *)
Definition try_catch {S X} (m : M S X) (h : Exn -> M S X) : M S X :=
  fun s => match m s with
           | (Ret x, s') => (Ret x, s')
           | (Throw e, s') => h e s'
           end.

Declare Scope js_scope.
Delimit Scope js_scope with js.
Notation "'let*' x := m 'in' k" := (bind m (fun x => k))
  (at level 10, x pattern, m at level 100, k at level 200) : js_scope.
Notation "'run' m 'in' k" := (bind m (fun _ => k))
  (at level 10, m at level 100, k at level 200) : js_scope.

(** ** String primitives of the JavaScript runtime *)

(** A string is the sequence of its code units; the characters the code
    searches for (the dash, the dot, the at sign, the dollar sign) are
    single units. *)
Module Js.

(** Scan for [String.prototype.lastIndexOf] with a one-character needle:
    [i] is the index of the head of [s], [acc] the last hit so far. *)
Fixpoint lastIndexOf_from (c : ascii) (s : string) (i acc : Z) : Z :=
  match s with
  | EmptyString => acc
  | String a s' => lastIndexOf_from c s' (i + 1) (if Ascii.eqb a c then i else acc)
  end.

(** [s.lastIndexOf(c)]: index of the last occurrence, [-1] when absent. *)
Definition lastIndexOf (s : string) (c : ascii) : Z :=
  lastIndexOf_from c s 0 (-1).

(** [s.slice(start, end)]: negative indices count from the end, both are
    clamped to the string, an empty range gives the empty string. *)
Definition slice (s : string) (start end_ : Z) : string :=
  let len := Z.of_nat (String.length s) in
  let from := if start <? 0 then Z.max (len + start) 0 else Z.min start len in
  let to := if end_ <? 0 then Z.max (len + end_) 0 else Z.min end_ len in
  String.substring (Z.to_nat from) (Z.to_nat (Z.max (to - from) 0)) s.

(** The text a replacement string stands for (GetSubstitution), for a
    string pattern, which captures nothing: [$$] is a dollar sign, [$&] the
    matched text, [$`] the text before the match, [$'] the text after it;
    every other dollar sign stays as it is. *)
Fixpoint substitution (matched before after replacement : string) : string :=
  match replacement with
  | EmptyString => EmptyString
  | String a tail =>
      if Ascii.eqb a "$" then
        match tail with
        | String c rest =>
            if Ascii.eqb c "$" then String "$" (substitution matched before after rest)
            else if Ascii.eqb c "&" then matched +:+ substitution matched before after rest
            else if Ascii.eqb c "`" then before +:+ substitution matched before after rest
            else if Ascii.eqb c "'" then after +:+ substitution matched before after rest
            else String "$" (substitution matched before after tail)
        | EmptyString => String "$" EmptyString
        end
      else String a (substitution matched before after tail)
  end.

(** [s.replace(pattern, replacement)] with a string pattern: only the first
    occurrence is replaced, by the text the replacement stands for. *)
Definition replace (s pattern replacement : string) : string :=
  match String.index 0 pattern s with
  | Some n =>
      let before := String.substring 0 n s in
      let after := String.substring (n + String.length pattern)
                                    (String.length s - n - String.length pattern) s in
      before +:+ substitution pattern before after replacement +:+ after
  | None => s
  end.

(** [a || b] on strings: the empty string is falsy. *)
Definition or_else (a : option string) (b : string) : string :=
  match a with
  | Some EmptyString | None => b
  | Some s => s
  end.

(** Truthiness of an optional string field. *)
Definition truthy (a : option string) : bool :=
  match a with
  | Some EmptyString | None => false
  | Some _ => true
  end.

Fixpoint contains (c : ascii) (s : string) : bool :=
  match s with
  | EmptyString => false
  | String a s' => Ascii.eqb a c || contains c s'
  end.

(** [s.endsWith(suffix)] *)
Definition endsWith (s suffix : string) : bool :=
  let len := Z.of_nat (String.length s) in
  let n := Z.of_nat (String.length suffix) in
  (n <=? len) && String.eqb (slice s (len - n) len) suffix.

(** Scan for [String.prototype.split] with a one-character separator:
    [cur] is the piece being read. *)
Fixpoint split_from (sep : ascii) (s cur : string) : list string :=
  match s with
  | EmptyString => [cur]
  | String c s' =>
      if Ascii.eqb c sep then cur :: split_from sep s' EmptyString
      else split_from sep s' (cur +:+ String c EmptyString)
  end.

(** [s.split(sep)]: the pieces between the separators, empty ones included;
    the empty string gives one empty piece. *)
Definition split (s : string) (sep : ascii) : list string :=
  split_from sep s EmptyString.

End Js.

(** ** node:fs/promises *)

(** The file system as the functions of utils.js see it: a finite map from
    paths to file contents. [stat], [readFile] and [copyFile] reject when
    the path names no file; a write rejects when the path cannot be
    written. *)
Module Fs.

(** Where files can be written: [write_error path] is the error a write to
    [path] rejects with, if any (a missing directory, missing rights, a
    directory in the way). *)
Class Disk : Type := { write_error : string -> option Exn }.

Definition enoent (syscall path : string) : Exn :=
  Error ("ENOENT: no such file or directory, " +:+ syscall +:+ " '" +:+ path +:+ "'").

Definition stat (path : string) : M (gmap string string) unit :=
  fun fs => match fs !! path with
            | Some _ => (Ret tt, fs)
            | None => (Throw (enoent "stat" path), fs)
            end.

Definition readFile (path : string) : M (gmap string string) string :=
  fun fs => match fs !! path with
            | Some content => (Ret content, fs)
            | None => (Throw (enoent "open" path), fs)
            end.

Definition writeFile `{Disk} (path content : string) : M (gmap string string) unit :=
  fun fs => match write_error path with
            | Some e => (Throw e, fs)
            | None => (Ret tt, <[path := content]> fs)
            end.

Definition copyFile `{Disk} (src dest : string) : M (gmap string string) unit :=
  fun fs => match fs !! src with
            | Some content =>
                match write_error dest with
                | Some e => (Throw e, fs)
                | None => (Ret tt, <[dest := content]> fs)
                end
            | None => (Throw (enoent "copyfile" src), fs)
            end.

End Fs.

(** [JSON.stringify(o, null, 4)] and [JSON.parse] on the objects of type [J]. *)
Class Json (J : Type) : Type := {
  stringify : J -> string;
  parseJSON : string -> Outcome J;
}.

(** [path.join(dir, base)] *)
Class PathJoin : Type := { join : string -> string -> string }.

(** ** node:path *)

(** The object returned by [path.parse]. *)
Record ParsedPath : Type := {
  dir : string;
  name : string;
  ext : string;
}.

(** [path.parse] belongs to Node's standard library; the connectors only
    read [name] and [ext] of its result. *)
Class PathLib : Type := { parse : string -> ParsedPath }.

(** ** JavaScript numbers *)

(** The Number type: IEEE-754 binary64.  Every finite double is a whole
    multiple of the smallest subnormal 2^-1074; [Finite n] is the double
    [n * 2^-1074], so the whole number [k] is [Finite (k * one)].  Zero
    carries no sign here: the code modelled never divides by a zero nor
    prints one. *)
Module Number.

Inductive number : Type :=
  | NaN
  | PosInfinity
  | NegInfinity
  | Finite (n : Z).

(** The number 1, and [Number.MAX_VALUE], in the unit of [Finite]. *)
Definition one : Z := 2 ^ 1074.
Definition MAX_VALUE : Z := (2 ^ 53 - 1) * 2 ^ 2045.

(** The whole number nearest to [p / d], ties to the even one. *)
Definition nearest_even (p d : Z) : Z :=
  let k := p / d in
  let r := p mod d in
  if 2 * r <? d then k
  else if d <? 2 * r then k + 1
  else if Z.even k then k else k + 1.

(** The double nearest to the non-negative rational [a / q] (in units of
    2^-1074), ties to even: below 2^53 units the doubles are the whole
    numbers of units; from 2^(52 + j) units on they are 2^j units apart. *)
Definition nearest_double (a q : Z) : Z :=
  let shift := Z.max 0 (Z.log2 (a / q) - 52) in
  nearest_even a (q * 2 ^ shift) * 2 ^ shift.

(** Rounding of the rational [p / q] units, [0 < q], as every arithmetic
    operation ends: to nearest, ties to even, to an infinity beyond
    [MAX_VALUE]. *)
Definition round (p q : Z) : number :=
  let n := nearest_double (Z.abs p) q in
  if MAX_VALUE <? n then (if p <? 0 then NegInfinity else PosInfinity)
  else Finite (Z.sgn p * n).

(** A numeric literal, or any whole number, as a Number. *)
Definition of_Z (z : Z) : number := round (z * one) 1.

(** Unary [-] *)
Definition opp (x : number) : number :=
  match x with
  | NaN => NaN
  | PosInfinity => NegInfinity
  | NegInfinity => PosInfinity
  | Finite a => Finite (- a)
  end.

(** [x + y] *)
Definition add (x y : number) : number :=
  match x, y with
  | NaN, _ | _, NaN => NaN
  | PosInfinity, NegInfinity | NegInfinity, PosInfinity => NaN
  | PosInfinity, _ | _, PosInfinity => PosInfinity
  | NegInfinity, _ | _, NegInfinity => NegInfinity
  | Finite a, Finite b => round (a + b) 1
  end.

(** [x - y] *)
Definition sub (x y : number) : number := add x (opp y).

Definition infinity (negative : bool) : number :=
  if negative then NegInfinity else PosInfinity.

(** [x * y] *)
Definition mul (x y : number) : number :=
  match x, y with
  | NaN, _ | _, NaN => NaN
  | Finite a, Finite b => round (a * b) one
  | Finite a, PosInfinity | PosInfinity, Finite a =>
      if a =? 0 then NaN else infinity (a <? 0)
  | Finite a, NegInfinity | NegInfinity, Finite a =>
      if a =? 0 then NaN else infinity (0 <? a)
  | PosInfinity, PosInfinity | NegInfinity, NegInfinity => PosInfinity
  | PosInfinity, NegInfinity | NegInfinity, PosInfinity => NegInfinity
  end.

(** [x / y] *)
Definition div (x y : number) : number :=
  match x, y with
  | NaN, _ | _, NaN => NaN
  | Finite a, Finite b =>
      if b =? 0 then (if a =? 0 then NaN else infinity (a <? 0))
      else round (Z.sgn b * a * one) (Z.abs b)
  | Finite _, (PosInfinity | NegInfinity) => Finite 0
  | PosInfinity, Finite b => infinity (b <? 0)
  | NegInfinity, Finite b => infinity (0 <=? b)
  | _, _ => NaN
  end.

(** [x < y] and [x > y]: false as soon as an operand is [NaN]. *)
Definition ltb (x y : number) : bool :=
  match x, y with
  | Finite a, Finite b => a <? b
  | NegInfinity, (Finite _ | PosInfinity) => true
  | Finite _, PosInfinity => true
  | _, _ => false
  end.

Definition gtb (x y : number) : bool := ltb y x.

(** Vocabulary for statements about rounding.  [representable u]: [u]
    units is a double, written [k * 2^j] with [k] of at most 53 bits. *)
Definition representable (u : Z) : Prop :=
  exists k j, u = k * 2 ^ j /\ 0 <= k <= 2 ^ 53 /\ 0 <= j /\ u <= MAX_VALUE.

Definition at_least (bound : Z) (x : number) : Prop :=
  match x with
  | Finite n => bound <= n
  | PosInfinity => True
  | _ => False
  end.

Definition at_most (bound : Z) (x : number) : Prop :=
  match x with
  | Finite n => n <= bound
  | NegInfinity => True
  | _ => False
  end.

End Number.

(** ** Date objects *)

(** A [Date] holds its time value: a whole number of milliseconds within
    8.64e15 of the epoch, or [NaN] (an invalid Date). *)
Record Date : Type := { getTime : Number.number }.

(** [TimeClip] of the language specification. *)
Definition TimeClip (time : Number.number) : Number.number :=
  match time with
  | Number.Finite n =>
      if 8640000000000000 * Number.one <? Z.abs n then Number.NaN
      else Number.Finite (Z.quot n Number.one * Number.one)
  | _ => Number.NaN
  end.

(** [new Date(value)] for a Number [value]. *)
Definition new_Date (value : Number.number) : Date := {| getTime := TimeClip value |}.

(** [a < b] on two Dates compares their time values. *)
Definition Date_lt (a b : Date) : bool := Number.ltb (getTime a) (getTime b).

(** ** src/services/utils.js *)
Module Utils.

Import Number.

Record Interval (T : Type) : Type := { startTime : T; endTime : T }.
Arguments startTime {T} i.
Arguments endTime {T} i.

(** The [for (let i = 0; i < numberOfInterval; i += 1)] loop of
    [generateIntervals], with the list it has pushed when it ends.  [fuel]
    bounds the iterations; [None] is a loop that has not ended when the
    fuel is spent. *)
Fixpoint intervalLoop (fuel : nat) (startT endT : Date)
    (maxInterval numberOfInterval i : number) : option (list (Interval Date)) :=
  if ltb i numberOfInterval then
    match fuel with
    | O => None
    | S fuel' =>
        let newStartTime :=
          new_Date (add (getTime startT) (mul (mul i (of_Z 1000)) maxInterval)) in
        let newEndTime :=
          new_Date (add (getTime startT)
                        (mul (mul (add i (of_Z 1)) (of_Z 1000)) maxInterval)) in
        cons {| startTime := newStartTime;
                endTime := if Date_lt newEndTime endT then newEndTime else endT |}
          <$> intervalLoop fuel' startT endT maxInterval numberOfInterval (add i (of_Z 1))
    end
  else Some [].

(** Iterations granted to the loop: one more than the whole part of
    [numberOfInterval].  As long as [i += 1] is exact, which it is up to
    2^53, the guard ends the loop within them ([intervalLoop_returns]);
    from 2^53 on [i + 1] rounds back to [i] and the loop of the code never
    ends, nor does it with an infinite [numberOfInterval]. *)
Definition intervalFuel (numberOfInterval : number) : nat :=
  match numberOfInterval with
  | Finite n => Z.to_nat (n / one + 1)
  | _ => O
  end.

Definition generateIntervals (startT endT : Date) (maxInterval : number)
    : option (list (Interval Date)) :=
  let originalInterval := sub (getTime endT) (getTime startT) in
  if gtb maxInterval (of_Z 0)
     && gtb (sub (getTime endT) (getTime startT)) (mul (of_Z 1000) maxInterval) then
    let numberOfInterval := div originalInterval (mul maxInterval (of_Z 1000)) in
    intervalLoop (intervalFuel numberOfInterval) startT endT maxInterval numberOfInterval
                 (of_Z 0)
  else Some [ {| startTime := startT; endTime := endT |} ].

(** The Date whose time value is the whole number [t] of milliseconds. *)
Definition Date_of (t : Z) : Date := new_Date (of_Z t).

(** The same loop in exact integer arithmetic, on time values in
    milliseconds: the reference that the computation on doubles is compared
    with ([generateIntervals_exact]).  [numberOfInterval] is then the exact
    quotient, so the guard [i < numberOfInterval] is
    [i * (maxInterval * 1000) < originalInterval]. *)
Fixpoint exactLoop (fuel : nat) (startT endT maxInterval i : Z) : list (Interval Z) :=
  match fuel with
  | O => []
  | S fuel' =>
      if i * (maxInterval * 1000) <? endT - startT then
        let newStartTime := startT + i * 1000 * maxInterval in
        let newEndTime := startT + (i + 1) * 1000 * maxInterval in
        {| startTime := newStartTime;
           endTime := if newEndTime <? endT then newEndTime else endT |}
          :: exactLoop fuel' startT endT maxInterval (i + 1)
      else []
  end.

Definition exactFuel (startT endT maxInterval : Z) : nat :=
  Z.to_nat ((endT - startT) / (maxInterval * 1000) + 1).

Definition exactIntervals (startT endT maxInterval : Z) : list (Interval Z) :=
  if (0 <? maxInterval) && (1000 * maxInterval <? endT - startT) then
    exactLoop (exactFuel startT endT maxInterval) startT endT maxInterval 0
  else [ {| startTime := startT; endTime := endT |} ].

Definition dates (iv : Interval Z) : Interval Date :=
  {| startTime := Date_of (startTime iv); endTime := Date_of (endTime iv) |}.

(** [const filename = name.slice(0, name.lastIndexOf('-'))] *)
Definition stem (name : string) : string :=
  Js.slice name 0 (Js.lastIndexOf name "-"%char).

(** The [filename] option that [generateFormDataBodyFromFile] gives to
    [body.append('file', readStream, bodyOptions)]. *)
Definition generateFormDataBodyFromFile `{PathLib} (filePath : string) : string :=
  let p := parse filePath in
  let filename := stem (name p) in
  filename +:+ ext p.

(** [checkOrCreateConfigFile]: the default configuration is written when
    [fs.stat] rejects. *)
Definition checkOrCreateConfigFile {J : Type} `{Json J} `{Fs.Disk} (filePath : string)
    (defaultConfig : J) : M (gmap string string) unit :=
  try_catch (Fs.stat filePath)
            (fun err => Fs.writeFile filePath (stringify defaultConfig)).

(** [tryReadFile] *)
Definition tryReadFile {J : Type} `{Json J} (filePath : string) : M (gmap string string) J :=
  if negb (Js.endsWith filePath ".json")
  then throw (Error "You must provide a JSON file for the configuration!")
  else (let* fileContent := Fs.readFile filePath in
        fun fs => (parseJSON fileContent, fs))%js.

(** [backupConfigFile]; [timestamp] is [new Date().getTime()]. *)
Definition backupFilename `{PathLib} (filePath : string) (timestamp : Z) : string :=
  name (parse filePath) +:+ "-" +:+ pretty timestamp +:+ ext (parse filePath).

Definition backupConfigFile `{PathLib} `{PathJoin} `{Fs.Disk} (filePath : string)
    (timestamp : Z) : M (gmap string string) unit :=
  let backupPath := join (dir (parse filePath)) (backupFilename filePath timestamp) in
  Fs.copyFile filePath backupPath.

(** [saveConfig] *)
Definition saveConfig {J : Type} `{Json J} `{Fs.Disk} (filePath : string) (jsonObject : J)
    : M (gmap string string) unit :=
  Fs.writeFile filePath (stringify jsonObject).

(** [replaceFilenameWithVariable]; [currentDate] is
    [DateTime.local().toFormat('yyyy_MM_dd_HH_mm_ss_SSS')]. *)
Definition replaceFilenameWithVariable (currentDate filename : string) (queryPart : Z)
    (connectorName : string) : string :=
  Js.replace
    (Js.replace (Js.replace filename "@CurrentDate" currentDate)
                "@ConnectorName" connectorName)
    "@QueryPart" (pretty queryPart).

(** [filesExists] *)
Definition filesExists (filePath : string) : M (gmap string string) bool :=
  try_catch (run Fs.stat filePath in ret true)%js (fun _ => ret false).

(** Vocabulary for statements about interval lists: [chained a l b] says
    that [l] is a chain of consecutive intervals leading from [a] to [b]. *)
Fixpoint chained (a : Z) (l : list (Interval Z)) (b : Z) : Prop :=
  match l with
  | [] => a = b
  | iv :: l' => startTime iv = a /\ chained (endTime iv) l' b
  end.

Definition span (iv : Interval Z) : Z := endTime iv - startTime iv.

(** 2020-01-01T00:00:00Z in epoch milliseconds. *)
Definition t_2020_01_01 : Z := 1577836800000.

End Utils.

(** A [path.parse] for POSIX paths whose base name is an ordinary file
    name: the base follows the last slash, the extension starts at the
    last dot of the base unless the base starts with it. *)
Definition posix_parse (p : string) : ParsedPath :=
  let len := Z.of_nat (String.length p) in
  let slash := Js.lastIndexOf p "/"%char in
  let base := Js.slice p (slash + 1) len in
  let dot := Js.lastIndexOf base "."%char in
  if dot <=? 0
  then {| dir := Js.slice p 0 (Z.max slash 0); name := base; ext := EmptyString |}
  else {| dir := Js.slice p 0 (Z.max slash 0);
          name := Js.slice base 0 dot;
          ext := Js.slice base dot (Z.of_nat (String.length base)) |}.

(** [error.message] *)
(** The double-quote character, for messages that quote a name. *)
Definition dq : string := String (ascii_of_nat 34) EmptyString.

Definition message_of (e : Exn) : string :=
  match e with
  | Error m | TypeError m | ReferenceError m | SyntaxError m | HttpError _ m => m
  | COMMUNICATION_ERROR => ""
  end.

(** ** backend/src/north/north-sftp/north-sftp.ts *)
Module NorthSFTP.

Record NorthSFTPSettings : Type := {
  host : string;
  port : Z;
  remoteFolder : string;
  prefix : option string;
  suffix : option string;
}.

Record Connector : Type := {
  connector_name : string;
  settings : NorthSFTPSettings;
}.

(** What [client.exists] resolves with: [false], ['d'], ['-'] or ['l']. *)
Inductive Exists : Type := NotFound | IsDir | IsFile | IsLink.

(** Behaviour of the remote SFTP server and of the local key store, as
    seen through ssh2-sftp-client and [createConnectionOptions]: each
    entry is the error a call rejects with, if any. *)
Record Remote : Type := {
  options_error : option Exn;
  connect_error : option Exn;
  exists_result : string -> Outcome Exists;
  put_error : option Exn;
  end_error : option Exn;
}.

(** The world [testConnection] and [handleFile] act on: the connector
    object's own lifecycle state (a field of the base class, of type
    [L]), the SFTP sessions currently open, and the files put so far. *)
Record World (L : Type) : Type := {
  lifecycle : L;
  openClients : nat;
  uploads : list (string * string);
}.
Arguments lifecycle {L} w.
Arguments openClients {L} w.
Arguments uploads {L} w.

Section Client.
Context {L : Type} (remote : Remote).

Definition createConnectionOptions : M (World L) unit :=
  match options_error remote with
  | Some e => throw e
  | None => ret tt
  end.

(** [await client.connect(connectionOptions)] *)
Definition client_connect : M (World L) unit :=
  match connect_error remote with
  | Some e => throw e
  | None => modify (fun w => {| lifecycle := lifecycle w;
                                openClients := S (openClients w);
                                uploads := uploads w |})
  end.

(** [await client.exists(path)] *)
Definition client_exists (path : string) : M (World L) Exists :=
  fun w => (exists_result remote path, w).

(** [await client.put(file, target)] *)
Definition client_put (file target : string) : M (World L) unit :=
  match put_error remote with
  | Some e => throw e
  | None => modify (fun w => {| lifecycle := lifecycle w;
                                openClients := openClients w;
                                uploads := uploads w ++ [(file, target)] |})
  end.

(** [await client.end()] *)
Definition client_end : M (World L) unit :=
  match end_error remote with
  | Some e => throw e
  | None => modify (fun w => {| lifecycle := lifecycle w;
                                openClients := Nat.pred (openClients w);
                                uploads := uploads w |})
  end.

Definition sendToSftpServer (file target : string) : M (World L) unit :=
  (run createConnectionOptions in
   run client_connect in
   run client_put file target in
   client_end)%js.

(** [resultingFilename] of [handleFile]; [nowDate] is
    [DateTime.now().toUTC().toFormat('yyyy_MM_dd_HH_mm_ss_SSS')]. *)
Definition resultingFilename `{PathLib} (c : Connector) (nowDate filePath : string) : string :=
  let p := parse filePath in
  let filename := Js.slice (name p) 0 (Js.lastIndexOf (name p) "-"%char) in
  let prefix_ := Js.replace (Js.replace (Js.or_else (prefix (settings c)) "")
                                        "@CurrentDate" nowDate)
                            "@ConnectorName" (connector_name c) in
  let suffix_ := Js.replace (Js.replace (Js.or_else (suffix (settings c)) "")
                                        "@CurrentDate" nowDate)
                            "@ConnectorName" (connector_name c) in
  prefix_ +:+ filename +:+ suffix_ +:+ ext p.

Definition handleFile `{PathLib} (c : Connector) (nowDate filePath : string) : M (World L) unit :=
  let target := remoteFolder (settings c) +:+ "/" +:+ resultingFilename c nowDate filePath in
  sendToSftpServer filePath target.

Definition testConnection (c : Connector) : M (World L) unit :=
  (run createConnectionOptions in
   let* folderExists :=
     try_catch
       (run client_connect in
        let* found := client_exists (remoteFolder (settings c)) in
        run client_end in
        ret found)
       (fun error =>
          throw (Error ("Access error on " +:+ dq +:+ remoteFolder (settings c) +:+ dq +:+
                        " on " +:+ dq +:+ host (settings c) +:+ ":" +:+
                        pretty (port (settings c)) +:+ dq +:+ ": " +:+ message_of error))) in
   match folderExists with
   | NotFound =>
       throw (Error ("Remote target " +:+ dq +:+ remoteFolder (settings c) +:+ dq +:+
                     " does not exist or the user does not have the right permissions"))
   | IsDir => ret tt
   | IsFile | IsLink =>
       throw (Error ("Remote target " +:+ dq +:+ remoteFolder (settings c) +:+ dq +:+
                     " is not a folder"))
   end)%js.

End Client.

End NorthSFTP.

(** ** src/server/middlewares/ipFilter.js *)
Module IpFilter.

(** micromatch: [matches str pattern] is the match of one glob;
    [micromatch.isMatch(str, patterns)] is true when any of the patterns
    matches. *)
Class Micromatch : Type := { matches : string -> string -> bool }.

Definition isMatch `{Micromatch} (str : string) (patterns : list string) : bool :=
  existsb (matches str) patterns.

Record Request : Type := { ip : string }.
Record Ctx : Type := { request : Request }.

(** What a request leaves behind: the state [D] of everything downstream
    of the middleware, how many times [next] was called, and the lines
    given to [logger.error]. *)
Record Trace (D : Type) : Type := {
  downstream : D;
  nextCalls : nat;
  logged : list string;
}.
Arguments downstream {D} t.
Arguments nextCalls {D} t.
Arguments logged {D} t.

Section Middleware.
Context `{Micromatch} {D : Type}.
(** [logger] is a free identifier of the module, which neither declares
    nor imports it: [logger_bound] tells whether the global scope of the
    process binds it. As the module stands it is unbound
    ([logger_bound = false]), and evaluating an unbound identifier throws a
    [ReferenceError]. *)
Variable logger_bound : bool.
Variable next : M D unit.

(** [await next()] *)
Definition call_next : M (Trace D) unit :=
  fun t => let '(r, d) := next (downstream t) in
           (r, {| downstream := d; nextCalls := S (nextCalls t); logged := logged t |}).

Definition logger_error (line : string) : M (Trace D) unit :=
  if logger_bound
  then modify (fun t => {| downstream := downstream t; nextCalls := nextCalls t;
                           logged := logged t ++ [line] |})
  else throw (ReferenceError "logger is not defined").

(** [ctx.throw(status, ...strings)]: Koa hands its arguments to
    http-errors, where every string argument overwrites the message, so
    the error carries the status and the last of the strings. *)
Definition ctx_throw {X : Type} (status : Z) (strings : list string) : M (Trace D) X :=
  throw (HttpError status (default EmptyString (last strings))).

Definition ipFilter (filter : list string) (ctx : Ctx) : M (Trace D) unit :=
  let ip_ := ip (request ctx) in
  if isMatch ip_ filter then call_next
  else (run logger_error (ip_ +:+ " is not authorized") in
        ctx_throw 401 ["access denied "; ip_ +:+ " is not authorized"])%js.

End Middleware.

End IpFilter.

(** ** src/north/mongodb/MongoDB.class.js *)
Module MongoDB.

(** A value handed to the north connector; [D] is the type of its [data]. *)
Record Value (D : Type) : Type := { pointId : string; data : D }.
Arguments pointId {D} v.
Arguments data {D} v.

(** What the body of [entries.forEach] does with one entry, once the
    regular expression, [vsprintf] and the field formatting have run:
    - [NoMatch]: [mainRegExp.exec(pointId)] is [null], so [groups.shift()]
      throws a [TypeError];
    - [MissingGroups]: a placeholder stayed undefined, the entry is logged
      and skipped by [return];
    - [Document]: the entry becomes one JSON document of the body.
    [collectionValue] and [indexFieldsValue] are assigned in the last two. *)
Inductive Rendered : Type :=
  | NoMatch
  | MissingGroups (collectionValue indexFieldsValue : string)
  | Document (collectionValue indexFieldsValue document : string).

(** The formatting of one entry under the connector's settings ([regExp],
    [collection], [indexFields], [useDataKeyValue], [keyParentValue]). *)
Class Formatter (D : Type) : Type := { render : string -> D -> Rendered }.

(** The MongoDB driver's answers: whether [createCollection] reports an
    error to its callback and whether the promise of [insertMany] rejects. *)
Record Driver : Type := {
  createCollection_error : string -> bool;
  insertMany_rejects : string -> list string -> bool;
}.

(** [JSON.parse] on the text of an array: the documents it holds, each kept
    as its JSON text, or the [SyntaxError] it throws. *)
Class JsonArray : Type := { parse_array : string -> Outcome (list string) }.

(** The connector object, the database behind it and the promises of the
    process that were rejected with no handler attached. [collectionChecked]
    is only ever tested for truthiness, so [undefined] is [false]. *)
Record State : Type := {
  createCollection : bool;
  mongoClient : bool;
  listCollections : option (list string);
  collectionChecked : bool;
  documents : gmap string (list string);
  valuesSent : Z;
  lastPointId : option string;
  unhandledRejections : nat;
}.

Definition set_collectionChecked (b : bool) (st : State) : State :=
  {| createCollection := createCollection st; mongoClient := mongoClient st;
     listCollections := listCollections st; collectionChecked := b;
     documents := documents st; valuesSent := valuesSent st;
     lastPointId := lastPointId st; unhandledRejections := unhandledRejections st |}.

Definition set_documents (d : gmap string (list string)) (st : State) : State :=
  {| createCollection := createCollection st; mongoClient := mongoClient st;
     listCollections := listCollections st; collectionChecked := collectionChecked st;
     documents := d; valuesSent := valuesSent st;
     lastPointId := lastPointId st; unhandledRejections := unhandledRejections st |}.

Definition set_status (n : Z) (p : string) (st : State) : State :=
  {| createCollection := createCollection st; mongoClient := mongoClient st;
     listCollections := listCollections st; collectionChecked := collectionChecked st;
     documents := documents st; valuesSent := valuesSent st + n;
     lastPointId := Some p; unhandledRejections := unhandledRejections st |}.

Definition add_unhandledRejection (st : State) : State :=
  {| createCollection := createCollection st; mongoClient := mongoClient st;
     listCollections := listCollections st; collectionChecked := collectionChecked st;
     documents := documents st; valuesSent := valuesSent st;
     lastPointId := lastPointId st; unhandledRejections := S (unhandledRejections st) |}.

(** The documents stored in a collection (none when it does not exist). *)
Definition stored (st : State) (c : string) : list string :=
  default [] (documents st !! c).

(** The locals [body], [collectionValue] and [indexFieldsValue] of
    [makeRequest]. *)
Record Locals : Type := {
  body : string;
  collectionValue_ : string;
  indexFieldsValue_ : string;
}.

(** The line feed that separates the documents of the body. *)
Definition lf : string := String (ascii_of_nat 10) EmptyString.

(** [if (body === '') { body = doc } else { body += `,\n${doc}` }] *)
Definition append_document (body doc : string) : string :=
  match body with
  | EmptyString => doc
  | _ => body +:+ "," +:+ lf +:+ doc
  end.

Section Connector.
Context {D : Type} `{Formatter D} `{JsonArray} (driver : Driver).

(** [entries.forEach((entry) => { ... })] *)
Fixpoint forEach_entry (entries : list (Value D)) (l : Locals) : Outcome Locals :=
  match entries with
  | [] => Ret l
  | entry :: rest =>
      match render (pointId entry) (data entry) with
      | NoMatch => Throw (TypeError "Cannot read properties of null (reading 'shift')")
      | MissingGroups c i =>
          forEach_entry rest {| body := body l; collectionValue_ := c; indexFieldsValue_ := i |}
      | Document c i doc =>
          forEach_entry rest {| body := append_document (body l) doc; collectionValue_ := c;
                                indexFieldsValue_ := i |}
      end
  end.

(** [this.mongoClient.createCollection(collection, callback)]: the callback
    only logs; a collection that is created starts empty. *)
Definition mongo_createCollection (collection : string) : M State unit :=
  fun st =>
    if negb (mongoClient st)
    then (Throw (TypeError "Cannot read properties of undefined (reading 'createCollection')"), st)
    else if createCollection_error driver collection then (Ret tt, st)
    else match documents st !! collection with
         | Some _ => (Ret tt, st)
         | None => (Ret tt, set_documents (<[collection := []]> (documents st)) st)
         end.

(** [this.mongoClient.collection(c).insertMany(bodyJson)]: the promise is
    neither awaited nor given a handler, so a rejection is not seen by
    [makeRequest] and stays unhandled. *)
Definition mongo_insertMany (collection : string) (docs : list string) : M State unit :=
  fun st =>
    if negb (mongoClient st)
    then (Throw (TypeError "Cannot read properties of undefined (reading 'collection')"), st)
    else if insertMany_rejects driver collection docs then (Ret tt, add_unhandledRejection st)
    else (Ret tt, set_documents (<[collection := stored st collection ++ docs]> (documents st)) st).

(** [JSON.parse(`[${body}]`)] *)
Definition parse_body (body : string) : M State (list string) :=
  fun st => (parse_array ("[" +:+ body +:+ "]"), st).

Definition ensureCollectionExists (collection : string) : M State unit :=
  (let* st := get in
   match listCollections st with
   | None => throw (TypeError "Cannot read properties of undefined (reading 'findIndex')")
   | Some names =>
       run (if bool_decide (collection ∈ names) then ret tt
            else mongo_createCollection collection) in
       modify (set_collectionChecked true)
   end)%js.

Definition makeRequest (entries : list (Value D)) : M State bool :=
  (let* l := (fun st => (forEach_entry entries
                           {| body := EmptyString; collectionValue_ := EmptyString;
                              indexFieldsValue_ := EmptyString |}, st)) in
   let* st := get in
   run (if negb (collectionChecked st) then
          if createCollection st then ensureCollectionExists (collectionValue_ l)
          else ret tt
        else
          let* bodyJson := parse_body (body l) in
          mongo_insertMany (collectionValue_ l) bodyJson) in
   ret true)%js.

(** The callback of [this.client.connect] in [connect()]: on success the
    database handle is opened, the list of collections starts empty and
    [collectionChecked] is reset. *)
Definition connect_callback (error : bool) (st : State) : State :=
  if error then st
  else {| createCollection := createCollection st; mongoClient := true;
          listCollections := Some []; collectionChecked := false;
          documents := documents st; valuesSent := valuesSent st;
          lastPointId := lastPointId st; unhandledRejections := unhandledRejections st |}.

(** The callback of [listCollections(..).toArray] inside it. *)
Definition listCollections_callback (err : bool) (collectionNames : list string)
    (st : State) : State :=
  if err then st
  else {| createCollection := createCollection st; mongoClient := mongoClient st;
          listCollections := Some collectionNames;
          collectionChecked := collectionChecked st;
          documents := documents st; valuesSent := valuesSent st;
          lastPointId := lastPointId st; unhandledRejections := unhandledRejections st |}.

Definition handleValues (values : list (Value D)) : M State nat :=
  (run try_catch
         (run makeRequest values in
          match last values with
          | Some v => modify (set_status (Z.of_nat (length values)) (pointId v))
          | None => throw (TypeError "Cannot read properties of undefined (reading 'pointId')")
          end)
         (fun error => throw COMMUNICATION_ERROR) in
   ret (length values))%js.

(** Successive calls of [handleValues], one per batch, whatever each call
    returns or throws. *)
Definition handleBatches (batches : list (list (Value D))) (st : State) : State :=
  fold_left (fun st values => snd (handleValues values st)) batches st.

(** The body [makeRequest] builds from the documents of the entries. *)
Definition body_of (docs : list string) : string :=
  fold_left append_document docs EmptyString.

(** The document an entry contributes to the body, if any. *)
Definition documentOf (v : Value D) : option string :=
  match render (pointId v) (data v) with
  | Document _ _ doc => Some doc
  | _ => None
  end.

(** The collection name an entry leaves in [collectionValue]. *)
Definition collectionOf (v : Value D) : option string :=
  match render (pointId v) (data v) with
  | Document c _ _ | MissingGroups c _ => Some c
  | NoMatch => None
  end.

End Connector.

(** JavaScript values as [getJsonValueByStringPath] uses them:
    [is_object v] is [typeof v === 'object'] and [member v k] is the
    member access [v[k]], which throws on [undefined] and [null]. *)
Class JsValue (V : Type) : Type := {
  is_object : V -> bool;
  member : V -> string -> Outcome V;
}.

(** [arrValue.forEach((k) => { tmpValue = tmpValue[k] })] *)
Fixpoint follow {V : Type} `{JsValue V} (keys : list string) (tmpValue : V) : Outcome V :=
  match keys with
  | [] => Ret tmpValue
  | k :: rest =>
      match member tmpValue k with
      | Ret next => follow rest next
      | Throw e => Throw e
      end
  end.

Definition getJsonValueByStringPath {V : Type} `{JsValue V} (value : V) (pathValue : string)
    : Outcome V :=
  if is_object value then
    match pathValue with
    | EmptyString => Ret value
    | _ => follow (Js.split pathValue ".") value
    end
  else Ret value.

End MongoDB.

(** ** The OPCHDA south connector (class SouthOPCHDA) *)
Module SouthOPCHDA.

(** A [NodeJS.Timeout] handle. *)
Definition Timer : Type := nat.

(** The functions the connector gives to [setTimeout]. *)
Inductive Callback : Type :=
  | CbConnect               (* this.connect.bind(this) *)
  | CbSendConnectMessage    (* this.agent.sendConnectMessage *)
  | CbHistoryReadTimeout.   (* () => this.historyRead$?.reject(new Error(...)) *)

(** Modelled from the spec: [DeferredPromise] (service/deferred-promise is
    not part of the sources) is the deferred promise of the design notes, a
    JavaScript promise with its [resolve] and [reject] exposed; like every
    promise it settles at most once. *)
Inductive Deferred (V : Type) : Type :=
  | Pending
  | Resolved (v : V)
  | Rejected (e : Exn).
Arguments Pending {V}.
Arguments Resolved {V} v.
Arguments Rejected {V} e.

Definition resolve {V} (v : V) (d : Deferred V) : Deferred V :=
  match d with Pending => Resolved v | _ => d end.
Definition reject {V} (e : Exn) (d : Deferred V) : Deferred V :=
  match d with Pending => Rejected e | _ => d end.

(** One entry of [messageObject.Content.Points]; [None] is [undefined]. *)
Record Point : Type := {
  ItemId : string;
  Timestamp : option Z;
  Value : option string;
  Quality : string;
}.

(** [messageObject.Content] of a read reply. *)
Record Content : Type := {
  Error_ : option string;
  Disconnected : bool;
  Group : string;
  Points : option (list Point);
}.

Record ScanGroupPoint : Type := { point_name : string; nodeId : string }.

(** A value of the [itemsByGroups] map. *)
Record ScanGroup : Type := {
  aggregate : string;
  resampling : string;
  scanMode : string;
  points : list ScanGroupPoint;
}.

Record Item : Type := {
  item_name : string;
  item_scanModeId : string;
  item_aggregate : string;
  item_resampling : string;
  item_nodeId : string;
}.

Record OIBusValue : Type := {
  pointId : string;
  timestamp : Z;
  value : string;
  quality : string;
}.

Record Configuration : Type := {
  readTimeout : Z;
  retryInterval : Z;
  win32 : bool;    (* process.platform === 'win32' *)
}.

(** The collaborators whose code is outside the sources: the [Agent]
    (state [A]) and the [SouthConnector] base class (state [B]).  Each
    method acts on its own state and may throw. *)
Class Collaborators (A B : Type) : Type := {
  agent_connect : M A unit;
  agent_disconnect : M A unit;
  agent_sendConnectMessage : M A unit;
  agent_sendInitializeMessage : list (string * ScanGroup) -> M A unit;
  agent_sendReadMessage : string -> Z -> Z -> M A unit;
  super_connect : M B unit;
  super_disconnect : M B unit;
  addValues : list OIBusValue -> M B unit;
}.

(** The connector object together with Node's table of pending timers. *)
Record State (A B : Type) : Type := {
  agent : A;
  base : B;
  itemsByScanModeIds : list (string * list Item);
  connection_ : option (Deferred unit);
  reconnectTimeout : option Timer;
  historyRead_ : option (Deferred Z);
  historyReadTimeout : option Timer;
  itemsByGroups : list (string * ScanGroup);
  timers : gmap Timer Callback;
  nextTimer : Timer;
}.
Arguments agent {A B} s.
Arguments base {A B} s.
Arguments itemsByScanModeIds {A B} s.
Arguments connection_ {A B} s.
Arguments reconnectTimeout {A B} s.
Arguments historyRead_ {A B} s.
Arguments historyReadTimeout {A B} s.
Arguments itemsByGroups {A B} s.
Arguments timers {A B} s.
Arguments nextTimer {A B} s.

(** [Map.prototype.get] and [Map.prototype.set] on an insertion-ordered map. *)
Fixpoint map_get {V} (k : string) (m : list (string * V)) : option V :=
  match m with
  | [] => None
  | (k', v) :: m' => if String.eqb k k' then Some v else map_get k m'
  end.

Fixpoint map_set {V} (k : string) (v : V) (m : list (string * V)) : list (string * V) :=
  match m with
  | [] => [(k, v)]
  | (k', v') :: m' => if String.eqb k k' then (k, v) :: m' else (k', v') :: map_set k v m'
  end.

(** How a call of an async method ends. *)
Inductive Completion (X : Type) : Type :=
  | Returned (x : X)
  | Failed (e : Exn)
  | Hangs.
Arguments Returned {X} x.
Arguments Failed {X} e.
Arguments Hangs {X}.

Section Connector.
Context {A B : Type} `{Collaborators A B} (configuration : Configuration).

Local Abbreviation St := (State A B).

Definition set_agent (a : A) (s : St) : St :=
  {| agent := a; base := base s; itemsByScanModeIds := itemsByScanModeIds s;
     connection_ := connection_ s; reconnectTimeout := reconnectTimeout s;
     historyRead_ := historyRead_ s; historyReadTimeout := historyReadTimeout s;
     itemsByGroups := itemsByGroups s; timers := timers s; nextTimer := nextTimer s |}.
Definition set_base (b : B) (s : St) : St :=
  {| agent := agent s; base := b; itemsByScanModeIds := itemsByScanModeIds s;
     connection_ := connection_ s; reconnectTimeout := reconnectTimeout s;
     historyRead_ := historyRead_ s; historyReadTimeout := historyReadTimeout s;
     itemsByGroups := itemsByGroups s; timers := timers s; nextTimer := nextTimer s |}.
Definition set_connection (c : option (Deferred unit)) (s : St) : St :=
  {| agent := agent s; base := base s; itemsByScanModeIds := itemsByScanModeIds s;
     connection_ := c; reconnectTimeout := reconnectTimeout s;
     historyRead_ := historyRead_ s; historyReadTimeout := historyReadTimeout s;
     itemsByGroups := itemsByGroups s; timers := timers s; nextTimer := nextTimer s |}.
Definition set_reconnectTimeout (t : option Timer) (s : St) : St :=
  {| agent := agent s; base := base s; itemsByScanModeIds := itemsByScanModeIds s;
     connection_ := connection_ s; reconnectTimeout := t;
     historyRead_ := historyRead_ s; historyReadTimeout := historyReadTimeout s;
     itemsByGroups := itemsByGroups s; timers := timers s; nextTimer := nextTimer s |}.
Definition set_historyRead (d : option (Deferred Z)) (s : St) : St :=
  {| agent := agent s; base := base s; itemsByScanModeIds := itemsByScanModeIds s;
     connection_ := connection_ s; reconnectTimeout := reconnectTimeout s;
     historyRead_ := d; historyReadTimeout := historyReadTimeout s;
     itemsByGroups := itemsByGroups s; timers := timers s; nextTimer := nextTimer s |}.
Definition set_historyReadTimeout (t : option Timer) (s : St) : St :=
  {| agent := agent s; base := base s; itemsByScanModeIds := itemsByScanModeIds s;
     connection_ := connection_ s; reconnectTimeout := reconnectTimeout s;
     historyRead_ := historyRead_ s; historyReadTimeout := t;
     itemsByGroups := itemsByGroups s; timers := timers s; nextTimer := nextTimer s |}.
Definition set_itemsByGroups (g : list (string * ScanGroup)) (s : St) : St :=
  {| agent := agent s; base := base s; itemsByScanModeIds := itemsByScanModeIds s;
     connection_ := connection_ s; reconnectTimeout := reconnectTimeout s;
     historyRead_ := historyRead_ s; historyReadTimeout := historyReadTimeout s;
     itemsByGroups := g; timers := timers s; nextTimer := nextTimer s |}.
Definition set_timers (m : gmap Timer Callback) (n : Timer) (s : St) : St :=
  {| agent := agent s; base := base s; itemsByScanModeIds := itemsByScanModeIds s;
     connection_ := connection_ s; reconnectTimeout := reconnectTimeout s;
     historyRead_ := historyRead_ s; historyReadTimeout := historyReadTimeout s;
     itemsByGroups := itemsByGroups s; timers := m; nextTimer := n |}.

(** A method of [this.agent], run on the agent's part of the state. *)
Definition on_agent {X} (m : M A X) : M St X :=
  fun s => let '(r, a) := m (agent s) in (r, set_agent a s).

(** A method of the base class, run on its part of the state. *)
Definition on_base {X} (m : M B X) : M St X :=
  fun s => let '(r, b) := m (base s) in (r, set_base b s).

(** [setTimeout(callback, delay)]: a fresh handle, now pending. *)
Definition setTimeout (cb : Callback) : M St Timer :=
  fun s => (Ret (nextTimer s),
            set_timers (<[nextTimer s := cb]> (timers s)) (S (nextTimer s)) s).

(** [clearTimeout(handle)]: the timer, if still pending, never fires. *)
Definition clearTimeout (t : Timer) : M St unit :=
  modify (fun s => set_timers (delete t (timers s)) (nextTimer s) s).

(** [if (handle) { clearTimeout(handle) }] *)
Definition clear_if_set (handle : option Timer) : M St unit :=
  match handle with
  | Some t => clearTimeout t
  | None => ret tt
  end.

(** [this.historyRead$?.resolve(v)] and [this.historyRead$?.reject(e)] *)
Definition historyRead_resolve (v : Z) : M St unit :=
  modify (fun s => set_historyRead (resolve v <$> historyRead_ s) s).
Definition historyRead_reject (e : Exn) : M St unit :=
  modify (fun s => set_historyRead (reject e <$> historyRead_ s) s).

Definition disconnect : M St unit :=
  (let* s := get in
   run clear_if_set (reconnectTimeout s) in
   let* s := get in
   run clear_if_set (historyReadTimeout s) in
   run on_agent agent_disconnect in
   on_base super_disconnect)%js.

(** [connect()] up to its [await this.connection$?.promise]. *)
Definition connect : M St unit :=
  if negb (win32 configuration) then ret tt
  else (run modify (set_connection (Some Pending)) in
        on_agent agent_connect)%js.

(** [handleInitializeMessage()] resolves [connection$]; the [connect()]
    that was waiting for it goes on with [super.connect()]. *)
Definition handleInitializeMessage : M St unit :=
  (let* s := get in
   run modify (set_connection (resolve tt <$> connection_ s)) in
   match connection_ s with
   | Some Pending => on_base super_connect
   | _ => ret tt
   end)%js.

(** The group an item belongs to: [`${scanModeId}-${aggregate}-${resampling}`]. *)
Definition groupName_of (scanModeId : string) (item : Item) : string :=
  scanModeId +:+ "-" +:+ item_aggregate item +:+ "-" +:+ item_resampling item.

(** Body of the inner [for (const item of items.values())] loop. *)
Definition add_item (scanModeId : string) (groups : list (string * ScanGroup))
    (item : Item) : list (string * ScanGroup) :=
  let groupName := groupName_of scanModeId item in
  let point := {| point_name := item_name item; nodeId := item_nodeId item |} in
  match map_get groupName groups with
  | None =>
      map_set groupName
        {| aggregate := item_aggregate item; resampling := item_resampling item;
           scanMode := item_scanModeId item; points := [point] |} groups
  | Some group =>
      map_set groupName
        {| aggregate := item_aggregate item; resampling := item_resampling item;
           scanMode := item_scanModeId item; points := points group ++ [point] |} groups
  end.

(** The two nested loops over [this.itemsByScanModeIds.entries()]. *)
Definition build_groups (byScanMode : list (string * list Item)) : list (string * ScanGroup) :=
  fold_left (fun groups '(scanModeId, items) => fold_left (add_item scanModeId) items groups)
            byScanMode [].

Definition handleConnectMessage (connected : bool) (error : string) : M St unit :=
  if negb connected then
    (run on_agent agent_disconnect in
     let* t := setTimeout CbConnect in
     modify (set_reconnectTimeout (Some t)))%js
  else
    try_catch
      (let* s := get in
       let groups := build_groups (itemsByScanModeIds s) in
       run modify (set_itemsByGroups groups) in
       on_agent (agent_sendInitializeMessage groups))%js
      (fun _ =>
         let* s := get in
         run clear_if_set (reconnectTimeout s) in
         run disconnect in
         let* t := setTimeout CbConnect in
         modify (set_reconnectTimeout (Some t)))%js.

(** The predicate of [Points.filter]: timestamp and value are defined. *)
Definition valid_point (p : Point) : bool :=
  match Timestamp p, Value p with
  | Some _, Some _ => true
  | _, _ => false
  end.

(** [associatedGroup.points.find(p => p.nodeId === point.ItemId)?.name || point.ItemId] *)
Definition associatedPointId (group : ScanGroup) (p : Point) : string :=
  match List.find (fun sp => String.eqb (nodeId sp) (ItemId p)) (points group) with
  | Some sp => Js.or_else (Some (point_name sp)) (ItemId p)
  | None => ItemId p
  end.

(** The [filter(..).map(..)] chain of [handleReadMessage]: the values it
    builds and the running [maxTimestamp], which starts at [0]. *)
Fixpoint map_points (group : ScanGroup) (pts : list Point) (maxTimestamp : Z)
    : list OIBusValue * Z :=
  match pts with
  | [] => ([], maxTimestamp)
  | p :: rest =>
      match Timestamp p, Value p with
      | Some ts, Some v =>
          let maxTimestamp' := if ts >? maxTimestamp then ts else maxTimestamp in
          let '(values, m) := map_points group rest maxTimestamp' in
          ({| pointId := associatedPointId group p; timestamp := ts;
              value := v; quality := Quality p |} :: values, m)
      | _, _ => map_points group rest maxTimestamp
      end
  end.

Definition handleReadMessage (content : Content) : M St unit :=
  if Js.truthy (Error_ content) then
    (run (if Disconnected content then
            (run disconnect in
             let* t := setTimeout CbSendConnectMessage in
             modify (set_reconnectTimeout (Some t)))
          else ret tt) in
     historyRead_reject (Error (default EmptyString (Error_ content))))%js
  else
    match Points content with
    | None =>
        historyRead_reject
          (Error ("Missing points entry in response for group " +:+ dq +:+ Group content +:+ dq))
    | Some [] => historyRead_resolve 0
    | Some pts =>
        (let* s := get in
         match map_get (Group content) (itemsByGroups s) with
         | None =>
             historyRead_reject
               (Error ("Group " +:+ dq +:+ Group content +:+ dq +:+ " not found"))
         | Some associatedGroup =>
             let '(values, maxTimestamp) := map_points associatedGroup pts 0 in
             run on_base (addValues values) in
             historyRead_resolve (maxTimestamp + 1)
         end)%js
    end.

(** [for (const groupName of this.itemsByGroups.keys()) { await this.agent.sendReadMessage(..) }] *)
Fixpoint sendReadMessages (groupNames : list string) (startTime endTime : Z) : M St unit :=
  match groupNames with
  | [] => ret tt
  | groupName :: rest =>
      (run on_agent (agent_sendReadMessage groupName startTime endTime) in
       sendReadMessages rest startTime endTime)%js
  end.

(** [historyQuery] up to [await this.historyRead$.promise]; its result is
    the local [maxTimestamp]. The [items] argument is not read. *)
Definition historyQuery_begin (items : list Item) (startTime endTime : Z) : M St Z :=
  (run modify (set_historyRead (Some Pending)) in
   let maxTimestamp := startTime in
   let* s := get in
   run sendReadMessages (map fst (itemsByGroups s)) startTime endTime in
   let* t := setTimeout CbHistoryReadTimeout in
   run modify (set_historyReadTimeout (Some t)) in
   ret maxTimestamp)%js.

(** [historyQuery] from the moment [this.historyRead$.promise] is settled. *)
Definition historyQuery_resume (maxTimestamp : Z) (settled : Deferred Z) : M St Z :=
  match settled with
  | Rejected e => throw e
  | Resolved retrievedTimestamp =>
      (let maxTimestamp' :=
         if retrievedTimestamp >? maxTimestamp then retrievedTimestamp else maxTimestamp in
       let* s := get in
       run match historyReadTimeout s with
           | Some t => clearTimeout t
           | None => ret tt
           end in
       run modify (set_historyReadTimeout None) in
       ret maxTimestamp')%js
  | Pending => ret maxTimestamp
  end.

(** The message of the error the history-read timer rejects with. *)
Definition timeout_message : string :=
  "History query has not succeeded in the requested readTimeout: " +:+
  pretty (readTimeout configuration) +:+ "s".

(** A pending timer fires: it leaves the table and its callback runs. A
    handle that was cleared, or has fired already, does nothing. *)
Definition fire (t : Timer) : M St unit :=
  (let* s := get in
   match timers s !! t with
   | None => ret tt
   | Some cb =>
       run modify (fun s => set_timers (delete t (timers s)) (nextTimer s) s) in
       match cb with
       | CbConnect => connect
       | CbSendConnectMessage => on_agent agent_sendConnectMessage
       | CbHistoryReadTimeout => historyRead_reject (Error timeout_message)
       end
   end)%js.

(** The state in which [historyQuery] starts to wait, when the read
    messages left the agent in state [a']: the promise is pending and the
    timer just set is the next free handle. *)
Definition waiting (a' : A) (s : St) : St :=
  set_historyReadTimeout (Some (nextTimer s))
    (set_timers (<[nextTimer s := CbHistoryReadTimeout]> (timers s)) (S (nextTimer s))
       (set_agent a' (set_historyRead (Some Pending) s))).

(** The point [pt] is registered in the group of key [k]. *)
Definition registered (k : string) (pt : ScanGroupPoint) (groups : list (string * ScanGroup))
    : Prop :=
  exists g, map_get k groups = Some g /\ pt ∈ points g.

(** The value built from one point of a reply, when the point is valid. *)
Definition to_value (group : ScanGroup) (p : Point) : option OIBusValue :=
  match Timestamp p, Value p with
  | Some ts, Some v =>
      Some {| pointId := associatedPointId group p; timestamp := ts;
              value := v; quality := Quality p |}
  | _, _ => None
  end.

(** The timer table once the timer behind a handle field is cleared. *)
Definition cleared (handle : option Timer) (m : gmap Timer Callback) : gmap Timer Callback :=
  match handle with
  | Some t => delete t m
  | None => m
  end.

(** What the event loop can deliver to the connector. *)
Inductive Event : Type :=
  | ReadMessage (content : Content)
  | ConnectMessage (connected : bool) (error : string)
  | InitializeMessage
  | TimerFires (t : Timer)
  | DisconnectCall.

Definition handle (ev : Event) : M St unit :=
  match ev with
  | ReadMessage content => handleReadMessage content
  | ConnectMessage connected error => handleConnectMessage connected error
  | InitializeMessage => handleInitializeMessage
  | TimerFires t => fire t
  | DisconnectCall => disconnect
  end.

(** An exception of a handler goes to whoever delivered the event, never
    to the pending [historyQuery]; the connector keeps the state reached. *)
Definition deliver (ev : Event) (s : St) : St := snd (handle ev s).

(** [await this.historyRead$.promise]: events are delivered, in order,
    until the promise is settled. *)
Fixpoint await_historyRead (events : list Event) (s : St) : St :=
  match historyRead_ s with
  | Some (Resolved _) | Some (Rejected _) => s
  | _ =>
      match events with
      | [] => s
      | ev :: rest => await_historyRead rest (deliver ev s)
      end
  end.

(** [historyQuery(items, startTime, endTime)] against the events that
    arrive while it waits. *)
Definition historyQuery (items : list Item) (startTime endTime : Z)
    (events : list Event) (s : St) : Completion Z * St :=
  match historyQuery_begin items startTime endTime s with
  | (Throw e, s1) => (Failed e, s1)
  | (Ret maxTimestamp, s1) =>
      let s2 := await_historyRead events s1 in
      match historyRead_ s2 with
      | Some Pending | None => (Hangs, s2)
      | Some settled =>
          match historyQuery_resume maxTimestamp settled s2 with
          | (Ret instant, s3) => (Returned instant, s3)
          | (Throw e, s3) => (Failed e, s3)
          end
      end
  end.

End Connector.

End SouthOPCHDA.

(** ** Concrete collaborators used to exercise the model *)
Module Examples.

Definition sftp_unnamed : NorthSFTP.Connector :=
  {| NorthSFTP.connector_name := "sftp";
     NorthSFTP.settings :=
       {| NorthSFTP.host := "localhost"; NorthSFTP.port := 22;
          NorthSFTP.remoteFolder := "/upload";
          NorthSFTP.prefix := None; NorthSFTP.suffix := None |} |}.

(** A glob matcher with literal characters and the star wildcard. *)
Fixpoint glob_match (pattern str : string) {struct pattern} : bool :=
  match pattern with
  | EmptyString => match str with EmptyString => true | _ => false end
  | String c pattern' =>
      if Ascii.eqb c "*" then
        (fix star (s : string) : bool :=
           glob_match pattern' s
           || match s with EmptyString => false | String _ s' => star s' end) str
      else match str with
           | String d str' => Ascii.eqb c d && glob_match pattern' str'
           | EmptyString => false
           end
  end.

Definition star_globs : IpFilter.Micromatch :=
  {| IpFilter.matches := fun str pattern => glob_match pattern str |}.

(** A remote server that accepts the session and then fails the
    [exists] request. *)
Definition remote_failing_probe : NorthSFTP.Remote :=
  {| NorthSFTP.options_error := None;
     NorthSFTP.connect_error := None;
     NorthSFTP.exists_result := fun _ => Throw (Error "Permission denied");
     NorthSFTP.put_error := None;
     NorthSFTP.end_error := None |}.

(** A remote server on which [/upload] is a directory. *)
Definition remote_with_upload : NorthSFTP.Remote :=
  {| NorthSFTP.options_error := None;
     NorthSFTP.connect_error := None;
     NorthSFTP.exists_result := fun path =>
       Ret (if String.eqb path "/upload" then NorthSFTP.IsDir else NorthSFTP.NotFound);
     NorthSFTP.put_error := None;
     NorthSFTP.end_error := None |}.

Definition idle_world : NorthSFTP.World bool :=
  {| NorthSFTP.lifecycle := false; NorthSFTP.openClients := 0; NorthSFTP.uploads := [] |}.

(** A formatter that files every value under the collection [points]. *)
Definition plain_formatter : MongoDB.Formatter string :=
  {| MongoDB.render := fun pointId data => MongoDB.Document "points" "site:A" data |}.

(** A [JSON.parse] for the bodies that [makeRequest] builds: the text
    between the brackets is cut at its line feeds, the comma that ends every
    line but the last goes, and a document without text or with an unpaired
    double quote is a syntax error. *)
Fixpoint count_quotes (s : string) : nat :=
  match s with
  | EmptyString => 0
  | String a s' => (if Ascii.eqb a (ascii_of_nat 34) then 1 else 0) + count_quotes s'
  end.

Definition well_quoted (doc : string) : bool :=
  negb (String.eqb doc EmptyString) && Nat.even (count_quotes doc).

Fixpoint documents_of (lines : list string) : Outcome (list string) :=
  match lines with
  | [] => Ret []
  | [doc] =>
      if well_quoted doc then Ret [doc] else Throw (SyntaxError "Unexpected token in JSON")
  | line :: rest =>
      let doc := Js.slice line 0 (-1) in
      if Js.endsWith line "," && well_quoted doc then
        match documents_of rest with
        | Ret docs => Ret (doc :: docs)
        | Throw e => Throw e
        end
      else Throw (SyntaxError "Unexpected token in JSON")
  end.

Definition line_json : MongoDB.JsonArray :=
  {| MongoDB.parse_array := fun text =>
       if String.prefix "[" text && Js.endsWith text "]" then
         match Js.slice text 1 (-1) with
         | EmptyString => Ret []
         | inner => documents_of (Js.split inner (ascii_of_nat 10))
         end
       else Throw (SyntaxError "Unexpected token in JSON") |}.

(** The document of a value whose text holds a double quote that is not
    escaped. *)
Definition unescaped_data : string := "{value:" +:+ dq +:+ "5" +:+ dq +:+ "6" +:+ dq +:+ "}".

Definition sound_driver : MongoDB.Driver :=
  {| MongoDB.createCollection_error := fun _ => false;
     MongoDB.insertMany_rejects := fun _ _ => false |}.

(** The connector as constructed, before [connect()]. *)
Definition mongo_constructed : MongoDB.State :=
  {| MongoDB.createCollection := true; MongoDB.mongoClient := false;
     MongoDB.listCollections := None; MongoDB.collectionChecked := false;
     MongoDB.documents := ∅; MongoDB.valuesSent := 0; MongoDB.lastPointId := None;
     MongoDB.unhandledRejections := 0 |}.

(** The connector right after a successful connection. *)
Definition mongo_connected : MongoDB.State := MongoDB.connect_callback false mongo_constructed.

Definition first_batch : list (MongoDB.Value string) :=
  [ {| MongoDB.pointId := "site.unit.sensor1"; MongoDB.data := "{value:1}" |};
    {| MongoDB.pointId := "site.unit.sensor2"; MongoDB.data := "{value:2}" |} ].

(** An agent and a base class that never throw: the agent counts the
    messages it was asked to send, the base class keeps the values added. *)
Definition quiet : SouthOPCHDA.Collaborators nat (list SouthOPCHDA.OIBusValue) :=
  {| SouthOPCHDA.agent_connect := fun a => (Ret tt, S a);
     SouthOPCHDA.agent_disconnect := fun a => (Ret tt, O);
     SouthOPCHDA.agent_sendConnectMessage := fun a => (Ret tt, S a);
     SouthOPCHDA.agent_sendInitializeMessage := fun _ a => (Ret tt, S a);
     SouthOPCHDA.agent_sendReadMessage := fun _ _ _ a => (Ret tt, S a);
     SouthOPCHDA.super_connect := fun b => (Ret tt, b);
     SouthOPCHDA.super_disconnect := fun b => (Ret tt, b);
     SouthOPCHDA.addValues := fun values b => (Ret tt, b ++ values) |}.

Definition hda_configuration : SouthOPCHDA.Configuration :=
  {| SouthOPCHDA.readTimeout := 180; SouthOPCHDA.retryInterval := 10000;
     SouthOPCHDA.win32 := true |}.

Definition item1 : SouthOPCHDA.Item :=
  {| SouthOPCHDA.item_name := "item1"; SouthOPCHDA.item_scanModeId := "scanModeId1";
     SouthOPCHDA.item_aggregate := "Raw"; SouthOPCHDA.item_resampling := "None";
     SouthOPCHDA.item_nodeId := "ns=1;s=Counter" |}.

(** The connector as constructed. *)
Definition hda_constructed : SouthOPCHDA.State nat (list SouthOPCHDA.OIBusValue) :=
  {| SouthOPCHDA.agent := O; SouthOPCHDA.base := [];
     SouthOPCHDA.itemsByScanModeIds := [("scanModeId1", [item1])];
     SouthOPCHDA.connection_ := None; SouthOPCHDA.reconnectTimeout := None;
     SouthOPCHDA.historyRead_ := None; SouthOPCHDA.historyReadTimeout := None;
     SouthOPCHDA.itemsByGroups := []; SouthOPCHDA.timers := ∅;
     SouthOPCHDA.nextTimer := O |}.

(** The connector once the agent has reported its connection. *)
Definition hda_ready : SouthOPCHDA.State nat (list SouthOPCHDA.OIBusValue) :=
  snd (@SouthOPCHDA.handleConnectMessage _ _ quiet true EmptyString hda_constructed).

(** One valid point at instant 1500 for the group of [item1]. *)
Definition reply_1500 : SouthOPCHDA.Content :=
  {| SouthOPCHDA.Error_ := None; SouthOPCHDA.Disconnected := false;
     SouthOPCHDA.Group := "scanModeId1-Raw-None";
     SouthOPCHDA.Points :=
       Some [ {| SouthOPCHDA.ItemId := "ns=1;s=Counter"; SouthOPCHDA.Timestamp := Some 1500;
                 SouthOPCHDA.Value := Some "42"; SouthOPCHDA.Quality := "192" |} ] |}.

(** An empty reply that names a group the connector does not know. *)
Definition reply_ghost_empty : SouthOPCHDA.Content :=
  {| SouthOPCHDA.Error_ := None; SouthOPCHDA.Disconnected := false;
     SouthOPCHDA.Group := "ghost"; SouthOPCHDA.Points := Some [] |}.

(** A reply with a point, for a group the connector does not know. *)
Definition reply_ghost_point : SouthOPCHDA.Content :=
  {| SouthOPCHDA.Error_ := None; SouthOPCHDA.Disconnected := false;
     SouthOPCHDA.Group := "ghost";
     SouthOPCHDA.Points :=
       Some [ {| SouthOPCHDA.ItemId := "ns=1;s=Counter"; SouthOPCHDA.Timestamp := Some 1500;
                 SouthOPCHDA.Value := Some "42"; SouthOPCHDA.Quality := "192" |} ] |}.

(** The agent lost its OPC HDA server. *)
Definition reply_server_lost : SouthOPCHDA.Content :=
  {| SouthOPCHDA.Error_ := Some "server lost"; SouthOPCHDA.Disconnected := true;
     SouthOPCHDA.Group := "scanModeId1-Raw-None"; SouthOPCHDA.Points := None |}.

(** The group [handleConnectMessage] builds for [item1]. *)
Definition group1 : SouthOPCHDA.ScanGroup :=
  {| SouthOPCHDA.aggregate := "Raw"; SouthOPCHDA.resampling := "None";
     SouthOPCHDA.scanMode := "scanModeId1";
     SouthOPCHDA.points :=
       [ {| SouthOPCHDA.point_name := "item1"; SouthOPCHDA.nodeId := "ns=1;s=Counter" |} ] |}.

(** The connector while a history query over [1000, 2000] is waiting. *)
Definition hda_querying : SouthOPCHDA.State nat (list SouthOPCHDA.OIBusValue) :=
  snd (@SouthOPCHDA.historyQuery_begin _ _ quiet [] 1000 2000 hda_ready).

(** The connector after the agent failed to connect twice in a row. *)
Definition hda_two_failures : SouthOPCHDA.State nat (list SouthOPCHDA.OIBusValue) :=
  @SouthOPCHDA.deliver _ _ quiet hda_configuration (SouthOPCHDA.ConnectMessage false "refused")
    (@SouthOPCHDA.deliver _ _ quiet hda_configuration
       (SouthOPCHDA.ConnectMessage false "refused") hda_constructed).

(** A disk on which only the directory [/etc/oibus] exists. *)
Definition etc_disk : Fs.Disk :=
  {| Fs.write_error := fun path =>
       if String.prefix "/etc/oibus/" path then None else Some (Fs.enoent "open" path) |}.

(** A [JSON] on texts: every non-empty text is its own encoding. *)
Definition text_json : Json string :=
  {| stringify := fun o => o;
     parseJSON := fun text =>
       match text with
       | EmptyString => Throw (Error "Unexpected end of JSON input")
       | _ => Ret text
       end |}.

(** Plain data: objects with their own members only. *)
Inductive Data : Type :=
  | Undefined
  | Null
  | Num (n : Z)
  | Str (s : string)
  | Obj (members : Members)
with Members : Type :=
  | NoMember
  | Member (key : string) (v : Data) (rest : Members).

Fixpoint own_member (members : Members) (k : string) : Data :=
  match members with
  | NoMember => Undefined
  | Member k' v rest => if String.eqb k k' then v else own_member rest k
  end.

Definition plain_data : MongoDB.JsValue Data :=
  {| MongoDB.is_object := fun v =>
       match v with Null | Obj _ => true | _ => false end;
     MongoDB.member := fun v k =>
       match v with
       | Undefined => Throw (TypeError "Cannot read properties of undefined")
       | Null => Throw (TypeError "Cannot read properties of null")
       | Obj members => Ret (own_member members k)
       | _ => Ret Undefined
       end |}.

(** [{ level1: { level2: { value: 7 } } }] *)
Definition nested_value : Data :=
  Obj (Member "level1"
         (Obj (Member "level2" (Obj (Member "value" (Num 7) NoMember)) NoMember))
         NoMember).

(** A remote server that accepts the session and refuses the file. *)
Definition remote_failing_put : NorthSFTP.Remote :=
  {| NorthSFTP.options_error := None;
     NorthSFTP.connect_error := None;
     NorthSFTP.exists_result := fun _ => Ret NorthSFTP.IsDir;
     NorthSFTP.put_error := Some (Error "No space left on device");
     NorthSFTP.end_error := None |}.

(** A formatter that knows the points of [site]: their documents go to the
    collection [points]; a point id without a dot has too few groups, and
    the point id [?] does not match the regular expression. *)
Definition site_formatter : MongoDB.Formatter string :=
  {| MongoDB.render := fun pointId data =>
       if String.eqb pointId "?" then MongoDB.NoMatch
       else if Js.contains "." pointId then MongoDB.Document "points" "site:A" data
       else MongoDB.MissingGroups "undefined" "site:undefined" |}.

(** A driver whose [insertMany] is always rejected. *)
Definition rejecting_driver : MongoDB.Driver :=
  {| MongoDB.createCollection_error := fun _ => false;
     MongoDB.insertMany_rejects := fun _ _ => true |}.

(** The connected connector once its collection has been checked. *)
Definition mongo_checked : MongoDB.State :=
  MongoDB.set_collectionChecked true mongo_connected.

(** The connected connector when [createCollection] is off. *)
Definition mongo_no_create : MongoDB.State :=
  {| MongoDB.createCollection := false; MongoDB.mongoClient := true;
     MongoDB.listCollections := Some []; MongoDB.collectionChecked := false;
     MongoDB.documents := ∅; MongoDB.valuesSent := 0; MongoDB.lastPointId := None;
     MongoDB.unhandledRejections := 0 |}.

(** An agent that cannot be stopped, over the same base class. *)
Definition stubborn : SouthOPCHDA.Collaborators nat (list SouthOPCHDA.OIBusValue) :=
  {| SouthOPCHDA.agent_connect := fun a => (Ret tt, S a);
     SouthOPCHDA.agent_disconnect := fun a => (Throw (Error "agent does not answer"), a);
     SouthOPCHDA.agent_sendConnectMessage := fun a => (Ret tt, S a);
     SouthOPCHDA.agent_sendInitializeMessage :=
       fun _ a => (Throw (Error "socket closed"), a);
     SouthOPCHDA.agent_sendReadMessage := fun _ _ _ a => (Ret tt, S a);
     SouthOPCHDA.super_connect := fun b => (Ret tt, b);
     SouthOPCHDA.super_disconnect := fun b => (Ret tt, b);
     SouthOPCHDA.addValues := fun values b => (Ret tt, b ++ values) |}.

(** An agent that stops but cannot take the initialization message. *)
Definition uninitialized : SouthOPCHDA.Collaborators nat (list SouthOPCHDA.OIBusValue) :=
  {| SouthOPCHDA.agent_connect := fun a => (Ret tt, S a);
     SouthOPCHDA.agent_disconnect := fun a => (Ret tt, O);
     SouthOPCHDA.agent_sendConnectMessage := fun a => (Ret tt, S a);
     SouthOPCHDA.agent_sendInitializeMessage :=
       fun _ a => (Throw (Error "socket closed"), a);
     SouthOPCHDA.agent_sendReadMessage := fun _ _ _ a => (Ret tt, S a);
     SouthOPCHDA.super_connect := fun b => (Ret tt, b);
     SouthOPCHDA.super_disconnect := fun b => (Ret tt, b);
     SouthOPCHDA.addValues := fun values b => (Ret tt, b ++ values) |}.

(** A reply of three points for the group of [item1]: the second has no
    value, the third comes from a node that no item names. *)
Definition reply_mixed : SouthOPCHDA.Content :=
  {| SouthOPCHDA.Error_ := None; SouthOPCHDA.Disconnected := false;
     SouthOPCHDA.Group := "scanModeId1-Raw-None";
     SouthOPCHDA.Points :=
       Some [ {| SouthOPCHDA.ItemId := "ns=1;s=Counter"; SouthOPCHDA.Timestamp := Some 1500;
                 SouthOPCHDA.Value := Some "42"; SouthOPCHDA.Quality := "192" |};
              {| SouthOPCHDA.ItemId := "ns=1;s=Counter"; SouthOPCHDA.Timestamp := Some 1600;
                 SouthOPCHDA.Value := None; SouthOPCHDA.Quality := "0" |};
              {| SouthOPCHDA.ItemId := "ns=1;s=Other"; SouthOPCHDA.Timestamp := Some 1400;
                 SouthOPCHDA.Value := Some "7"; SouthOPCHDA.Quality := "192" |} ] |}.

(** An error reply that does not ask for a disconnection. *)
Definition reply_bad_request : SouthOPCHDA.Content :=
  {| SouthOPCHDA.Error_ := Some "bad request"; SouthOPCHDA.Disconnected := false;
     SouthOPCHDA.Group := "scanModeId1-Raw-None"; SouthOPCHDA.Points := None |}.

End Examples.

(* THEOREMS *)

(** ** File names: the stem of a cached file *)
Section FileNames.

Lemma lastIndexOf_from_absent (c : ascii) (s : string) :
  forall i acc, Js.contains c s = false -> Js.lastIndexOf_from c s i acc = acc.
Proof.
  induction s as [|a s IH]; intros i acc Hc; simpl in *; [reflexivity|].
  apply orb_false_iff in Hc as [Ha Hs]. rewrite Ha. apply IH, Hs.
Qed.

Lemma lastIndexOf_from_last (c : ascii) (pre post : string) :
  Js.contains c post = false ->
  forall i acc,
    Js.lastIndexOf_from c (pre +:+ String c post) i acc = i + Z.of_nat (String.length pre).
Proof.
  intros Hpost. induction pre as [|a pre IH]; intros i acc; simpl.
  - rewrite Ascii.eqb_refl, lastIndexOf_from_absent by exact Hpost. lia.
  - rewrite IH. lia.
Qed.

Lemma contains_split (c : ascii) (s : string) :
  Js.contains c s = true ->
  exists pre post, s = pre +:+ String c post /\ Js.contains c post = false.
Proof.
  induction s as [|a s IH]; simpl; [discriminate|]. intros Hc.
  destruct (Js.contains c s) eqn:Hs.
  - destruct (IH eq_refl) as (pre & post & -> & Hpost).
    exists (String a pre), post. split; [reflexivity|exact Hpost].
  - rewrite orb_false_r in Hc. apply Ascii.eqb_eq in Hc as ->.
    exists EmptyString, s. split; [reflexivity|exact Hs].
Qed.

Lemma substring_prefix (pre rest : string) :
  String.substring 0 (String.length pre) (pre +:+ rest) = pre.
Proof.
  induction pre as [|a pre IH]; simpl.
  - destruct rest; reflexivity.
  - rewrite IH. reflexivity.
Qed.

Lemma length_append (s1 s2 : string) :
  String.length (s1 +:+ s2) = (String.length s1 + String.length s2)%nat.
Proof. induction s1 as [|a s1 IH]; simpl; [reflexivity|]. rewrite IH. reflexivity. Qed.

Lemma slice_prefix (pre rest : string) :
  Js.slice (pre +:+ rest) 0 (Z.of_nat (String.length pre)) = pre.
Proof.
  unfold Js.slice. rewrite length_append. simpl.
  destruct (Z.ltb_spec (Z.of_nat (String.length pre)) 0); [lia|].
  rewrite Z.min_l by lia. rewrite Z.min_l by lia.
  rewrite Z.sub_0_r, Z.max_l by lia. rewrite Nat2Z.id. apply substring_prefix.
Qed.

Lemma slice_drop_last (r : string) (ch : ascii) :
  Js.slice (r +:+ String ch EmptyString) 0 (-1) = r.
Proof.
  unfold Js.slice. rewrite length_append. simpl.
  rewrite Z.min_l by lia.
  replace (Z.max (Z.of_nat (String.length r + 1) + -1) 0) with (Z.of_nat (String.length r)) by lia.
  rewrite Z.sub_0_r, Z.max_l by lia. rewrite Nat2Z.id. apply substring_prefix.
Qed.

(** The stem is the part of the name before its last dash. *)
Lemma stem_dash (pre post : string) :
  Js.contains "-" post = false -> Utils.stem (pre +:+ String "-" post) = pre.
Proof.
  intros Hpost. unfold Utils.stem, Js.lastIndexOf.
  rewrite lastIndexOf_from_last by exact Hpost. simpl. apply slice_prefix.
Qed.

(** Without a dash, [lastIndexOf] is [-1] and [slice(0, -1)] drops the last
    character. *)
Lemma stem_no_dash (r : string) (ch : ascii) :
  Js.contains "-" (r +:+ String ch EmptyString) = false ->
  Utils.stem (r +:+ String ch EmptyString) = r.
Proof.
  intros Hno. unfold Utils.stem, Js.lastIndexOf.
  rewrite lastIndexOf_from_absent by exact Hno. apply slice_drop_last.
Qed.

End FileNames.

(** ** Rounding to the nearest double *)
Section NumberFacts.
Import Number.

Lemma one_pos : 0 < one.
Proof. unfold one. apply Z.pow_pos_nonneg; lia. Qed.

Lemma nearest_even_spec (p d : Z) :
  0 < d ->
  let k := nearest_even p d in
  2 * p - d <= 2 * (k * d) <= 2 * p + d
  /\ (2 * (k * d) = 2 * p + d -> Z.even k = true)
  /\ (2 * (k * d) = 2 * p - d -> Z.even k = true).
Proof.
  intros Hd k. subst k. unfold nearest_even.
  pose proof (Z.div_mod p d ltac:(lia)) as Hp.
  pose proof (Z.mod_pos_bound p d Hd) as Hr.
  destruct (Z.ltb_spec (2 * (p mod d)) d) as [H1|H1].
  - split; [nia|]. split; intros; nia.
  - destruct (Z.ltb_spec d (2 * (p mod d))) as [H2|H2].
    + split; [nia|]. split; intros; nia.
    + destruct (Z.even (p / d)) eqn:He.
      * split; [nia|]. split; intros; [exact He|exact He].
      * split; [nia|]. split; intros; [|nia].
        rewrite Z.even_add, He. reflexivity.
Qed.

Lemma nearest_even_mono (p1 d1 p2 d2 : Z) :
  0 < d1 -> 0 < d2 -> p1 * d2 <= p2 * d1 ->
  nearest_even p1 d1 <= nearest_even p2 d2.
Proof.
  intros Hd1 Hd2 Hle.
  destruct (nearest_even_spec p1 d1 Hd1) as ((_ & Hu1) & He1 & _).
  destruct (nearest_even_spec p2 d2 Hd2) as ((Hl2 & _) & _ & He2).
  set (k1 := nearest_even p1 d1) in *. set (k2 := nearest_even p2 d2) in *.
  destruct (Z_le_gt_dec k1 k2) as [|Hgt]; [assumption|exfalso].
  assert (Hk : 2 * (k1 * d1) * d2 <= 2 * (k2 * d2) * d1 + 2 * d1 * d2) by nia.
  assert (Heq : k1 = k2 + 1) by nia.
  assert (E1 : 2 * (k1 * d1) = 2 * p1 + d1) by nia.
  assert (E2 : 2 * (k2 * d2) = 2 * p2 - d2) by nia.
  apply He1 in E1. apply He2 in E2.
  rewrite Heq, Z.even_add, E2 in E1. discriminate.
Qed.

Lemma nearest_even_exact (k d : Z) : 0 < d -> nearest_even (k * d) d = k.
Proof.
  intros Hd. unfold nearest_even.
  rewrite Z.div_mul by lia. rewrite Z.mod_mul by lia.
  destruct (Z.ltb_spec (2 * 0) d); [reflexivity|lia].
Qed.

Lemma nearest_even_le (p d c : Z) : 0 < d -> p <= c * d -> nearest_even p d <= c.
Proof.
  intros Hd Hp. rewrite <- (nearest_even_exact c d Hd).
  apply nearest_even_mono; try assumption. nia.
Qed.

Lemma nearest_even_ge (p d c : Z) : 0 < d -> c * d <= p -> c <= nearest_even p d.
Proof.
  intros Hd Hp. rewrite <- (nearest_even_exact c d Hd).
  apply nearest_even_mono; try assumption. nia.
Qed.

Lemma div_le_cross (a1 q1 a2 q2 : Z) :
  0 < q1 -> 0 < q2 -> 0 <= a1 -> a1 * q2 <= a2 * q1 -> a1 / q1 <= a2 / q2.
Proof.
  intros H1 H2 Ha Hle.
  apply Z.div_le_lower_bound; [lia|].
  pose proof (Z.mul_div_le a1 q1 H1).
  assert (0 <= a1 / q1) by (apply Z.div_pos; lia).
  nia.
Qed.

(** The shift of a non-negative quotient and the binade it stands for. *)
Lemma shift_bounds (a q : Z) :
  0 < q -> 0 <= a ->
  let shift := Z.max 0 (Z.log2 (a / q) - 52) in
  0 <= shift /\ a < 2 ^ (shift + 53) * q /\ (0 < shift -> 2 ^ (shift + 52) * q <= a).
Proof.
  intros Hq Ha shift.
  assert (Hf : 0 <= a / q) by (apply Z.div_pos; lia).
  pose proof (Z.mul_div_le a q Hq) as Hlo.
  pose proof (Z.mul_succ_div_gt a q Hq) as Hhi.
  split; [lia|].
  destruct (Z.eq_dec (a / q) 0) as [H0|Hn0].
  - subst shift. rewrite H0 in *. change (Z.log2 0) with 0.
    rewrite Z.max_l by lia. split; [|lia].
    change (0 + 53) with 53.
    assert (1 <= 2 ^ 53) by lia. unfold Z.succ in Hhi. nia.
  - pose proof (Z.log2_spec (a / q) ltac:(lia)) as [Hl Hu].
    pose proof (Z.log2_nonneg (a / q)) as Hlog.
    split.
    + assert (2 ^ Z.succ (Z.log2 (a / q)) <= 2 ^ (shift + 53)).
      { apply Z.pow_le_mono_r; lia. }
      nia.
    + intros Hs. assert (shift = Z.log2 (a / q) - 52) by lia.
      replace (shift + 52) with (Z.log2 (a / q)) by lia. nia.
Qed.

Lemma nearest_double_mono (a1 q1 a2 q2 : Z) :
  0 < q1 -> 0 < q2 -> 0 <= a1 -> a1 * q2 <= a2 * q1 ->
  nearest_double a1 q1 <= nearest_double a2 q2.
Proof.
  intros H1 H2 Ha1 Hle.
  assert (Ha2 : 0 <= a2) by nia.
  pose proof (div_le_cross a1 q1 a2 q2 H1 H2 Ha1 Hle) as Hdiv.
  pose proof (Z.log2_le_mono _ _ Hdiv) as Hlog.
  destruct (shift_bounds a1 q1 H1 Ha1) as (Hs1 & Hup1 & _).
  destruct (shift_bounds a2 q2 H2 Ha2) as (Hs2 & _ & Hlow2).
  unfold nearest_double.
  set (s1 := Z.max 0 (Z.log2 (a1 / q1) - 52)) in *.
  set (s2 := Z.max 0 (Z.log2 (a2 / q2) - 52)) in *.
  assert (Hs : s1 <= s2) by lia.
  assert (Hp1 : 0 < 2 ^ s1) by (apply Z.pow_pos_nonneg; lia).
  assert (Hp2 : 0 < 2 ^ s2) by (apply Z.pow_pos_nonneg; lia).
  destruct (Z.eq_dec s1 s2) as [Heq|Hne].
  - rewrite <- Heq.
    apply Z.mul_le_mono_nonneg_r; [lia|].
    apply nearest_even_mono; nia.
  - assert (Hlt : s1 < s2) by lia.
    transitivity (2 ^ 53 * 2 ^ s1).
    + apply Z.mul_le_mono_nonneg_r; [lia|].
      apply nearest_even_le; [nia|].
      rewrite Z.pow_add_r in Hup1 by lia. nia.
    + transitivity (2 ^ 52 * 2 ^ s2).
      * replace s2 with (s1 + 1 + (s2 - s1 - 1)) by lia.
        rewrite !Z.pow_add_r by lia.
        pose proof (Z.pow_pos_nonneg 2 (s2 - s1 - 1) ltac:(lia) ltac:(lia)).
        change (2 ^ 53) with (2 ^ 52 * 2). change (2 ^ 1) with 2. nia.
      * apply Z.mul_le_mono_nonneg_r; [lia|].
        apply nearest_even_ge; [nia|].
        specialize (Hlow2 ltac:(lia)).
        rewrite Z.pow_add_r in Hlow2 by lia. nia.
Qed.

Lemma nearest_double_exact (k j q : Z) :
  0 < q -> 0 <= k <= 2 ^ 53 -> 0 <= j ->
  nearest_double (k * 2 ^ j * q) q = k * 2 ^ j.
Proof.
  intros Hq Hk Hj.
  destruct (Z.eq_dec k 0) as [->|Hk0].
  { rewrite !Z.mul_0_l. unfold nearest_double. rewrite Z.div_0_l by lia.
    change (Z.max 0 (Z.log2 0 - 52)) with 0. change (2 ^ 0) with 1.
    rewrite !Z.mul_1_r. exact (nearest_even_exact 0 q Hq). }
  unfold nearest_double. rewrite Z.div_mul by lia.
  rewrite Z.log2_mul_pow2 by lia.
  pose proof (Z.log2_nonneg k) as Hlog.
  assert (Hlog53 : Z.log2 k <= 53).
  { change 53 with (Z.log2 (2 ^ 53)). apply Z.log2_le_mono. lia. }
  set (shift := Z.max 0 (j + Z.log2 k - 52)).
  destruct (Z_le_gt_dec shift j) as [Hle|Hgt].
  - replace (k * 2 ^ j * q) with (k * 2 ^ (j - shift) * (q * 2 ^ shift)).
    + rewrite nearest_even_exact.
      * rewrite <- Z.mul_assoc, <- Z.pow_add_r by lia. f_equal. f_equal. lia.
      * assert (0 < 2 ^ shift) by (apply Z.pow_pos_nonneg; lia). nia.
    + replace j with (j - shift + shift) at 2 by lia.
      rewrite Z.pow_add_r by lia. ring.
  - assert (Hl : Z.log2 k = 53) by lia.
    assert (Hk53 : k = 2 ^ 53).
    { pose proof (Z.log2_spec k ltac:(lia)) as [Hlow _]. rewrite Hl in Hlow. lia. }
    assert (Hshift : shift = j + 1) by lia.
    rewrite Hshift, Hk53.
    replace (2 ^ 53 * 2 ^ j * q) with (2 ^ 52 * (q * 2 ^ (j + 1))).
    + rewrite nearest_even_exact.
      * rewrite Z.pow_add_r by lia. change (2 ^ 53) with (2 ^ 52 * 2). change (2 ^ 1) with 2. ring.
      * assert (0 < 2 ^ (j + 1)) by (apply Z.pow_pos_nonneg; lia). nia.
    + rewrite Z.pow_add_r by lia. change (2 ^ 53) with (2 ^ 52 * 2). change (2 ^ 1) with 2. ring.
Qed.

Lemma nearest_double_rel (a q : Z) :
  0 < q -> 2 ^ 52 * q <= a ->
  a * (2 ^ 53 - 1) <= nearest_double a q * q * 2 ^ 53.
Proof.
  intros Hq Ha.
  assert (Ha0 : 0 <= a) by nia.
  destruct (shift_bounds a q Hq Ha0) as (Hs & _ & Hlow).
  unfold nearest_double.
  set (shift := Z.max 0 (Z.log2 (a / q) - 52)) in *.
  assert (Hp : 0 < 2 ^ shift) by (apply Z.pow_pos_nonneg; lia).
  destruct (nearest_even_spec a (q * 2 ^ shift) ltac:(nia)) as ((Hl & _) & _).
  set (k := nearest_even a (q * 2 ^ shift)) in *.
  assert (Hbin : 2 ^ 52 * (q * 2 ^ shift) <= a).
  { destruct (Z.eq_dec shift 0) as [->|Hn]; [simpl; lia|].
    specialize (Hlow ltac:(lia)). rewrite Z.pow_add_r in Hlow by lia. nia. }
  change (2 ^ 53) with (2 * 2 ^ 52). nia.
Qed.

Lemma one_large : 2 ^ 106 <= one.
Proof. unfold one. apply Z.pow_le_mono_r; lia. Qed.

Lemma MAX_VALUE_large : 2 ^ 53 * 2 ^ 64 * one <= MAX_VALUE.
Proof. vm_compute. discriminate. Qed.

Lemma representable_integer (z j : Z) :
  0 <= z <= 2 ^ 53 -> 0 <= j <= 64 -> representable (z * 2 ^ j * one).
Proof.
  intros Hz Hj. exists z, (j + 1074). split; [|split; [lia|split; [lia|]]].
  - unfold one. rewrite Z.pow_add_r by lia. ring.
  - pose proof MAX_VALUE_large. pose proof one_pos.
    assert (0 < 2 ^ j) by (apply Z.pow_pos_nonneg; lia).
    assert (2 ^ j <= 2 ^ 64) by (apply Z.pow_le_mono_r; lia).
    remember (2 ^ 53) as B. remember (2 ^ 64) as C. remember (2 ^ j) as E.
    assert (z * E <= B * C) by (apply Z.mul_le_mono_nonneg; lia).
    assert (z * E * one <= B * C * one) by (apply Z.mul_le_mono_nonneg_r; lia).
    lia.
Qed.

Lemma representable_small (z : Z) : 0 <= z <= 2 ^ 53 -> representable (z * one).
Proof.
  intros Hz. replace (z * one) with (z * 2 ^ 0 * one) by (simpl; ring).
  apply representable_integer; lia.
Qed.

Lemma nearest_double_representable (u q : Z) :
  0 < q -> representable u -> nearest_double (u * q) q = u.
Proof. intros Hq (k & j & -> & Hk & Hj & _). apply nearest_double_exact; assumption. Qed.

Lemma round_exact (z q : Z) :
  0 < q -> representable (Z.abs z) -> round (z * q) q = Finite z.
Proof.
  intros Hq Hrep. unfold round.
  rewrite Z.abs_mul, (Z.abs_eq q) by lia.
  rewrite (nearest_double_representable _ q Hq Hrep).
  destruct Hrep as (_ & _ & _ & _ & _ & Hmax).
  destruct (Z.ltb_spec MAX_VALUE (Z.abs z)); [lia|].
  f_equal. rewrite Z.sgn_mul, (Z.sgn_pos q) by lia. rewrite Z.mul_1_r.
  destruct z; reflexivity.
Qed.

Lemma nearest_double_nonneg (a q : Z) : 0 < q -> 0 <= a -> 0 <= nearest_double a q.
Proof.
  intros Hq Ha.
  change 0 with (0 * 2 ^ 0) at 1.
  rewrite <- (nearest_double_exact 0 0 q Hq ltac:(lia) ltac:(lia)).
  apply nearest_double_mono; lia.
Qed.

Lemma round_ge (u p q : Z) :
  0 < q -> representable u -> u * q <= p -> at_least u (round p q).
Proof.
  intros Hq Hrep Hle.
  assert (Hu : 0 <= u).
  { destruct Hrep as (k & j & -> & Hk & Hj & _).
    pose proof (Z.pow_pos_nonneg 2 j ltac:(lia) Hj). nia. }
  assert (Hp : 0 <= p) by nia.
  unfold round. rewrite (Z.abs_eq p) by lia.
  pose proof (nearest_double_mono (u * q) q p q Hq Hq ltac:(nia) ltac:(nia)) as Hmono.
  rewrite (nearest_double_representable u q Hq Hrep) in Hmono.
  destruct (Z.ltb_spec MAX_VALUE (nearest_double p q)).
  - destruct (Z.ltb_spec p 0); [lia|exact I].
  - simpl. destruct (Z.eq_dec p 0) as [->|Hn].
    + simpl. nia.
    + rewrite Z.sgn_pos by lia. lia.
Qed.

Lemma round_le (u p q : Z) :
  0 < q -> representable u -> p <= u * q -> at_most u (round p q).
Proof.
  intros Hq Hrep Hle.
  assert (Hu : 0 <= u).
  { destruct Hrep as (k & j & -> & Hk & Hj & _).
    pose proof (Z.pow_pos_nonneg 2 j ltac:(lia) Hj). nia. }
  unfold round.
  pose proof (nearest_double_nonneg (Z.abs p) q Hq (Z.abs_nonneg p)) as Hnn.
  destruct (Z.ltb_spec p 0) as [Hneg|Hpos].
  - destruct (Z.ltb_spec MAX_VALUE (nearest_double (Z.abs p) q)); [exact I|].
    simpl. rewrite Z.sgn_neg by lia. nia.
  - rewrite (Z.abs_eq p) in * by lia.
    pose proof (nearest_double_mono p q (u * q) q Hq Hq Hpos ltac:(nia)) as Hmono.
    rewrite (nearest_double_representable u q Hq Hrep) in Hmono.
    destruct Hrep as (_ & _ & _ & _ & _ & Hmax).
    destruct (Z.ltb_spec MAX_VALUE (nearest_double p q)); [lia|].
    simpl. destruct (Z.eq_dec p 0) as [->|Hn]; [simpl; lia|].
    rewrite Z.sgn_pos by lia. lia.
Qed.

(** The relative error of a rounding, seen from below. *)
Lemma round_rel (p q : Z) :
  0 < q -> 2 ^ 52 * q <= p ->
  round p q = PosInfinity
  \/ exists n, round p q = Finite n /\ p * (2 ^ 53 - 1) <= n * q * 2 ^ 53.
Proof.
  intros Hq Hp.
  assert (Hp0 : 0 < p).
  { assert (0 < 2 ^ 52) by lia. nia. }
  unfold round. rewrite (Z.abs_eq p) by lia.
  destruct (Z.ltb_spec MAX_VALUE (nearest_double p q)).
  - left. destruct (Z.ltb_spec p 0); [lia|reflexivity].
  - right. exists (nearest_double p q). split.
    + rewrite Z.sgn_pos by lia. f_equal. lia.
    + apply nearest_double_rel; assumption.
Qed.

End NumberFacts.

(** ** Whole numbers below 2^53: arithmetic on doubles is exact *)
Section IntegerArithmetic.
Import Number Utils.

Lemma abs_mul_one (z : Z) : Z.abs (z * one) = Z.abs z * one.
Proof. pose proof one_pos. rewrite Z.abs_mul, (Z.abs_eq one) by lia. reflexivity. Qed.

Lemma of_Z_exact (z : Z) : Z.abs z <= 2 ^ 53 -> of_Z z = Finite (z * one).
Proof.
  intros Hz. unfold of_Z. rewrite <- (Z.mul_1_r (z * one)) at 1.
  apply round_exact; [lia|]. rewrite abs_mul_one.
  apply representable_small. lia.
Qed.

Lemma add_exact (x y : Z) :
  Z.abs (x + y) <= 2 ^ 53 -> add (Finite (x * one)) (Finite (y * one)) = Finite ((x + y) * one).
Proof.
  intros Hz. cbn [add]. replace (x * one + y * one) with ((x + y) * one * 1) by ring.
  apply round_exact; [lia|]. rewrite abs_mul_one. apply representable_small. lia.
Qed.

Lemma sub_exact (x y : Z) :
  Z.abs (x - y) <= 2 ^ 53 -> sub (Finite (x * one)) (Finite (y * one)) = Finite ((x - y) * one).
Proof.
  intros Hz. unfold sub. cbn [opp]. replace (- (y * one)) with ((- y) * one) by ring.
  rewrite add_exact; [f_equal; ring|]. replace (x + - y) with (x - y) by ring. exact Hz.
Qed.

Lemma mul_exact (x y w j : Z) :
  Z.abs (x * y) = w * 2 ^ j -> 0 <= w <= 2 ^ 53 -> 0 <= j <= 64 ->
  mul (Finite (x * one)) (Finite (y * one)) = Finite (x * y * one).
Proof.
  intros Hxy Hw Hj. cbn [mul]. replace (x * one * (y * one)) with (x * y * one * one) by ring.
  apply round_exact; [apply one_pos|]. rewrite abs_mul_one, Hxy.
  apply representable_integer; assumption.
Qed.

Lemma mul_exact_small (x y : Z) :
  Z.abs (x * y) <= 2 ^ 53 ->
  mul (Finite (x * one)) (Finite (y * one)) = Finite (x * y * one).
Proof.
  intros Hxy. apply (mul_exact x y (Z.abs (x * y)) 0); [simpl; ring|lia|lia].
Qed.

Lemma ltb_integers (x y : Z) : ltb (Finite (x * one)) (Finite (y * one)) = (x <? y).
Proof.
  pose proof one_pos. cbn [ltb].
  destruct (Z.ltb_spec (x * one) (y * one)), (Z.ltb_spec x y); try reflexivity; nia.
Qed.

Lemma TimeClip_valid (v : Z) :
  Z.abs v <= 8640000000000000 -> TimeClip (Finite (v * one)) = Finite (v * one).
Proof.
  intros Hv. pose proof one_pos. unfold TimeClip. rewrite abs_mul_one.
  destruct (Z.ltb_spec (8640000000000000 * one) (Z.abs v * one)); [nia|].
  rewrite Z.quot_mul by lia. reflexivity.
Qed.

Lemma Date_of_valid (v : Z) :
  Z.abs v <= 8640000000000000 -> Date_of v = {| getTime := Finite (v * one) |}.
Proof.
  intros Hv. unfold Date_of, new_Date. rewrite of_Z_exact by lia.
  rewrite TimeClip_valid by exact Hv. reflexivity.
Qed.

Lemma new_Date_valid (v : Z) :
  Z.abs v <= 8640000000000000 -> new_Date (Finite (v * one)) = Date_of v.
Proof. intros Hv. rewrite Date_of_valid by exact Hv. unfold new_Date.
  rewrite TimeClip_valid by exact Hv. reflexivity. Qed.

(** Beyond the range of time values, [new Date] gives an invalid date. *)
Lemma new_Date_beyond (x : number) :
  at_least (8640000000000001 * one) x -> getTime (new_Date x) = NaN.
Proof.
  pose proof one_pos. destruct x as [| | |n]; simpl; try tauto. intros Hn.
  destruct (Z.ltb_spec (8640000000000000 * one) (Z.abs n)); [reflexivity|lia].
Qed.

Lemma Date_of_invalid (v : Z) :
  8640000000000000 < Z.abs v -> getTime (Date_of v) = NaN.
Proof.
  intros Hv. pose proof one_pos. unfold Date_of, new_Date, of_Z, round. cbn [getTime].
  rewrite abs_mul_one.
  assert (Hrep : representable (8640000000000001 * one)) by (apply representable_small; lia).
  pose proof (nearest_double_mono (8640000000000001 * one * 1) 1 (Z.abs v * one) 1
                ltac:(lia) ltac:(lia) ltac:(lia) ltac:(nia)) as Hmono.
  rewrite (nearest_double_representable _ 1 ltac:(lia) Hrep) in Hmono.
  destruct (Z.ltb_spec MAX_VALUE (nearest_double (Z.abs v * one) 1)).
  - destruct (v * one <? 0); reflexivity.
  - unfold TimeClip. rewrite Z.abs_mul.
    assert (Z.abs (Z.sgn (v * one)) = 1).
    { destruct (Z.sgn_spec (v * one)) as [[? ->]|[[? ->]|[? ->]]]; try reflexivity. nia. }
    rewrite H1, Z.mul_1_l, Z.abs_eq by lia.
    destruct (Z.ltb_spec (8640000000000000 * one) (nearest_double (Z.abs v * one) 1));
      [reflexivity|lia].
Qed.

(** The guard of the loop, for whole numbers below 2^53: [i] is below the
    rounded quotient exactly when [i * b] is below [D]. *)
Lemma loop_guard (i D b : Z) :
  0 <= i <= 2 ^ 53 -> 0 < b < 2 ^ 53 -> 0 < D < 2 ^ 53 ->
  ltb (Finite (i * one)) (div (Finite (D * one)) (Finite (b * one))) = (i * b <? D).
Proof.
  intros Hi Hb HD. pose proof one_pos as H1. pose proof one_large as Hlarge.
  cbn [div]. destruct (Z.eqb_spec (b * one) 0) as [Hz|Hnz]; [nia|].
  rewrite Z.sgn_pos, Z.mul_1_l, Z.abs_eq by nia.
  destruct (Z.ltb_spec (i * b) D) as [Hlt|Hge].
  - destruct (round_rel (D * one * one) (b * one) ltac:(nia)) as [->|(n & -> & Hrel)].
    + assert (2 ^ 52 * b <= 2 ^ 106) by nia. nia.
    + reflexivity.
    + cbn [ltb]. apply Z.ltb_lt.
      destruct (Z_lt_ge_dec (i * one) n) as [|Hn]; [assumption|exfalso].
      assert (Hn' : n * (b * one) * 2 ^ 53 <= i * one * (b * one) * 2 ^ 53).
      { apply Z.mul_le_mono_nonneg_r; [lia|]. apply Z.mul_le_mono_nonneg_r; nia. }
      assert (Hc : D * (2 ^ 53 - 1) <= i * b * 2 ^ 53).
      { apply (Z.mul_le_mono_pos_r _ _ (one * one)); [nia|].
        etransitivity; [|etransitivity; [exact Hn'|]]; [|apply Z.eq_le_incl; ring].
        etransitivity; [|exact Hrel]. apply Z.eq_le_incl. ring. }
      nia.
  - assert (Hcross : D * one * one <= i * one * (b * one)).
    { replace (D * one * one) with (D * (one * one)) by ring.
      replace (i * one * (b * one)) with (i * b * (one * one)) by ring.
      apply Z.mul_le_mono_nonneg_r; nia. }
    pose proof (round_le (i * one) (D * one * one) (b * one) ltac:(nia)
                  ltac:(apply representable_small; lia) Hcross) as Hle.
    destruct (round (D * one * one) (b * one)) as [| | |n]; simpl in *; try tauto.
    apply Z.ltb_ge. exact Hle.
Qed.

End IntegerArithmetic.

(** ** generateIntervals on doubles and in exact arithmetic *)
Section IntervalsRefinement.
Import Number Utils.

Lemma exactLoop_fuel_stable (s e m : Z) (fuel extra : nat) :
  0 < m ->
  forall i, 0 <= i ->
    e - s - i * (m * 1000) <= Z.of_nat fuel * (m * 1000) ->
    exactLoop (fuel + extra) s e m i = exactLoop fuel s e m i.
Proof.
  intros Hm. induction fuel as [|fuel IH]; intros i Hi Hfuel; simpl in *.
  - destruct extra; simpl; [reflexivity|].
    destruct (Z.ltb_spec (i * (m * 1000)) (e - s)); [lia|reflexivity].
  - destruct (Z.ltb_spec (i * (m * 1000)) (e - s)); [|reflexivity].
    f_equal. apply IH; lia.
Qed.

(** Within the range where every step is exact, the loop of the code and
    the loop in exact arithmetic build the same intervals. *)
Lemma intervalLoop_exact (s e m : Z) (numberOfInterval : number) :
  - 8640000000000000 <= s -> e <= 8640000000000000 -> 0 < m ->
  m * 1000 < e - s -> e - s < 2 ^ 53 ->
  (forall i, 0 <= i <= 2 ^ 53 ->
     ltb (Finite (i * one)) numberOfInterval = (i * (m * 1000) <? e - s)) ->
  forall (fuel : nat) (i : Z),
    0 <= i -> i * (m * 1000) < e - s + m * 1000 ->
    e - s - i * (m * 1000) <= Z.of_nat fuel * (m * 1000) ->
    intervalLoop fuel (Date_of s) (Date_of e) (of_Z m) numberOfInterval (Finite (i * one))
    = Some (dates <$> exactLoop fuel s e m i).
Proof.
  intros Hs He Hm Hbig Hwin Hguard.
  assert (Hsv : Z.abs s <= 8640000000000000) by lia.
  assert (Hev : Z.abs e <= 8640000000000000) by lia.
  rewrite (of_Z_exact m) by lia.
  induction fuel as [|fuel IH]; intros i Hi Hnear Hfuel.
  - cbn [intervalLoop exactLoop]. rewrite Hguard by nia.
    destruct (Z.ltb_spec (i * (m * 1000)) (e - s)); [lia|reflexivity].
  - cbn [intervalLoop exactLoop]. rewrite Hguard by nia.
    destruct (Z.ltb_spec (i * (m * 1000)) (e - s)) as [Hin|Hout]; [|reflexivity].
    rewrite (of_Z_exact 1000), (of_Z_exact 1) by lia.
    rewrite (Date_of_valid s Hsv). cbn [getTime].
    rewrite (mul_exact_small i 1000) by lia.
    rewrite (mul_exact_small (i * 1000) m) by lia.
    rewrite (add_exact s (i * 1000 * m)) by lia.
    rewrite (new_Date_valid (s + i * 1000 * m)) by lia.
    rewrite (add_exact i 1) by lia.
    rewrite (mul_exact (i + 1) 1000 ((i + 1) * 125) 3) by (try (change (2 ^ 3) with 8); lia).
    rewrite (mul_exact ((i + 1) * 1000) m ((i + 1) * 125 * m) 3)
      by (try (change (2 ^ 3) with 8); nia).
    rewrite <- (Date_of_valid s Hsv).
    rewrite IH by lia.
    cbn [fmap option_fmap option_map list_fmap]. f_equal. f_equal.
    unfold dates at 1. cbn [startTime endTime]. f_equal.
    destruct (Z_le_gt_dec (s + (i + 1) * 1000 * m) 8640000000000000) as [Hval|Hbeyond].
    + rewrite (add_exact s ((i + 1) * 1000 * m)) by lia.
      rewrite (new_Date_valid (s + (i + 1) * 1000 * m)) by lia.
      unfold Date_lt. rewrite (Date_of_valid _ Hev) at 1.
      rewrite (Date_of_valid (s + (i + 1) * 1000 * m)) at 1 by lia.
      cbn [getTime]. rewrite ltb_integers.
      destruct (s + (i + 1) * 1000 * m <? e); reflexivity.
    + assert (Hnan : getTime (new_Date (add (Finite (s * one))
                                            (Finite ((i + 1) * 1000 * m * one)))) = NaN).
      { apply new_Date_beyond. cbn [add].
        apply round_ge; [lia|apply representable_small; lia|].
        pose proof one_pos. nia. }
      unfold Date_lt. rewrite Hnan. cbn [ltb].
      destruct (Z.ltb_spec (s + (i + 1) * 1000 * m) e); [lia|reflexivity].
Qed.

(** The quotient [numberOfInterval], for whole operands below 2^53. *)
Lemma numberOfInterval_finite (D b : Z) :
  0 < b < 2 ^ 53 -> 0 < D < 2 ^ 53 ->
  exists n, div (Finite (D * one)) (Finite (b * one)) = Finite n /\ 0 <= n <= D * one.
Proof.
  intros Hb HD. pose proof one_pos as H1.
  cbn [div]. destruct (Z.eqb_spec (b * one) 0) as [Hz|Hnz]; [nia|].
  rewrite Z.sgn_pos, Z.mul_1_l, Z.abs_eq by nia.
  assert (Hcross : D * one * one <= D * one * (b * one)).
  { apply Z.mul_le_mono_nonneg_l; nia. }
  pose proof (round_le (D * one) (D * one * one) (b * one) ltac:(nia)
                ltac:(apply representable_small; lia) Hcross) as Hle.
  pose proof (round_ge 0 (D * one * one) (b * one) ltac:(nia)
                ltac:(replace 0 with (0 * one) by ring; apply representable_small; lia)
                ltac:(nia)) as Hge.
  destruct (round (D * one * one) (b * one)) as [| | |n]; simpl in *; try tauto.
  exists n. split; [reflexivity|lia].
Qed.

Theorem generateIntervals_exact (s e m : Z) :
  - 8640000000000000 <= s -> e <= 8640000000000000 -> s < e -> e - s < 2 ^ 53 ->
  generateIntervals (Date_of s) (Date_of e) (of_Z m) = Some (dates <$> exactIntervals s e m).
Proof.
  intros Hs He Hse Hwin. pose proof one_pos as H1.
  assert (Hsv : Z.abs s <= 8640000000000000) by lia.
  assert (Hev : Z.abs e <= 8640000000000000) by lia.
  unfold generateIntervals, exactIntervals, gtb.
  rewrite (Date_of_valid s Hsv), (Date_of_valid e Hev). cbn [getTime].
  rewrite (sub_exact e s) by lia.
  rewrite <- (Date_of_valid s Hsv), <- (Date_of_valid e Hev).
  rewrite (of_Z_exact 0), (of_Z_exact 1000) by lia.
  destruct (Z.ltb_spec 0 m) as [Hm|Hm].
  - (* a positive maxInterval *)
    assert (Hpos : ltb (Finite (0 * one)) (of_Z m) = true).
    { pose proof (round_ge one (m * one) 1 ltac:(lia)
                    ltac:(replace one with (1 * one) by ring; apply representable_small; lia)
                    ltac:(nia)) as Hge.
      unfold of_Z. destruct (round (m * one) 1) as [| | |n]; simpl in *; try tauto.
      apply Z.ltb_lt. lia. }
    rewrite Hpos. cbn [andb].
    destruct (Z.ltb_spec (1000 * m) (e - s)) as [Hbig|Hsmall].
    + rewrite (of_Z_exact m) by lia.
      rewrite (mul_exact_small 1000 m), (mul_exact_small m 1000) by lia.
      rewrite ltb_integers.
      destruct (Z.ltb_spec (1000 * m) (e - s)); [|lia]. 
      destruct (numberOfInterval_finite (e - s) (m * 1000) ltac:(lia) ltac:(lia))
        as (n & Hn & Hnb).
      rewrite Hn. rewrite <- (of_Z_exact m) by lia.
      assert (Hguard : forall i, 0 <= i <= 2 ^ 53 ->
                 ltb (Finite (i * one)) (Finite n) = (i * (m * 1000) <? e - s)).
      { intros i Hi. rewrite <- Hn. apply loop_guard; lia. }
      assert (Hfuel : e - s - 0 * (m * 1000)
                      <= Z.of_nat (intervalFuel (Finite n)) * (m * 1000)).
      { cbn [intervalFuel].
        assert (0 <= n / one) by (apply Z.div_pos; lia).
        rewrite Z2Nat.id by lia.
        assert (Hk : n / one + 1 <= 2 ^ 53).
        { assert (n / one <= e - s); [|lia]. apply Z.div_le_upper_bound; lia. }
        pose proof (Hguard (n / one + 1) ltac:(lia)) as Hg.
        cbn [ltb] in Hg.
        pose proof (Z.mul_succ_div_gt n one H1) as Hgt.
        destruct (Z.ltb_spec ((n / one + 1) * one) n); [lia|].
        symmetry in Hg. apply Z.ltb_ge in Hg. lia. }
      rewrite (intervalLoop_exact s e m (Finite n) Hs He Hm ltac:(lia) Hwin Hguard
                 (intervalFuel (Finite n)) 0 ltac:(lia) ltac:(lia) Hfuel).
      f_equal. f_equal.
      assert (Hexact : e - s - 0 * (m * 1000) <= Z.of_nat (exactFuel s e m) * (m * 1000)).
      { unfold exactFuel.
        assert (0 <= (e - s) / (m * 1000)) by (apply Z.div_pos; lia).
        rewrite Z2Nat.id by lia.
        pose proof (Z.mul_succ_div_gt (e - s) (m * 1000) ltac:(lia)). lia. }
      rewrite <- (exactLoop_fuel_stable s e m (intervalFuel (Finite n)) (exactFuel s e m) Hm 0
                    ltac:(lia) Hfuel).
      rewrite Nat.add_comm.
      apply (exactLoop_fuel_stable s e m (exactFuel s e m) (intervalFuel (Finite n)) Hm 0
               ltac:(lia) Hexact).
    + (* the window is not longer than maxInterval *)
      assert (Hno : ltb (mul (Finite (1000 * one)) (of_Z m)) (Finite ((e - s) * one)) = false).
      { set (m' := Z.min m (2 ^ 53)).
        pose proof (round_ge (m' * one) (m * one) 1 ltac:(lia)
                      ltac:(apply representable_small; lia) ltac:(nia)) as Hge.
        unfold of_Z. destruct (round (m * one) 1) as [| | |n]; simpl in Hge; try (exfalso; exact Hge).
        - cbn [mul]. destruct (Z.eqb_spec (1000 * one) 0); [lia|].
          destruct (Z.ltb_spec (1000 * one) 0); [lia|]. reflexivity.
        - cbn [mul].
          assert (Hcross : (e - s) * one * one <= 1000 * one * n).
          { transitivity (1000 * one * (m' * one)).
            - replace (1000 * one * (m' * one)) with (1000 * m' * one * one) by ring.
              apply Z.mul_le_mono_nonneg_r; [lia|]. apply Z.mul_le_mono_nonneg_r; lia.
            - apply Z.mul_le_mono_nonneg_l; lia. }
          pose proof (round_ge ((e - s) * one) (1000 * one * n) one H1
                        ltac:(apply representable_small; lia) Hcross) as Hb.
          destruct (round (1000 * one * n) one) as [| | |nb]; simpl in Hb; try tauto.
          cbn [ltb]. apply Z.ltb_ge. exact Hb. }
      rewrite Hno. reflexivity.
  - (* maxInterval is not positive *)
    assert (Hneg : ltb (Finite (0 * one)) (of_Z m) = false).
    { pose proof (round_le 0 (m * one) 1 ltac:(lia)
                    ltac:(replace 0 with (0 * one) by ring; apply representable_small; lia)
                    ltac:(nia)) as Hle.
      unfold of_Z. destruct (round (m * one) 1) as [| | |n]; simpl in *; try tauto.
      apply Z.ltb_ge. lia. }
    rewrite Hneg. reflexivity.
Qed.

End IntervalsRefinement.

(** ** generateIntervals returns *)
Section IntervalsTotal.
Import Number Utils.

(** The loop ends whenever [numberOfInterval] is at most 2^53: up to there
    [i += 1] is exact, so [i] reaches it. *)
Lemma intervalLoop_returns (startT endT : Date) (maxInterval : number) (n : Z) :
  n <= 2 ^ 53 * one ->
  forall (fuel : nat) (k : Z), 0 <= k -> n / one + 1 - k <= Z.of_nat fuel ->
    exists l,
      intervalLoop fuel startT endT maxInterval (Finite n) (Finite (k * one)) = Some l.
Proof.
  intros Hn. pose proof one_pos as H1.
  induction fuel as [|fuel IH]; intros k Hk Hfuel; cbn [intervalLoop ltb].
  - destruct (Z.ltb_spec (k * one) n) as [Hlt|Hge]; [|eauto].
    assert (k <= n / one) by (apply Z.div_le_lower_bound; lia). lia.
  - destruct (Z.ltb_spec (k * one) n) as [Hlt|Hge]; [|eauto].
    rewrite (of_Z_exact 1) by lia. rewrite (add_exact k 1) by nia.
    destruct (IH (k + 1) ltac:(lia) ltac:(lia)) as [l ->].
    cbn [fmap option_fmap option_map]. eauto.
Qed.

Lemma round_zero (q : Z) : 0 < q -> round 0 q = Finite 0.
Proof.
  intros Hq. change 0 with (0 * q) at 1. apply round_exact; [exact Hq|].
  replace (Z.abs 0) with (0 * one) by reflexivity. apply representable_small. lia.
Qed.

Lemma time_value (v : Z) :
  getTime (Date_of v) = Finite (v * one) /\ Z.abs v <= 8640000000000000
  \/ getTime (Date_of v) = NaN.
Proof.
  destruct (Z_le_gt_dec (Z.abs v) 8640000000000000) as [Hv|Hv].
  - left. rewrite (Date_of_valid v Hv). auto.
  - right. apply Date_of_invalid. lia.
Qed.

(** What the guard of [generateIntervals] knows when it holds. *)
Lemma guard_holds (s e m : Z) :
  gtb (of_Z m) (of_Z 0)
  && gtb (sub (getTime (Date_of e)) (getTime (Date_of s))) (mul (of_Z 1000) (of_Z m)) = true ->
  s < e /\ Z.abs s <= 8640000000000000 /\ Z.abs e <= 8640000000000000 /\
  exists nm nb d,
    of_Z m = Finite nm /\
    mul (Finite (1000 * one)) (Finite nm) = Finite nb /\
    sub (Finite (e * one)) (Finite (s * one)) = Finite d /\
    1000 * one <= nb /\ nb < d /\ d <= 2 ^ 54 * one.
Proof.
  pose proof one_pos as H1. unfold gtb.
  rewrite (of_Z_exact 0), (of_Z_exact 1000) by lia.
  intros Hcond. apply andb_true_iff in Hcond as [Hm1 Hm2].
  assert (Hm : 1 <= m).
  { destruct (Z_le_gt_dec m 0) as [Hle|]; [exfalso|lia].
    pose proof (round_le 0 (m * one) 1 ltac:(lia)
                  ltac:(replace 0 with (0 * one) by ring; apply representable_small; lia)
                  ltac:(nia)) as Hb.
    unfold of_Z in Hm1. destruct (round (m * one) 1) as [| | |n]; cbn [ltb at_most] in *;
      try discriminate; try (exfalso; exact Hb).
    apply Z.ltb_lt in Hm1. lia. }
  pose proof (round_ge one (m * one) 1 ltac:(lia)
                ltac:(replace one with (1 * one) by ring; apply representable_small; lia)
                ltac:(nia)) as Hmf.
  fold (of_Z m) in Hmf.
  destruct (of_Z m) as [| | |nm]; cbn [at_least] in Hmf; try (exfalso; exact Hmf).
  { exfalso. cbn [mul] in Hm2.
    destruct (Z.eqb_spec (1000 * one) 0); [lia|].
    destruct (Z.ltb_spec (1000 * one) 0); [lia|]. cbn [infinity ltb] in Hm2. discriminate. }
  pose proof (round_ge (1000 * one) (1000 * one * nm) one H1
                ltac:(apply representable_small; lia)
                ltac:(apply Z.mul_le_mono_nonneg_l; lia)) as Hbq.
  cbn [mul] in Hm2 |- *.
  destruct (round (1000 * one * nm) one) as [| | |nb] eqn:Hbround; cbn [at_least] in Hbq;
    try (exfalso; exact Hbq); [cbn [ltb] in Hm2; discriminate|].
  destruct (time_value s) as [[Hs Hsv]|Hs], (time_value e) as [[He Hev]|He];
    rewrite Hs, He in Hm2;
    try (exfalso; cbn [sub add opp ltb] in Hm2; discriminate).
  assert (Hrep : representable (2 ^ 54 * one)).
  { replace (2 ^ 54 * one) with (1 * 2 ^ 54 * one) by ring.
    apply representable_integer; lia. }
  assert (Hdiff : sub (Finite (e * one)) (Finite (s * one)) = round ((e - s) * one * 1) 1).
  { unfold sub. cbn [opp add]. f_equal. ring. }
  rewrite Hdiff in Hm2 |- *.
  pose proof (round_le (2 ^ 54 * one) ((e - s) * one * 1) 1 ltac:(lia) Hrep ltac:(nia)) as Hd.
  destruct (round ((e - s) * one * 1) 1) as [| | |d] eqn:Hround; cbn [at_most] in Hd;
    try (exfalso; exact Hd); [cbn [ltb] in Hm2; discriminate|].
  cbn [ltb] in Hm2. apply Z.ltb_lt in Hm2.
  split.
  - destruct (Z_lt_ge_dec s e) as [|Hes]; [assumption|exfalso].
    pose proof (round_le 0 ((e - s) * one * 1) 1 ltac:(lia)
                  ltac:(replace 0 with (0 * one) by ring; apply representable_small; lia)
                  ltac:(nia)) as Hneg.
    rewrite Hround in Hneg. cbn [at_most] in Hneg. lia.
  - split; [exact Hsv|]. split; [exact Hev|].
    exists nm, nb, d. repeat split; try reflexivity; try assumption; lia.
Qed.

End IntervalsTotal.

(** ** Intervals: shape of a split window *)
Section Intervals.
Import Number Utils.

Lemma exactLoop_chain (s e m : Z) (fuel : nat) :
  0 < m ->
  forall i, 0 <= i -> i * (m * 1000) < e - s ->
    e - s - i * (m * 1000) <= Z.of_nat fuel * (m * 1000) ->
    let l := exactLoop fuel s e m i in
    l <> [] /\ chained (s + i * (m * 1000)) l e
    /\ Forall (fun iv => s <= startTime iv /\ endTime iv <= e /\ 0 < span iv <= 1000 * m) l.
Proof.
  intros Hm. induction fuel as [|fuel IH]; intros i Hi Hlt Hfuel; simpl in *.
  - lia.
  - destruct (Z.ltb_spec (i * (m * 1000)) (e - s)) as [_|]; [|lia].
    assert (Hstart : 0 <= i * 1000 * m) by nia.
    split; [discriminate|].
    destruct (Z.ltb_spec (s + (i + 1) * 1000 * m) e) as [Hin|Hout].
    + destruct (IH (i + 1)) as (_ & Hc & Hf); try lia.
      split.
      * simpl. split; [lia|].
        replace (s + (i + 1) * 1000 * m) with (s + (i + 1) * (m * 1000)) by lia.
        exact Hc.
      * constructor; [unfold span; simpl; lia | exact Hf].
    + assert (Hnil : exactLoop fuel s e m (i + 1) = []).
      { destruct fuel; simpl; [reflexivity|].
        destruct (Z.ltb_spec ((i + 1) * (m * 1000)) (e - s)); [lia|reflexivity]. }
      rewrite Hnil. simpl. split.
      * split; [lia|reflexivity].
      * constructor; [unfold span; simpl; lia | constructor].
Qed.

Lemma exactFuel_enough (s e m : Z) :
  0 < m -> s < e ->
  e - s - 0 * (m * 1000) <= Z.of_nat (exactFuel s e m) * (m * 1000).
Proof.
  intros Hm Hse. unfold exactFuel.
  assert (0 <= (e - s) / (m * 1000)) by (apply Z.div_pos; lia).
  rewrite Z2Nat.id by lia.
  pose proof (Z.mod_pos_bound (e - s) (m * 1000) ltac:(lia)).
  pose proof (Z.div_mod (e - s) (m * 1000) ltac:(lia)).
  nia.
Qed.

Lemma exactIntervals_chain (s e m : Z) :
  s < e -> 0 < m ->
  let l := exactIntervals s e m in
  l <> [] /\ chained s l e
  /\ Forall (fun iv => s <= startTime iv /\ endTime iv <= e /\ 0 < span iv <= 1000 * m) l.
Proof.
  intros Hse Hm l. subst l. unfold exactIntervals.
  destruct (Z.ltb_spec 0 m) as [_|]; [|lia]. simpl.
  destruct (Z.ltb_spec (1000 * m) (e - s)) as [Hbig|Hsmall].
  - pose proof (exactLoop_chain s e m (exactFuel s e m) Hm 0
                  ltac:(lia) ltac:(lia) (exactFuel_enough s e m Hm Hse)) as H.
    replace (s + 0 * (m * 1000)) with s in H by lia. exact H.
  - split; [discriminate|]. split; [simpl; auto|].
    constructor; [unfold span; simpl; lia|constructor].
Qed.

Lemma chained_head (a b : Z) (l : list (Interval Z)) :
  l <> [] -> chained a l b -> exists iv, head l = Some iv /\ startTime iv = a.
Proof. destruct l as [|iv l]; [congruence|]. intros _ [H _]. exists iv. auto. Qed.

Lemma chained_last (l : list (Interval Z)) :
  forall a b, l <> [] -> chained a l b -> exists iv, last l = Some iv /\ endTime iv = b.
Proof.
  induction l as [|iv l IH]; intros a b Hne Hc; [congruence|].
  destruct Hc as [_ Hc]. destruct l as [|iv' l].
  - exists iv. simpl in *. auto.
  - destruct (IH (endTime iv) b) as (x & Hx & Hb); [discriminate|exact Hc|].
    exists x. split; [exact Hx|exact Hb].
Qed.

Lemma chained_consecutive (l : list (Interval Z)) :
  forall a b, chained a l b ->
  forall (k : nat) iv1 iv2, l !! k = Some iv1 -> l !! S k = Some iv2 ->
    endTime iv1 = startTime iv2.
Proof.
  induction l as [|iv l IH]; intros a b Hc k iv1 iv2 H1 H2; [discriminate|].
  destruct Hc as [_ Hc]. destruct k as [|k]; simpl in *.
  - destruct l as [|iv' l]; [discriminate|]. simpl in *.
    destruct Hc as [Hs _]. congruence.
  - eapply IH; eauto.
Qed.

End Intervals.

Section IntervalsSpec.
Import Number Utils.




End IntervalsSpec.

Section OutgoingFileName.
Context {L : Type} `{PathLib}.

(** Once the session is open and takes the file, [handleFile] has put the
    file under the remote folder with the name it computed, whether or not
    the session then ends well. *)
Lemma handleFile_uploads (remote : NorthSFTP.Remote) (c : NorthSFTP.Connector)
    (nowDate filePath : string) (w : NorthSFTP.World L) :
  NorthSFTP.options_error remote = None ->
  NorthSFTP.connect_error remote = None ->
  NorthSFTP.put_error remote = None ->
  NorthSFTP.uploads (snd (NorthSFTP.handleFile remote c nowDate filePath w))
  = NorthSFTP.uploads w ++
    [(filePath, NorthSFTP.remoteFolder (NorthSFTP.settings c) +:+ "/" +:+
                NorthSFTP.resultingFilename c nowDate filePath)].
Proof.
  intros Ho Hc Hp.
  unfold NorthSFTP.handleFile, NorthSFTP.sendToSftpServer, bind,
    NorthSFTP.createConnectionOptions, NorthSFTP.client_connect, NorthSFTP.client_put,
    NorthSFTP.client_end, throw, ret, modify.
  rewrite Ho, Hc. simpl. rewrite Hp. simpl.
  destruct (NorthSFTP.end_error remote); reflexivity.
Qed.

(** C10: for a file path whose base name contains a dash, [handleFile] of
    NorthSFTP and [generateFormDataBodyFromFile] compute the outgoing name
    from the base name cut at its last dash, keeping the extension:
    [generateFormDataBodyFromFile] gives that name to the form, and
    [handleFile], once the session is open and takes the file, puts the
    file under the remote folder with that name wrapped in the configured
    prefix and suffix (which are empty when unset). For a base name without
    a dash both use the base name without its final character. *)
Theorem outgoing_name_cut_at_last_dash (remote : NorthSFTP.Remote) (c : NorthSFTP.Connector)
    (nowDate filePath : string) (w : NorthSFTP.World L) :
  NorthSFTP.options_error remote = None ->
  NorthSFTP.connect_error remote = None ->
  NorthSFTP.put_error remote = None ->
  let p := parse filePath in
  let prefix_ :=
    Js.replace (Js.replace (Js.or_else (NorthSFTP.prefix (NorthSFTP.settings c)) EmptyString)
                           "@CurrentDate" nowDate)
               "@ConnectorName" (NorthSFTP.connector_name c) in
  let suffix_ :=
    Js.replace (Js.replace (Js.or_else (NorthSFTP.suffix (NorthSFTP.settings c)) EmptyString)
                           "@CurrentDate" nowDate)
               "@ConnectorName" (NorthSFTP.connector_name c) in
  let folder := NorthSFTP.remoteFolder (NorthSFTP.settings c) in
  let sent := NorthSFTP.uploads (snd (NorthSFTP.handleFile remote c nowDate filePath w)) in
  (Js.contains "-" (name p) = true ->
     exists pre post,
       name p = pre +:+ String "-" post /\ Js.contains "-" post = false /\
       Utils.generateFormDataBodyFromFile filePath = pre +:+ ext p /\
       sent = NorthSFTP.uploads w ++
              [(filePath, folder +:+ "/" +:+ prefix_ +:+ pre +:+ suffix_ +:+ ext p)]) /\
  (Js.contains "-" (name p) = false ->
     forall r ch, name p = r +:+ String ch EmptyString ->
       Utils.generateFormDataBodyFromFile filePath = r +:+ ext p /\
       sent = NorthSFTP.uploads w ++
              [(filePath, folder +:+ "/" +:+ prefix_ +:+ r +:+ suffix_ +:+ ext p)]) /\
  (Js.truthy (NorthSFTP.prefix (NorthSFTP.settings c)) = false ->
   Js.truthy (NorthSFTP.suffix (NorthSFTP.settings c)) = false ->
     sent = NorthSFTP.uploads w ++
            [(filePath, folder +:+ "/" +:+ Utils.generateFormDataBodyFromFile filePath)]).
Proof.
  intros Ho Hc Hp p prefix_ suffix_ folder sent.
  assert (Hsent : sent = NorthSFTP.uploads w ++
                         [(filePath, folder +:+ "/" +:+
                                     NorthSFTP.resultingFilename c nowDate filePath)]).
  { apply handleFile_uploads; assumption. }
  rewrite Hsent. clear Hsent sent. split; [|split].
  - intros Hdash. destruct (contains_split _ _ Hdash) as (pre & post & Hname & Hpost).
    exists pre, post. split; [exact Hname|]. split; [exact Hpost|].
    unfold Utils.generateFormDataBodyFromFile, NorthSFTP.resultingFilename.
    fold p. fold prefix_. fold suffix_.
    change (Js.slice (name p) 0 (Js.lastIndexOf (name p) "-")) with (Utils.stem (name p)).
    rewrite Hname, stem_dash by exact Hpost. split; reflexivity.
  - intros Hno r ch Hname.
    unfold Utils.generateFormDataBodyFromFile, NorthSFTP.resultingFilename.
    fold p. fold prefix_. fold suffix_.
    change (Js.slice (name p) 0 (Js.lastIndexOf (name p) "-")) with (Utils.stem (name p)).
    rewrite Hname in Hno |- *. rewrite stem_no_dash by exact Hno. split; reflexivity.
  - intros Hpre Hsuf.
    unfold Utils.generateFormDataBodyFromFile, NorthSFTP.resultingFilename, Utils.stem.
    fold p.
    assert (Hor : forall o, Js.truthy o = false -> Js.or_else o EmptyString = EmptyString).
    { intros [[|a s]|]; simpl; intros; congruence. }
    rewrite (Hor _ Hpre), (Hor _ Hsuf). reflexivity.
Qed.

End OutgoingFileName.

Lemma outgoing_name_cut_at_last_dash_witness :
  NorthSFTP.uploads
    (snd (@NorthSFTP.handleFile bool Examples.remote_with_upload {| parse := posix_parse |}
            Examples.sftp_unnamed "2020_01_01_00_00_00_000"
            "/cache/data-2020-1577836800000.csv" Examples.idle_world))
  = [("/cache/data-2020-1577836800000.csv", "/upload/data-2020.csv")]
  /\ (exists pre post,
        name (posix_parse "/cache/data-2020-1577836800000.csv") = pre +:+ String "-" post
        /\ Js.contains "-" post = false
        /\ @Utils.generateFormDataBodyFromFile {| parse := posix_parse |}
             "/cache/data-2020-1577836800000.csv" = pre +:+ ".csv")
  /\ @Utils.generateFormDataBodyFromFile {| parse := posix_parse |} "/cache/report.csv"
     = "repor.csv".
Proof.
  pose proof (@outgoing_name_cut_at_last_dash bool {| parse := posix_parse |}
                Examples.remote_with_upload Examples.sftp_unnamed
                "2020_01_01_00_00_00_000" "/cache/data-2020-1577836800000.csv"
                Examples.idle_world eq_refl eq_refl eq_refl)
    as (Hdash & _ & Hsame).
  pose proof (@outgoing_name_cut_at_last_dash bool {| parse := posix_parse |}
                Examples.remote_with_upload Examples.sftp_unnamed
                "2020_01_01_00_00_00_000" "/cache/report.csv"
                Examples.idle_world eq_refl eq_refl eq_refl)
    as (_ & Hno & _).
  split; [|split].
  - rewrite Hsame by reflexivity. reflexivity.
  - destruct (Hdash eq_refl) as (pre & post & Hname & Hpost & Hgen & _).
    exists pre, post. auto.
  - apply (Hno eq_refl "repor" "t"%char eq_refl).
Defined.

(** ** The IP filter *)
Section IpFilterAdmission.
Import IpFilter.
Context `{Micromatch} {D : Type}.

Lemma isMatch_iff (str : string) (patterns : list string) :
  isMatch str patterns = true <-> exists pattern, pattern ∈ patterns /\ matches str pattern = true.
Proof.
  unfold isMatch. rewrite existsb_exists. split.
  - intros (x & Hin & Hm). exists x. split; [apply list_elem_of_In, Hin|exact Hm].
  - intros (x & Hin & Hm). exists x. split; [apply list_elem_of_In, Hin|exact Hm].
Qed.

(** C9 (defect): the middleware calls the downstream handler exactly when
    the request's address matches one of the configured patterns, and a
    request from any other address never reaches it. Such a request is not
    rejected with status 401, though: the rejecting branch first evaluates
    [logger], which the module neither declares nor imports, so as the
    module stands the request ends in a [ReferenceError], nothing is
    logged and [ctx.throw(401, ..)] is never reached. Only in a process
    whose global scope binds [logger] is the 401 thrown; its message is
    then the last string given to [ctx.throw]. *)
Theorem ipFilter_rejection_throws_reference_error (logger_bound : bool) (next : M D unit)
    (filter : list string) (ctx : Ctx) (t : Trace D) :
  let r := fst (ipFilter logger_bound next filter ctx t) in
  let t' := snd (ipFilter logger_bound next filter ctx t) in
  let matching := exists pattern, pattern ∈ filter /\ matches (ip (request ctx)) pattern = true in
  (nextCalls t' = S (nextCalls t) <-> matching) /\
  (nextCalls t' = nextCalls t <-> ~ matching) /\
  (matching -> r = fst (next (downstream t)) /\ downstream t' = snd (next (downstream t))) /\
  (~ matching ->
     downstream t' = downstream t /\
     (logger_bound = false ->
        r = Throw (ReferenceError "logger is not defined") /\ t' = t /\
        forall message, r <> Throw (HttpError 401 message)) /\
     (logger_bound = true ->
        r = Throw (HttpError 401 (ip (request ctx) +:+ " is not authorized")))).
Proof.
  intros r t' matching. subst r t'.
  pose proof (isMatch_iff (ip (request ctx)) filter) as Hiff. fold matching in Hiff.
  unfold ipFilter. destruct (isMatch (ip (request ctx)) filter) eqn:Hm.
  - assert (Hyes : matching) by (apply Hiff; reflexivity).
    unfold call_next. destruct (next (downstream t)) as [r d]. simpl.
    split; [tauto|]. split; [split; [intros Heq; exfalso; lia|tauto]|].
    split; [auto|tauto].
  - assert (Hno : ~ matching) by (intros Hyes; apply Hiff in Hyes; discriminate).
    unfold bind, logger_error, ctx_throw. destruct logger_bound; simpl.
    + split; [split; [intros Heq; exfalso; lia|tauto]|]. split; [tauto|].
      split; [tauto|]. intros _. split; [reflexivity|].
      split; [discriminate|reflexivity].
    + split; [split; [intros Heq; exfalso; lia|tauto]|]. split; [tauto|].
      split; [tauto|]. intros _. split; [reflexivity|].
      split; [|discriminate]. intros _. split; [reflexivity|].
      split; [destruct t; reflexivity|discriminate].
Qed.

End IpFilterAdmission.

Lemma ipFilter_rejection_throws_reference_error_witness :
  let next : M nat unit := fun d => (Ret tt, S d) in
  let t0 := {| IpFilter.downstream := 0%nat; IpFilter.nextCalls := 0; IpFilter.logged := [] |} in
  let filter := ["127.0.0.1"; "192.168.*"] in
  (IpFilter.nextCalls
     (snd (@IpFilter.ipFilter Examples.star_globs nat false next filter
             {| IpFilter.request := {| IpFilter.ip := "192.168.1.7" |} |} t0)) = 1%nat)
  /\ (fst (@IpFilter.ipFilter Examples.star_globs nat false next filter
             {| IpFilter.request := {| IpFilter.ip := "10.0.0.1" |} |} t0)
      = Throw (ReferenceError "logger is not defined"))
  /\ (fst (@IpFilter.ipFilter Examples.star_globs nat true next filter
             {| IpFilter.request := {| IpFilter.ip := "10.0.0.1" |} |} t0)
      = Throw (HttpError 401 "10.0.0.1 is not authorized")).
Proof.
  intros next t0 filter.
  assert (Hno : ~ exists pattern, pattern ∈ filter
                  /\ @IpFilter.matches Examples.star_globs "10.0.0.1" pattern = true).
  { intros (pattern & Hin & Hm).
    apply list_elem_of_In in Hin. simpl in Hin.
    destruct Hin as [<-|[<-|[]]]; vm_compute in Hm; discriminate. }
  split; [|split].
  - apply (@ipFilter_rejection_throws_reference_error Examples.star_globs nat false next filter
             {| IpFilter.request := {| IpFilter.ip := "192.168.1.7" |} |} t0).
    exists "192.168.*". split; [set_solver|reflexivity].
  - apply (@ipFilter_rejection_throws_reference_error Examples.star_globs nat false next filter
             {| IpFilter.request := {| IpFilter.ip := "10.0.0.1" |} |} t0);
      [exact Hno|reflexivity].
  - apply (@ipFilter_rejection_throws_reference_error Examples.star_globs nat true next filter
             {| IpFilter.request := {| IpFilter.ip := "10.0.0.1" |} |} t0);
      [exact Hno|reflexivity].
Defined.

(** ** The SFTP connection test *)
Section SftpProbe.
Import NorthSFTP.
Context {L : Type}.

Ltac run_probe :=
  unfold testConnection, try_catch, bind, createConnectionOptions, client_connect,
    client_exists, client_end, throw, ret, modify; simpl.

(** [testConnection] never writes the connector's lifecycle state. *)
Lemma testConnection_keeps_lifecycle (remote : Remote) (c : Connector) (w : World L) :
  lifecycle (snd (testConnection remote c w)) = lifecycle w.
Proof.
  run_probe.
  destruct (options_error remote); simpl; [reflexivity|].
  destruct (connect_error remote); simpl; [reflexivity|].
  destruct (exists_result remote (remoteFolder (settings c))) as [[]|]; simpl;
    destruct (end_error remote); simpl; reflexivity.
Qed.

(** When every request of the probe is answered, the session is closed
    again and the verdict follows the kind of the remote target. *)
Lemma testConnection_answered (remote : Remote) (c : Connector) (w : World L) (found : Exists) :
  options_error remote = None -> connect_error remote = None -> end_error remote = None ->
  exists_result remote (remoteFolder (settings c)) = Ret found ->
  openClients (snd (testConnection remote c w)) = openClients w
  /\ (fst (testConnection remote c w) = Ret tt <-> found = IsDir).
Proof.
  intros Ho Hc He Hx. run_probe. rewrite Ho, Hc. simpl. rewrite Hx, He. simpl.
  destruct found; simpl; split; auto; split; intros; congruence.
Qed.

(** [testConnection] succeeds exactly when the options are built, the
    session opens, the remote target is a directory and the session ends. *)
Lemma testConnection_succeeds_iff (remote : Remote) (c : Connector) (w : World L) :
  fst (testConnection remote c w) = Ret tt <->
  options_error remote = None /\ connect_error remote = None /\
  exists_result remote (remoteFolder (settings c)) = Ret IsDir /\ end_error remote = None.
Proof.
  run_probe.
  destruct (options_error remote); simpl; [split; [discriminate|intros (? & _); discriminate]|].
  destruct (connect_error remote); simpl;
    [split; [discriminate|intros (_ & ? & _); discriminate]|].
  destruct (exists_result remote (remoteFolder (settings c))) as [[]|]; simpl;
    destruct (end_error remote); simpl;
    (split; [try discriminate; auto|intros (_ & _ & ? & ?); try discriminate; auto]).
Qed.

(** C6 (defect): the probe session is closed by [client.end()] only on the
    path where [client.exists] answers. When the session opens and the
    existence check itself fails, [testConnection] throws the access error
    and the session it opened stays open. *)
Theorem testConnection_failed_probe_stays_open (remote : Remote) (c : Connector)
    (w : World L) (e : Exn) :
  options_error remote = None ->
  connect_error remote = None ->
  exists_result remote (remoteFolder (settings c)) = Throw e ->
  fst (testConnection remote c w) =
    Throw (Error ("Access error on " +:+ dq +:+ remoteFolder (settings c) +:+ dq +:+
                  " on " +:+ dq +:+ host (settings c) +:+ ":" +:+
                  pretty (port (settings c)) +:+ dq +:+ ": " +:+ message_of e))
  /\ openClients (snd (testConnection remote c w)) = S (openClients w)
  /\ lifecycle (snd (testConnection remote c w)) = lifecycle w.
Proof.
  intros Ho Hc Hx. run_probe. rewrite Ho, Hc. simpl. rewrite Hx. simpl. auto.
Qed.

End SftpProbe.

Lemma testConnection_failed_probe_stays_open_witness :
  NorthSFTP.openClients
    (snd (NorthSFTP.testConnection Examples.remote_failing_probe Examples.sftp_unnamed
            Examples.idle_world)) = 1%nat
  /\ NorthSFTP.openClients
       (snd (NorthSFTP.testConnection Examples.remote_with_upload Examples.sftp_unnamed
               Examples.idle_world)) = 0%nat.
Proof.
  split.
  - apply (testConnection_failed_probe_stays_open Examples.remote_failing_probe
             Examples.sftp_unnamed Examples.idle_world (Error "Permission denied"));
      reflexivity.
  - reflexivity.
Defined.

(** ** MongoDB: the first batch after a connection *)
Section MongoFirstBatch.
Import MongoDB.
Context {D : Type} `{Formatter D} `{JsonArray} (driver : Driver).

Lemma forEach_entry_renders (entries : list (Value D)) :
  (forall v, v ∈ entries -> render (pointId v) (data v) <> NoMatch) ->
  forall l, exists l', forEach_entry entries l = Ret l'.
Proof.
  induction entries as [|v entries IH]; intros Hok l; simpl.
  - eauto.
  - pose proof (Hok v ltac:(set_solver)) as Hv.
    destruct (render (pointId v) (data v)); [congruence| |];
      apply IH; intros v' Hin; apply Hok; set_solver.
Qed.

Lemma stored_set_status (n : Z) (p : string) (st : State) (c : string) :
  stored (set_status n p st) c = stored st c.
Proof. reflexivity. Qed.

Lemma ensureCollectionExists_stores_nothing (collection : string) (st : State) (names : list string) :
  mongoClient st = true -> listCollections st = Some names ->
  exists st', ensureCollectionExists driver collection st = (Ret tt, st')
    /\ (forall c, stored st' c = stored st c)
    /\ valuesSent st' = valuesSent st /\ collectionChecked st' = true.
Proof.
  intros Hclient Hlist.
  unfold ensureCollectionExists, bind, get, modify, ret. rewrite Hlist.
  destruct (bool_decide (collection ∈ names)); simpl.
  - eexists. split; [reflexivity|]. auto.
  - unfold mongo_createCollection. rewrite Hclient. simpl.
    destruct (createCollection_error driver collection); simpl.
    + eexists. split; [reflexivity|]. auto.
    + destruct (documents st !! collection) eqn:Hdoc; simpl.
      * eexists. split; [reflexivity|]. auto.
      * eexists. split; [reflexivity|]. split; [|auto].
        intros c. unfold stored. simpl.
        destruct (decide (collection = c)) as [->|Hne].
        -- rewrite lookup_insert_eq, Hdoc. reflexivity.
        -- rewrite lookup_insert_ne by exact Hne. reflexivity.
Qed.

(** C4 (defect): while [collectionChecked] is not set, as it is right
    after a connection, [makeRequest] only makes sure that the collection
    exists (or does nothing when [createCollection] is off) and takes the
    inserting branch on later calls only. [handleValues] then returns the
    number of values and counts them as sent although none of them was
    stored. *)
Theorem handleValues_first_batch_not_stored (values : list (Value D)) (st : State)
    (names : list string) :
  collectionChecked st = false ->
  mongoClient st = true ->
  listCollections st = Some names ->
  values <> [] ->
  (forall v, v ∈ values -> render (pointId v) (data v) <> NoMatch) ->
  exists st',
    handleValues driver values st = (Ret (length values), st')
    /\ (forall c, stored st' c = stored st c)
    /\ valuesSent st' = valuesSent st + Z.of_nat (length values).
Proof.
  intros Hchk Hclient Hlist Hne Hrender.
  destruct (forEach_entry_renders values Hrender
              {| body := EmptyString; collectionValue_ := EmptyString;
                 indexFieldsValue_ := EmptyString |}) as [l Hl].
  assert (Hlast : exists v, last values = Some v).
  { destruct (last values) eqn:E; [eauto|]. apply last_None in E. congruence. }
  destruct Hlast as [v Hv].
  unfold handleValues, makeRequest, try_catch, bind, get, ret. rewrite Hl, Hchk. simpl.
  destruct (createCollection st) eqn:Hcreate.
  - destruct (ensureCollectionExists_stores_nothing (collectionValue_ l) st names Hclient Hlist)
      as (st1 & Hrun & Hstored & Hsent & _).
    rewrite Hrun, Hv. simpl. eexists. split; [reflexivity|].
    split; [intros c; rewrite stored_set_status; apply Hstored|].
    simpl. rewrite Hsent. reflexivity.
  - simpl. rewrite Hv. simpl. eexists. split; [reflexivity|]. auto.
Qed.

(** The sibling path: once [collectionChecked] is set, a batch whose body
    is parsed and whose insertion the driver accepts is stored in its
    collection. *)
Lemma handleValues_later_batch_stored (values : list (Value D)) (st : State) (l : Locals)
    (docs : list string) :
  collectionChecked st = true ->
  mongoClient st = true ->
  values <> [] ->
  forEach_entry values {| body := EmptyString; collectionValue_ := EmptyString;
                          indexFieldsValue_ := EmptyString |} = Ret l ->
  parse_array ("[" +:+ body l +:+ "]") = Ret docs ->
  insertMany_rejects driver (collectionValue_ l) docs = false ->
  exists st',
    handleValues driver values st = (Ret (length values), st')
    /\ stored st' (collectionValue_ l) = stored st (collectionValue_ l) ++ docs.
Proof.
  intros Hchk Hclient Hne Hl Hparse Hins.
  assert (Hlast : exists v, last values = Some v).
  { destruct (last values) eqn:E; [eauto|]. apply last_None in E. congruence. }
  destruct Hlast as [v Hv].
  unfold handleValues, makeRequest, try_catch, bind, get, ret, parse_body.
  rewrite Hl, Hchk. simpl. rewrite Hparse.
  unfold mongo_insertMany. rewrite Hclient, Hins, Hv. simpl.
  eexists. split; [reflexivity|].
  unfold stored at 1. simpl. rewrite lookup_insert_eq. reflexivity.
Qed.

End MongoFirstBatch.

Lemma handleValues_first_batch_not_stored_witness :
  (exists st',
      @MongoDB.handleValues string Examples.plain_formatter Examples.line_json Examples.sound_driver
        Examples.first_batch Examples.mongo_connected = (Ret 2%nat, st')
      /\ MongoDB.stored st' "points" = []
      /\ MongoDB.valuesSent st' = 2)
  /\ MongoDB.stored
       (snd (@MongoDB.handleValues string Examples.plain_formatter Examples.line_json Examples.sound_driver
               Examples.first_batch
               (snd (@MongoDB.handleValues string Examples.plain_formatter Examples.line_json
                       Examples.sound_driver Examples.first_batch Examples.mongo_connected))))
       "points" = ["{value:1}"; "{value:2}"].
Proof.
  split.
  - destruct (@handleValues_first_batch_not_stored string Examples.plain_formatter
                Examples.line_json Examples.sound_driver Examples.first_batch
                Examples.mongo_connected [])
      as (st' & Hrun & Hstored & Hsent);
      [reflexivity|reflexivity|reflexivity|discriminate|intros v _; discriminate|].
    exists st'. split; [exact Hrun|]. split; [rewrite Hstored; reflexivity|exact Hsent].
  - vm_compute. reflexivity.
Defined.

(** ** The OPCHDA connector: history queries *)
Section HistoryQuery.
Import SouthOPCHDA.
Context {A B : Type} `{Collaborators A B} (configuration : Configuration).

Local Abbreviation St := (State A B).

(** Sending the read messages only touches the agent. *)
Lemma sendReadMessages_frame (groupNames : list string) (startT endT : Z) :
  forall s : St, exists r a',
    sendReadMessages groupNames startT endT s = (r, set_agent a' s).
Proof.
  induction groupNames as [|g rest IH]; intros s; simpl.
  - exists (Ret tt), (agent s). destruct s; reflexivity.
  - unfold bind, on_agent.
    destruct (agent_sendReadMessage g startT endT (agent s)) as [[[]|e] a1].
    + destruct (IH (set_agent a1 s)) as (r & a' & ->). exists r, a'. reflexivity.
    + exists (Throw e), a1. reflexivity.
Qed.

Lemma historyQuery_begin_cases (items : list Item) (startT endT : Z) (s : St) :
  (exists e s1, historyQuery_begin items startT endT s = (Throw e, s1)
                /\ base s1 = base s)
  \/ (exists a', historyQuery_begin items startT endT s = (Ret startT, waiting a' s)).
Proof.
  unfold historyQuery_begin, bind, modify, get, ret, setTimeout. simpl.
  destruct (sendReadMessages_frame (map fst (itemsByGroups s)) startT endT
              (set_historyRead (Some Pending) s)) as ([[]|e] & a' & ->).
  - right. exists a'. reflexivity.
  - left. exists e. eexists. split; reflexivity.
Qed.

Section WithAgent.
(** The agent takes the read messages. *)
Hypothesis read_messages_sent :
  forall g startT endT a, fst (agent_sendReadMessage g startT endT a) = Ret tt.

Lemma sendReadMessages_sent (groupNames : list string) (startT endT : Z) :
  forall s : St, exists a', sendReadMessages groupNames startT endT s = (Ret tt, set_agent a' s).
Proof.
  induction groupNames as [|g rest IH]; intros s; simpl.
  - exists (agent s). destruct s; reflexivity.
  - unfold bind, on_agent.
    pose proof (read_messages_sent g startT endT (agent s)) as Hs.
    destruct (agent_sendReadMessage g startT endT (agent s)) as [r a1].
    simpl in Hs. subst r.
    destruct (IH (set_agent a1 s)) as (a' & ->). exists a'. reflexivity.
Qed.

Lemma historyQuery_begin_waits (items : list Item) (startT endT : Z) (s : St) :
  exists a', historyQuery_begin items startT endT s = (Ret startT, waiting a' s).
Proof.
  unfold historyQuery_begin, bind, modify, get, ret, setTimeout. simpl.
  destruct (sendReadMessages_sent (map fst (itemsByGroups s)) startT endT
              (set_historyRead (Some Pending) s)) as (a' & ->).
  exists a'. reflexivity.
Qed.

End WithAgent.

Lemma resume_resolved (m v : Z) (s : St) :
  exists s', historyQuery_resume m (Resolved v) s = (Ret (Z.max m v), s').
Proof.
  unfold historyQuery_resume, bind, get, modify, ret.
  assert (Hmax : (if v >? m then v else m) = Z.max m v).
  { destruct (Z.gtb_spec v m); lia. }
  rewrite Hmax. simpl. destruct (historyReadTimeout s); simpl; eauto.
Qed.

Lemma await_settled (events : list Event) (s : St) (d : Deferred Z) :
  historyRead_ s = Some d -> d <> Pending -> await_historyRead configuration events s = s.
Proof.
  intros Hd Hne. destruct events; simpl; rewrite Hd; destruct d; congruence.
Qed.

(** The first event that settles the read decides the query. *)
Lemma historyQuery_first_event (items : list Item) (startT endT : Z) (ev : Event)
    (rest : list Event) (s : St) (a' : A) (d : Deferred Z) :
  historyQuery_begin items startT endT s = (Ret startT, waiting a' s) ->
  historyRead_ (deliver configuration ev (waiting a' s)) = Some d -> d <> Pending ->
  fst (historyQuery configuration items startT endT (ev :: rest) s) =
    match d with
    | Resolved v => Returned (Z.max startT v)
    | Rejected e => Failed e
    | Pending => Hangs
    end
  /\ base (snd (historyQuery configuration items startT endT (ev :: rest) s)) =
     base (deliver configuration ev (waiting a' s)).
Proof.
  intros Hbegin Hd Hne. unfold historyQuery. rewrite Hbegin.
  cbn [await_historyRead]. change (historyRead_ (waiting a' s)) with (Some (@Pending Z)).
  cbv iota. rewrite (await_settled rest _ d Hd Hne), Hd.
  destruct d as [|v|e]; [congruence| |].
  - unfold historyQuery_resume, bind, get, modify, ret.
    assert (Hmax : (if v >? startT then v else startT) = Z.max startT v).
    { destruct (Z.gtb_spec v startT); lia. }
    rewrite Hmax. destruct (historyReadTimeout _); split; reflexivity.
  - split; reflexivity.
Qed.

(** C8: whatever arrives while it waits, a history query that returns
    gives an instant that is not before its [startTime]; an empty reply
    makes it return [startTime] itself (for instants from 1970 on), so a
    chain of queries, each started at the instant returned by the previous
    one, never moves backward. *)
Theorem historyQuery_not_before_start (items : list Item) (startT endT : Z)
    (events : list Event) (s : St) :
  (forall r s', historyQuery configuration items startT endT events s = (Returned r, s') ->
     startT <= r) /\
  (forall r1 s1 endT2 events2 r2 s2,
     historyQuery configuration items startT endT events s = (Returned r1, s1) ->
     historyQuery configuration items r1 endT2 events2 s1 = (Returned r2, s2) ->
     startT <= r1 <= r2) /\
  ((forall g t1 t2 a, fst (agent_sendReadMessage g t1 t2 a) = Ret tt) ->
   forall content rest,
     Js.truthy (Error_ content) = false -> Points content = Some [] ->
     fst (historyQuery configuration items startT endT (ReadMessage content :: rest) s)
       = Returned (Z.max startT 0)).
Proof.
  assert (Hge : forall it t1 t2 evs (s0 : St) r s',
             historyQuery configuration it t1 t2 evs s0 = (Returned r, s') -> t1 <= r).
  { intros it t1 t2 evs s0 r s'. unfold historyQuery.
    destruct (historyQuery_begin_cases it t1 t2 s0) as [(e & s1 & -> & _)|(a' & ->)];
      [discriminate|].
    destruct (historyRead_ _) as [[|v|e]|]; try discriminate.
    destruct (resume_resolved t1 v (await_historyRead configuration evs (waiting a' s0)))
      as (s3 & ->).
    intros [= <- _]. lia. }
  split; [|split].
  - apply Hge.
  - intros r1 s1 endT2 events2 r2 s2 H1 H2. apply Hge in H1. apply Hge in H2. lia.
  - intros Hsent content rest Herr Hpts.
    destruct (historyQuery_begin_waits Hsent items startT endT s) as (a' & Hbegin).
    refine (proj1 (historyQuery_first_event items startT endT (ReadMessage content) rest s a'
                     (Resolved 0) Hbegin _ _)); [|discriminate].
    unfold deliver, handle, handleReadMessage. rewrite Herr, Hpts. reflexivity.
Qed.

(** [maxTimestamp] after the [map] over the valid points: the largest of
    the start value and the timestamps of the valid points. *)
Lemma map_points_max (group : ScanGroup) (pts : list Point) :
  forall m0,
    let m := snd (map_points group pts m0) in
    m0 <= m
    /\ (forall p ts, p ∈ pts -> valid_point p = true -> Timestamp p = Some ts -> ts <= m)
    /\ (m = m0 \/ exists p, p ∈ pts /\ valid_point p = true /\ Timestamp p = Some m).
Proof.
  induction pts as [|q pts IH]; intros m0; simpl.
  - split; [lia|]. split; [intros p ts Hin; set_solver|left; reflexivity].
  - unfold valid_point in *.
    destruct (Timestamp q) as [tq|] eqn:Htq; [destruct (Value q) as [vq|] eqn:Hvq|].
    + specialize (IH (if tq >? m0 then tq else m0)).
      destruct (map_points group pts (if tq >? m0 then tq else m0)) as [values m] eqn:Hmp.
      simpl in *. destruct IH as (Hle & Hub & Hatt).
      assert (Hq : m0 <= (if tq >? m0 then tq else m0) /\ tq <= (if tq >? m0 then tq else m0)).
      { destruct (Z.gtb_spec tq m0); lia. }
      split; [lia|]. split.
      * intros p ts Hin Hv Hts. apply elem_of_cons in Hin as [->|Hin].
        -- rewrite Htq in Hts. injection Hts as <-. lia.
        -- eapply Hub; eauto.
      * destruct Hatt as [Hm|(p & Hin & Hv & Hts)].
        -- destruct (Z.gtb_spec tq m0).
           ++ right. exists q. rewrite Htq, Hvq. subst m. split; [constructor|auto].
           ++ left. exact Hm.
        -- right. exists p. split; [constructor; exact Hin|auto].
    + specialize (IH m0). simpl in IH. destruct IH as (Hle & Hub & Hatt).
      split; [exact Hle|]. split.
      * intros p ts Hin Hv Hts. apply elem_of_cons in Hin as [->|Hin].
        -- rewrite Htq, Hvq in Hv. discriminate.
        -- eapply Hub; eauto.
      * destruct Hatt as [Hm|(p & Hin & Hv & Hts)]; [left; exact Hm|].
        right. exists p. split; [constructor; exact Hin|auto].
    + specialize (IH m0). simpl in IH. destruct IH as (Hle & Hub & Hatt).
      split; [exact Hle|]. split.
      * intros p ts Hin Hv Hts. apply elem_of_cons in Hin as [->|Hin].
        -- rewrite Htq in Hv. discriminate.
        -- eapply Hub; eauto.
      * destruct Hatt as [Hm|(p & Hin & Hv & Hts)]; [left; exact Hm|].
        right. exists p. split; [constructor; exact Hin|auto].
Qed.

Lemma map_points_values (group : ScanGroup) (pts : list Point) :
  forall m0, fst (map_points group pts m0) = omap (to_value group) pts.
Proof.
  induction pts as [|p pts IH]; intros m0; simpl; [reflexivity|].
  unfold to_value at 1.
  destruct (Timestamp p) as [ts|]; [destruct (Value p) as [v|]|]; try apply IH.
  specialize (IH (if ts >? m0 then ts else m0)).
  destruct (map_points group pts (if ts >? m0 then ts else m0)) as [values m].
  simpl in *. rewrite IH. reflexivity.
Qed.

Lemma handleReadMessage_reply_frame (content : Content) (s : St) :
  Js.truthy (Error_ content) = false ->
  timers (snd (handleReadMessage content s)) = timers s
  /\ historyReadTimeout (snd (handleReadMessage content s)) = historyReadTimeout s
  /\ nextTimer (snd (handleReadMessage content s)) = nextTimer s.
Proof.
  intros Herr. unfold handleReadMessage. rewrite Herr.
  destruct (Points content) as [[|p pts]|]; try (simpl; auto; fail).
  unfold bind, get. destruct (map_get (Group content) (itemsByGroups s)); [|simpl; auto].
  destruct (map_points _ _ _) as [values m]. unfold on_base.
  destruct (addValues values (base s)) as [[[]|e] b1]; simpl; auto.
Qed.

Lemma await_no_more_events (s : St) : await_historyRead configuration [] s = s.
Proof. simpl. destruct (historyRead_ s) as [[| |]|]; reflexivity. Qed.

Lemma await_pending (ev : Event) (rest : list Event) (s : St) :
  historyRead_ s = Some Pending ->
  await_historyRead configuration (ev :: rest) s
  = await_historyRead configuration rest (deliver configuration ev s).
Proof. intros Hp. cbn [await_historyRead]. rewrite Hp. reflexivity. Qed.

(** What a reply with points for a known group does to a waiting query:
    the values go to [addValues]; the read is resolved with
    [maxTimestamp + 1] when [addValues] returns and is left pending, with
    its timer, when [addValues] throws. *)
Lemma handleReadMessage_points (content : Content) (pts : list Point) (group : ScanGroup)
    (s : St) :
  Js.truthy (Error_ content) = false ->
  Points content = Some pts -> pts <> [] ->
  map_get (Group content) (itemsByGroups s) = Some group ->
  historyRead_ s = Some Pending ->
  historyRead_ (snd (handleReadMessage content s))
  = match fst (addValues (omap (to_value group) pts) (base s)) with
    | Ret _ => Some (Resolved (snd (map_points group pts 0) + 1))
    | Throw _ => Some Pending
    end.
Proof.
  intros Herr Hpts Hne Hgroup Hpending. unfold handleReadMessage. rewrite Herr, Hpts.
  destruct pts as [|p pts']; [congruence|].
  unfold bind, get. rewrite Hgroup.
  pose proof (map_points_values group (p :: pts') 0) as Hvalues.
  destruct (map_points group (p :: pts') 0) as [values m]. cbn [fst snd] in *.
  rewrite <- Hvalues. unfold on_base.
  destruct (addValues values (base s)) as [[[]|e] b1]; simpl.
  - rewrite Hpending. reflexivity.
  - exact Hpending.
Qed.

(** C2 (amended): when the agent takes the read messages and the first
    reply is a non-empty list of points for a known group, the values of
    the valid points go to [addValues]. When [addValues] accepts them,
    [historyQuery] returns the later of [startTime] and one millisecond past
    the largest timestamp [m] among the valid points of that reply ([m] is
    [0] when no valid point is later than 1970), whatever [endTime] is.
    When [addValues] throws, the reply settles nothing: the query goes on
    waiting and is rejected with the time-out error when its timer fires. *)
Theorem historyQuery_returns_past_last_point (items : list Item) (startT : Z)
    (content : Content) (pts : list Point) (group : ScanGroup) (s : St) :
  (forall g t1 t2 a, fst (agent_sendReadMessage g t1 t2 a) = Ret tt) ->
  Js.truthy (Error_ content) = false ->
  Points content = Some pts -> pts <> [] ->
  map_get (Group content) (itemsByGroups s) = Some group ->
  exists m,
    0 <= m
    /\ (forall p ts, p ∈ pts -> valid_point p = true -> Timestamp p = Some ts -> ts <= m)
    /\ (m = 0 \/ exists p, p ∈ pts /\ valid_point p = true /\ Timestamp p = Some m)
    /\ (fst (addValues (omap (to_value group) pts) (base s)) = Ret tt ->
        forall endT rest,
          fst (historyQuery configuration items startT endT (ReadMessage content :: rest) s)
          = Returned (Z.max startT (m + 1)))
    /\ (forall e, fst (addValues (omap (to_value group) pts) (base s)) = Throw e ->
        forall endT,
          fst (historyQuery configuration items startT endT [ReadMessage content] s) = Hangs
          /\ fst (historyQuery configuration items startT endT
                    [ReadMessage content; TimerFires (nextTimer s)] s)
             = Failed (Error (timeout_message configuration))).
Proof.
  intros Hsent Herr Hpts Hne Hgroup.
  exists (snd (map_points group pts 0)).
  destruct (map_points_max group pts 0) as (Hle & Hub & Hatt).
  split; [exact Hle|]. split; [exact Hub|]. split; [exact Hatt|].
  split.
  - intros Hadd endT rest.
    destruct (historyQuery_begin_waits Hsent items startT endT s) as (a' & Hbegin).
    refine (proj1 (historyQuery_first_event items startT endT (ReadMessage content) rest s a'
                     (Resolved (snd (map_points group pts 0) + 1)) Hbegin _ _)); [|discriminate].
    unfold deliver, handle.
    rewrite (handleReadMessage_points content pts group (waiting a' s) Herr Hpts Hne Hgroup
               eq_refl).
    change (base (waiting a' s)) with (base s). rewrite Hadd. reflexivity.
  - intros e Hadd endT.
    destruct (historyQuery_begin_waits Hsent items startT endT s) as (a' & Hbegin).
    pose proof (handleReadMessage_points content pts group (waiting a' s) Herr Hpts Hne Hgroup
                  eq_refl) as Hread.
    change (base (waiting a' s)) with (base s) in Hread. rewrite Hadd in Hread.
    destruct (handleReadMessage_reply_frame content (waiting a' s) Herr) as (Htm & _ & _).
    unfold historyQuery. rewrite Hbegin. split.
    + rewrite await_pending, await_no_more_events by reflexivity.
      unfold deliver, handle. rewrite Hread. reflexivity.
    + rewrite await_pending by reflexivity.
      rewrite await_pending by (unfold deliver, handle; exact Hread).
      rewrite await_no_more_events.
      unfold deliver at 1. unfold handle at 1. unfold fire, bind, get.
      unfold deliver, handle. rewrite Htm.
      change (timers (waiting a' s)) with (<[nextTimer s := CbHistoryReadTimeout]> (timers s)).
      rewrite lookup_insert_eq. unfold modify, historyRead_reject, modify. simpl.
      rewrite Hread. reflexivity.
Qed.

End HistoryQuery.

(** ** The OPCHDA connector: disconnecting *)
Section Lifecycle.
Import SouthOPCHDA.
Context {A B : Type} `{Collaborators A B} (configuration : Configuration).

Local Abbreviation St := (State A B).

(** [disconnect] step by step: the two handle fields are cleared from the
    timer table, then the agent and the base class are stopped. *)
Lemma disconnect_unfold (s : St) :
  disconnect s =
    let s1 := set_timers (cleared (historyReadTimeout s) (cleared (reconnectTimeout s) (timers s)))
                         (nextTimer s) s in
    match agent_disconnect (agent s) with
    | (Ret _, a') =>
        match super_disconnect (base s) with
        | (r, b') => (r, set_base b' (set_agent a' s1))
        end
    | (Throw e, a') => (Throw e, set_agent a' s1)
    end.
Proof.
  destruct s as [a b byScan conn rt hr hrt groups tm next].
  unfold disconnect, bind, get, clear_if_set, clearTimeout, modify, ret, on_agent, on_base,
    cleared. simpl.
  destruct rt, hrt; simpl;
    (destruct (agent_disconnect a) as [[[]|e] a1]; simpl;
     [destruct (super_disconnect b) as [r b1]; reflexivity|reflexivity]).
Qed.

Lemma cleared_lookup (handle : option Timer) (m : gmap Timer Callback) (t : Timer) :
  handle = Some t -> cleared handle m !! t = None.
Proof. intros ->. apply lookup_delete_eq. Qed.

Lemma cleared_subseteq (handle : option Timer) (m : gmap Timer Callback) :
  cleared handle m ⊆ m.
Proof. destruct handle; simpl; [apply delete_subseteq|reflexivity]. Qed.

Lemma cleared_lookup_None (handle : option Timer) (m : gmap Timer Callback) (t : Timer) :
  m !! t = None -> cleared handle m !! t = None.
Proof.
  intros Hm. pose proof (cleared_subseteq handle m) as Hsub.
  destruct (cleared handle m !! t) eqn:E; [|reflexivity].
  eapply lookup_weaken in E; [|exact Hsub]. congruence.
Qed.

Lemma disconnect_timers (s : St) :
  timers (snd (disconnect s))
  = cleared (historyReadTimeout s) (cleared (reconnectTimeout s) (timers s))
  /\ nextTimer (snd (disconnect s)) = nextTimer s
  /\ reconnectTimeout (snd (disconnect s)) = reconnectTimeout s
  /\ historyReadTimeout (snd (disconnect s)) = historyReadTimeout s
  /\ historyRead_ (snd (disconnect s)) = historyRead_ s.
Proof.
  rewrite disconnect_unfold. cbv zeta.
  destruct (agent_disconnect (agent s)) as [[[]|e] a1];
    [destruct (super_disconnect (base s)) as [r b1]|]; simpl; auto.
Qed.

Lemma fire_cleared (t : Timer) (s : St) :
  timers s !! t = None -> fire configuration t s = (Ret tt, s).
Proof. intros Ht. unfold fire, bind, get, ret. rewrite Ht. reflexivity. Qed.

(** C5 (amended): in every state, once [disconnect()] has run, the timers
    behind the connector's [reconnectTimeout] and [historyReadTimeout]
    fields are no longer pending, so their firing does nothing, and
    [disconnect] itself has scheduled no timer. *)
Theorem disconnect_cancels_held_timers (s : St) :
  let s' := snd (disconnect s) in
  (forall t, reconnectTimeout s = Some t ->
     timers s' !! t = None /\ fire configuration t s' = (Ret tt, s')) /\
  (forall t, historyReadTimeout s = Some t ->
     timers s' !! t = None /\ fire configuration t s' = (Ret tt, s')) /\
  timers s' ⊆ timers s /\
  nextTimer s' = nextTimer s.
Proof.
  intros s'. destruct (disconnect_timers s) as (Htm & Hnext & _). fold s' in Htm, Hnext.
  assert (Hr : forall t, reconnectTimeout s = Some t -> timers s' !! t = None).
  { intros t Ht. rewrite Htm. apply cleared_lookup_None, cleared_lookup, Ht. }
  assert (Hh : forall t, historyReadTimeout s = Some t -> timers s' !! t = None).
  { intros t Ht. rewrite Htm. apply cleared_lookup, Ht. }
  split; [intros t Ht; split; [|apply fire_cleared]; apply Hr, Ht|].
  split; [intros t Ht; split; [|apply fire_cleared]; apply Hh, Ht|].
  split; [|exact Hnext].
  rewrite Htm. etransitivity; apply cleared_subseteq.
Qed.

Lemma cleared_id (handle : option Timer) (m : gmap Timer Callback) :
  (forall t, handle = Some t -> m !! t = None) -> cleared handle m = m.
Proof. destruct handle as [t|]; simpl; [|reflexivity]. intros Hm. apply delete_id, Hm, eq_refl. Qed.

(** C7: on a connector that is already disconnected (the timers behind its
    handle fields are not pending, and stopping the agent and the base class
    changes nothing) [disconnect()] returns normally and leaves the state as
    it is; in particular, when the agent and the base class stop
    idempotently, a [disconnect()] that succeeded can be repeated with no
    further effect. *)
Theorem disconnect_disconnected_noop (s : St) :
  (agent_disconnect (agent s) = (Ret tt, agent s) ->
   super_disconnect (base s) = (Ret tt, base s) ->
   (forall t, reconnectTimeout s = Some t -> timers s !! t = None) ->
   (forall t, historyReadTimeout s = Some t -> timers s !! t = None) ->
   disconnect s = (Ret tt, s)) /\
  ((forall a a', agent_disconnect a = (Ret tt, a') -> agent_disconnect a' = (Ret tt, a')) ->
   (forall b b', super_disconnect b = (Ret tt, b') -> super_disconnect b' = (Ret tt, b')) ->
   forall s1, disconnect s = (Ret tt, s1) ->
     disconnect s1 = (Ret tt, s1)
     /\ bind disconnect (fun _ => disconnect) s = disconnect s).
Proof.
  assert (Hnoop : forall s0 : St,
             agent_disconnect (agent s0) = (Ret tt, agent s0) ->
             super_disconnect (base s0) = (Ret tt, base s0) ->
             (forall t, reconnectTimeout s0 = Some t -> timers s0 !! t = None) ->
             (forall t, historyReadTimeout s0 = Some t -> timers s0 !! t = None) ->
             disconnect s0 = (Ret tt, s0)).
  { intros s0 Ha Hb Hr Hh. rewrite disconnect_unfold. cbv zeta. rewrite Ha, Hb.
    rewrite (cleared_id _ _ Hr), (cleared_id _ _ Hh). destruct s0; reflexivity. }
  split; [apply Hnoop|].
  intros Hagent Hbase s1 Hrun.
  assert (Hs1 : disconnect s1 = (Ret tt, s1)).
  { pose proof (disconnect_timers s) as (Htm & _ & Hrt & Hhrt & _).
    rewrite Hrun in Htm, Hrt, Hhrt. simpl in Htm, Hrt, Hhrt.
    rewrite disconnect_unfold in Hrun. cbv zeta in Hrun.
    destruct (agent_disconnect (agent s)) as [[[]|e] a1] eqn:Ha; [|discriminate].
    destruct (super_disconnect (base s)) as [r b1] eqn:Hb.
    injection Hrun as -> <-.
    apply Hnoop; simpl.
    - eapply Hagent, Ha.
    - eapply Hbase, Hb.
    - intros t Ht. apply cleared_lookup_None, cleared_lookup, Ht.
    - intros t Ht. apply cleared_lookup, Ht. }
  split; [exact Hs1|]. unfold bind at 1. rewrite Hrun. exact Hs1.
Qed.

End Lifecycle.

(** ** The OPCHDA connector: failed history queries *)
Section HistoryFailures.
Import SouthOPCHDA.
Context {A B : Type} `{Collaborators A B} (configuration : Configuration).

Local Abbreviation St := (State A B).

Lemma disconnect_returns (s : St) :
  fst (agent_disconnect (agent s)) = Ret tt ->
  fst (super_disconnect (base s)) = Ret tt ->
  fst (disconnect s) = Ret tt.
Proof.
  intros Ha Hb. rewrite disconnect_unfold. cbv zeta.
  destruct (agent_disconnect (agent s)) as [ra a1]. simpl in Ha. subst ra.
  destruct (super_disconnect (base s)) as [rb b1]. simpl in Hb. subst rb. reflexivity.
Qed.

(** An error reply that asks for no disconnection rejects the pending read
    with the agent's message and leaves the base class alone. *)
Lemma handleReadMessage_error (content : Content) (s : St) :
  Js.truthy (Error_ content) = true ->
  Disconnected content = false ->
  historyRead_ s = Some Pending ->
  historyRead_ (snd (handleReadMessage content s))
  = Some (Rejected (Error (default EmptyString (Error_ content))))
  /\ base (snd (handleReadMessage content s)) = base s.
Proof.
  intros Herr Hdisc Hpending. unfold handleReadMessage. rewrite Herr, Hdisc.
  unfold bind, ret, historyRead_reject, modify. simpl. rewrite Hpending.
  split; reflexivity.
Qed.

(** An error reply that asks for a disconnection: the pending read is
    rejected only when [disconnect()] returns; when it throws, the handler
    stops there, with the state [disconnect()] left. *)
Lemma handleReadMessage_disconnected (content : Content) (s : St) :
  Js.truthy (Error_ content) = true ->
  Disconnected content = true ->
  historyRead_ s = Some Pending ->
  match fst (disconnect s) with
  | Ret _ =>
      historyRead_ (snd (handleReadMessage content s))
      = Some (Rejected (Error (default EmptyString (Error_ content))))
  | Throw _ => snd (handleReadMessage content s) = snd (disconnect s)
  end.
Proof.
  intros Herr Hdisc Hpending. unfold handleReadMessage. rewrite Herr, Hdisc.
  destruct (disconnect_timers s) as (_ & _ & _ & _ & Hhr).
  unfold bind. destruct (disconnect s) as [[[]|e] s1]; simpl in *.
  - unfold historyRead_reject, modify. simpl. rewrite Hhr, Hpending. reflexivity.
  - reflexivity.
Qed.


End HistoryFailures.

(** ** The OPCHDA connector on concrete runs *)
Section Runs.
Import SouthOPCHDA.

Lemma historyQuery_not_before_start_witness :
  fst (@historyQuery _ _ Examples.quiet Examples.hda_configuration [] 1000 2000
         [ReadMessage Examples.reply_ghost_empty] Examples.hda_ready)
  = Returned (Z.max 1000 0)
  /\ (forall r s',
        @historyQuery _ _ Examples.quiet Examples.hda_configuration [] 1000 2000
          [ReadMessage Examples.reply_1500] Examples.hda_ready = (Returned r, s') ->
        1000 <= r).
Proof.
  destruct (@historyQuery_not_before_start _ _ Examples.quiet Examples.hda_configuration
              [] 1000 2000 [ReadMessage Examples.reply_1500] Examples.hda_ready)
    as (Hge & _ & _).
  destruct (@historyQuery_not_before_start _ _ Examples.quiet Examples.hda_configuration
              [] 1000 2000 [] Examples.hda_ready)
    as (_ & _ & Hempty).
  split.
  - apply Hempty; reflexivity.
  - exact Hge.
Defined.

(** C2 (counterexample): the only point of the reply carries timestamp
    1500, inside the window [1000, 2000]; the query returns 1501, which is
    not the largest timestamp observed. *)
Lemma historyQuery_returns_one_past_observed :
  (exists p, Points Examples.reply_1500 = Some [p] /\ Timestamp p = Some 1500)
  /\ fst (@historyQuery _ _ Examples.quiet Examples.hda_configuration [] 1000 2000
            [ReadMessage Examples.reply_1500] Examples.hda_ready)
     = Returned 1501
  /\ (1501 : Z) <> 1500.
Proof.
  split; [eexists; split; reflexivity|]. split; [vm_compute; reflexivity|lia].
Qed.

Lemma historyQuery_returns_past_last_point_witness :
  exists m,
    0 <= m
    /\ fst (@historyQuery _ _ Examples.quiet Examples.hda_configuration [] 1000 2000
              [ReadMessage Examples.reply_1500] Examples.hda_ready)
       = Returned (Z.max 1000 (m + 1))
    /\ fst (@historyQuery _ _ Examples.quiet Examples.hda_configuration [] 1000 86400000
              [ReadMessage Examples.reply_1500] Examples.hda_ready)
       = Returned (Z.max 1000 (m + 1)).
Proof.
  destruct (@historyQuery_returns_past_last_point _ _ Examples.quiet
              Examples.hda_configuration [] 1000 Examples.reply_1500
              [ {| ItemId := "ns=1;s=Counter"; Timestamp := Some 1500;
                   Value := Some "42"; Quality := "192" |} ]
              Examples.group1 Examples.hda_ready
              ltac:(intros; reflexivity) eq_refl eq_refl ltac:(discriminate) eq_refl)
    as (m & Hm & _ & _ & Hres & _).
  exists m. split; [exact Hm|]. split; apply Hres; reflexivity.
Defined.



(** C5 (counterexample): the agent reports that it lost its server while
    no timer is pending. [handleReadMessage] runs [disconnect()] to its end
    and then schedules a reconnection, which is pending afterwards. *)
Lemma reconnect_scheduled_after_disconnect :
  let s' := snd (@handleReadMessage _ _ Examples.quiet Examples.reply_server_lost
                   Examples.hda_ready) in
  timers Examples.hda_ready = ∅
  /\ fst (@disconnect _ _ Examples.quiet Examples.hda_ready) = Ret tt
  /\ reconnectTimeout s' = Some 0%nat
  /\ timers s' !! 0%nat = Some CbSendConnectMessage.
Proof. vm_compute. auto. Qed.

Lemma disconnect_cancels_held_timers_witness :
  historyReadTimeout Examples.hda_querying = Some 0%nat
  /\ timers Examples.hda_querying !! 0%nat = Some CbHistoryReadTimeout
  /\ timers (snd (@disconnect _ _ Examples.quiet Examples.hda_querying)) !! 0%nat = None.
Proof.
  split; [reflexivity|]. split; [reflexivity|].
  apply (@disconnect_cancels_held_timers _ _ Examples.quiet Examples.hda_configuration
           Examples.hda_querying).
  reflexivity.
Defined.

(** A slip next to C5: each failed connection overwrites [reconnectTimeout]
    with a new timer without clearing the previous one, so after two
    failures [disconnect()] clears only the second timer and the first
    still fires. *)
Lemma stale_reconnect_timer_survives_disconnect :
  let s' := snd (@disconnect _ _ Examples.quiet Examples.hda_two_failures) in
  reconnectTimeout Examples.hda_two_failures = Some 1%nat
  /\ timers s' !! 1%nat = None
  /\ timers s' !! 0%nat = Some CbConnect.
Proof. vm_compute. auto. Qed.

Lemma disconnect_disconnected_noop_witness :
  @disconnect _ _ Examples.quiet Examples.hda_constructed = (Ret tt, Examples.hda_constructed)
  /\ (let s1 := snd (@disconnect _ _ Examples.quiet Examples.hda_querying) in
      @disconnect _ _ Examples.quiet s1 = (Ret tt, s1)).
Proof.
  split.
  - apply (proj1 (@disconnect_disconnected_noop _ _ Examples.quiet Examples.hda_constructed));
      try reflexivity; intros t Ht; cbv in Ht; discriminate.
  - refine (proj1 (proj2 (@disconnect_disconnected_noop _ _ Examples.quiet
                            Examples.hda_querying) _ _ _ _)).
    + intros a a' Heq. cbv in Heq. injection Heq as <-. reflexivity.
    + intros b b' Heq. cbv in Heq. injection Heq as <-. reflexivity.
    + destruct (@disconnect _ _ Examples.quiet Examples.hda_querying) as [r s1] eqn:E.
      assert (Hr : r = Ret tt).
      { change r with (fst (r, s1)). rewrite <- E. reflexivity. }
      subst r. reflexivity.
Defined.

End Runs.

(** * Further properties of the modelled code *)

(** ** generateIntervals: position and number of the sub-intervals *)
Section IntervalsLayout.
Import Number Utils.

Lemma exactLoop_lookup (s e m : Z) (fuel : nat) :
  0 < m ->
  forall (i : Z) (k : nat), 0 <= i ->
    exactLoop fuel s e m i !! k =
      if (k <? fuel)%nat && ((i + Z.of_nat k) * (m * 1000) <? e - s)
      then Some {| startTime := s + (i + Z.of_nat k) * (m * 1000);
                   endTime := Z.min (s + (i + Z.of_nat k + 1) * (m * 1000)) e |}
      else None.
Proof.
  intros Hm. induction fuel as [|fuel IH]; intros i k Hi.
  - destruct k; reflexivity.
  - simpl exactLoop.
    destruct (Z.ltb_spec (i * (m * 1000)) (e - s)) as [Hin|Hout].
    + destruct k as [|k].
      * simpl. replace (i + Z.of_nat 0) with i by lia.
        destruct (Z.ltb_spec (i * (m * 1000)) (e - s)); [|lia].
        f_equal. f_equal; try lia.
        destruct (Z.ltb_spec (s + (i + 1) * 1000 * m) e); lia.
      * change ((_ :: exactLoop fuel s e m (i + 1)) !! S k)
          with (exactLoop fuel s e m (i + 1) !! k).
        rewrite IH by lia.
        replace (i + 1 + Z.of_nat k) with (i + Z.of_nat (S k)) by lia.
        reflexivity.
    + destruct (Z.ltb_spec ((i + Z.of_nat k) * (m * 1000)) (e - s)); [nia|].
      rewrite andb_false_r. destruct k; reflexivity.
Qed.

Lemma ceil_div_lt (a b k : Z) :
  0 < b -> (k * b < a <-> k < (a + b - 1) / b).
Proof.
  intros Hb. split; intros H.
  - assert (k + 1 <= (a + b - 1) / b); [|lia].
    apply Z.div_le_lower_bound; lia.
  - pose proof (Z.mul_div_le (a + b - 1) b Hb). nia.
Qed.

Lemma length_by_lookup {X} (l : list X) (n : nat) :
  (forall k : nat, is_Some (l !! k) <-> (k < n)%nat) -> length l = n.
Proof.
  intros Hl.
  destruct (Nat.lt_trichotomy (length l) n) as [Hlt|[Heq|Hgt]]; [|exact Heq|].
  - apply Hl in Hlt. apply lookup_lt_is_Some in Hlt. lia.
  - assert (Hn : is_Some (l !! n)) by (apply lookup_lt_is_Some; lia).
    apply Hl in Hn. lia.
Qed.

Lemma exactIntervals_lookup (s e m : Z) (k : nat) :
  s < e -> 0 < m ->
  exactIntervals s e m !! k =
    if Z.of_nat k <? (e - s + m * 1000 - 1) / (m * 1000)
    then Some {| startTime := s + Z.of_nat k * (m * 1000);
                 endTime := Z.min (s + (Z.of_nat k + 1) * (m * 1000)) e |}
    else None.
Proof.
  intros Hse Hm. set (n := (e - s + m * 1000 - 1) / (m * 1000)).
  assert (Hn : 1 <= n) by (apply Z.div_le_lower_bound; lia).
  unfold exactIntervals.
  destruct (Z.ltb_spec 0 m) as [_|]; [|lia]. simpl.
  pose proof (ceil_div_lt (e - s) (m * 1000) (Z.of_nat k) ltac:(lia)) as Hceil.
  fold n in Hceil.
  destruct (Z.ltb_spec (1000 * m) (e - s)) as [Hbig|Hsmall].
  - rewrite exactLoop_lookup by lia. rewrite !Z.add_0_l.
    destruct (Z.ltb_spec (Z.of_nat k * (m * 1000)) (e - s)) as [Hk|Hk];
      destruct (Z.ltb_spec (Z.of_nat k) n) as [Hkn|Hkn]; try lia.
    + assert (Hfuel : (k <? exactFuel s e m)%nat = true).
      { apply Nat.ltb_lt. unfold exactFuel.
        assert (Z.of_nat k <= (e - s) / (m * 1000)); [|lia].
        apply Z.div_le_lower_bound; lia. }
      rewrite Hfuel. reflexivity.
    + rewrite andb_false_r. reflexivity.
  - assert (n = 1).
    { subst n. apply Z.le_antisymm; [|exact Hn].
      assert ((e - s + m * 1000 - 1) / (m * 1000) < 2); [|lia].
      apply Z.div_lt_upper_bound; lia. }
    destruct k as [|k].
    + destruct (Z.ltb_spec (Z.of_nat 0) n); [|lia]. simpl. f_equal. f_equal; lia.
    + destruct (Z.ltb_spec (Z.of_nat (S k)) n); [lia|]. reflexivity.
Qed.





End IntervalsLayout.

(** ** Strings: searching and replacing *)
Section StringSearch.

Lemma substring_all (s : string) : String.substring 0 (String.length s) s = s.
Proof. induction s as [|a s IH]; simpl; [reflexivity|]. rewrite IH. reflexivity. Qed.

Lemma substring_suffix (p b : string) :
  String.substring (String.length p) (String.length b) (p +:+ b) = b.
Proof. induction p as [|a p IH]; simpl; [apply substring_all|exact IH]. Qed.

Lemma append_cons (x : ascii) (a b : string) : String x a +:+ b = String x (a +:+ b).
Proof. reflexivity. Qed.

Lemma append_assoc (a b c : string) : (a +:+ b) +:+ c = a +:+ (b +:+ c).
Proof.
  induction a as [|x a IH]; [reflexivity|]. rewrite !append_cons, IH. reflexivity.
Qed.

Lemma contains_app (c : ascii) (a b : string) :
  Js.contains c (a +:+ b) = Js.contains c a || Js.contains c b.
Proof.
  induction a as [|x a IH]; [reflexivity|]. rewrite append_cons. simpl.
  rewrite IH. apply orb_assoc.
Qed.

Lemma prefix_app (p b : string) : String.prefix p (p +:+ b) = true.
Proof. apply String.prefix_correct, substring_prefix. Qed.

Lemma prefix_head_differs (c b : ascii) (p x : string) :
  Ascii.eqb b c = false -> String.prefix (String c p) (String b x) = false.
Proof.
  intros Hne. destruct (String.prefix (String c p) (String b x)) eqn:E; [|reflexivity].
  apply String.prefix_correct in E. simpl in E. injection E as Hb _.
  subst b. rewrite Ascii.eqb_refl in Hne. discriminate.
Qed.

(** A pattern is not found in a string that lacks its first character. *)
Lemma index_absent (c : ascii) (p s : string) :
  Js.contains c s = false -> String.index 0 (String c p) s = None.
Proof.
  induction s as [|b s IH]; intros Hc; [reflexivity|].
  simpl in Hc. apply orb_false_iff in Hc as [Hb Hs].
  cbn [String.index].
  rewrite (prefix_head_differs c b p s Hb), (IH Hs). reflexivity.
Qed.

(** The search skips a stretch that lacks the first character of the
    pattern. *)
Lemma index_skip (c : ascii) (p a r : string) :
  Js.contains c a = false ->
  String.index 0 (String c p) (a +:+ r)
  = (fun n => (String.length a + n)%nat) <$> String.index 0 (String c p) r.
Proof.
  induction a as [|b a IH]; intros Hc.
  - change (EmptyString +:+ r) with r.
    destruct (String.index 0 (String c p) r); reflexivity.
  - simpl in Hc. apply orb_false_iff in Hc as [Hb Ha].
    rewrite append_cons. cbn [String.index].
    rewrite (prefix_head_differs c b p (a +:+ r) Hb), (IH Ha).
    destruct (String.index 0 (String c p) r); reflexivity.
Qed.

Lemma index_here (pattern r : string) :
  pattern <> EmptyString -> String.index 0 pattern (pattern +:+ r) = Some 0%nat.
Proof.
  destruct pattern as [|c p]; [congruence|]. intros _.
  rewrite append_cons. cbn [String.index]. rewrite <- append_cons, prefix_app. reflexivity.
Qed.

Lemma replace_absent (c : ascii) (p s replacement : string) :
  Js.contains c s = false -> Js.replace s (String c p) replacement = s.
Proof. intros Hc. unfold Js.replace. rewrite index_absent by exact Hc. reflexivity. Qed.

(** A replacement without a dollar sign stands for itself. *)
Lemma substitution_plain (matched before after replacement : string) :
  Js.contains "$" replacement = false ->
  Js.substitution matched before after replacement = replacement.
Proof.
  induction replacement as [|a tail IH]; intros Hno; [reflexivity|].
  simpl in Hno. apply orb_false_iff in Hno as [Ha Htail].
  cbn [Js.substitution]. rewrite Ha, (IH Htail). reflexivity.
Qed.

(** The first occurrence is the one replaced. *)
Lemma replace_first (c : ascii) (p a r replacement : string) :
  Js.contains c a = false ->
  Js.replace (a +:+ String c p +:+ r) (String c p) replacement
  = a +:+ Js.substitution (String c p) a r replacement +:+ r.
Proof.
  intros Hc. unfold Js.replace.
  rewrite index_skip by exact Hc.
  rewrite index_here by discriminate. simpl fmap. cbv beta zeta.
  rewrite Nat.add_0_r, substring_prefix.
  assert (Hafter : String.substring (String.length a + String.length (String c p))
                     (String.length (a +:+ String c p +:+ r) - String.length a
                      - String.length (String c p)) (a +:+ String c p +:+ r) = r).
  { rewrite <- (length_append a (String c p)), <- append_assoc.
    rewrite !length_append.
    replace (String.length a + String.length (String c p) + String.length r
             - String.length a - String.length (String c p))%nat
      with (String.length r) by lia.
    rewrite <- length_append. apply substring_suffix. }
  rewrite Hafter. reflexivity.
Qed.

Lemma pretty_N_char_no_dollar (x : N) : Ascii.eqb (pretty_N_char x) "$" = false.
Proof. unfold pretty_N_char. repeat case_match; reflexivity. Qed.

Lemma pretty_N_go_no_dollar (x : N) :
  forall s, Js.contains "$" s = false -> Js.contains "$" (pretty_N_go x s) = false.
Proof.
  induction (N.lt_wf_0 x) as [x _ IH]. intros s Hs.
  destruct (N.eq_dec x 0%N) as [->|Hx].
  - rewrite pretty_N_go_0. exact Hs.
  - rewrite pretty_N_go_step by lia. apply IH.
    + apply N.div_lt; lia.
    + simpl. rewrite pretty_N_char_no_dollar. exact Hs.
Qed.

(** The decimal form of a number has no dollar sign. *)
Lemma pretty_no_dollar (z : Z) : Js.contains "$" (pretty z) = false.
Proof.
  assert (Hpos : forall p : positive, Js.contains "$" (pretty (N.pos p)) = false).
  { intros p. unfold pretty, pretty_N. case_decide; [reflexivity|].
    apply pretty_N_go_no_dollar. reflexivity. }
  destruct z as [|p|p]; [reflexivity|exact (Hpos p)|].
  change (pretty (Z.neg p)) with ("-" +:+ pretty (N.pos p)).
  rewrite contains_app, Hpos. reflexivity.
Qed.

End StringSearch.

(** ** utils.js: file names with variables *)
Section FilenameVariables.
Import Utils.

(** A file name without an at sign has no variable to replace and is
    returned as it is, whatever the date, connector name and query part. *)
Theorem replaceFilenameWithVariable_plain (currentDate filename connectorName : string)
    (queryPart : Z) :
  Js.contains "@" filename = false ->
  replaceFilenameWithVariable currentDate filename queryPart connectorName = filename.
Proof.
  intros Hno. unfold replaceFilenameWithVariable.
  rewrite (replace_absent "@" "CurrentDate" filename currentDate Hno).
  rewrite (replace_absent "@" "ConnectorName" filename connectorName Hno).
  apply (replace_absent "@" "QueryPart" filename (pretty queryPart) Hno).
Qed.

Lemma replaceFilenameWithVariable_plain_witness :
  replaceFilenameWithVariable "2020_01_01_00_00_00_000" "sql-export.csv" 3 "south1"
  = "sql-export.csv".
Proof. apply replaceFilenameWithVariable_plain. reflexivity. Defined.

Lemma prefix_second_differs (c c2 q2 : ascii) (p x : string) :
  Ascii.eqb q2 c2 = false ->
  String.prefix (String c (String c2 p)) (String c (String q2 x)) = false.
Proof.
  intros Hne.
  destruct (String.prefix (String c (String c2 p)) (String c (String q2 x))) eqn:E;
    [|reflexivity].
  apply String.prefix_correct in E. simpl in E. injection E as Hq _.
  subst q2. rewrite Ascii.eqb_refl in Hne. discriminate.
Qed.

Lemma index_cons_no_prefix (pattern : string) (b : ascii) (x : string) :
  String.prefix pattern (String b x) = false ->
  String.index 0 pattern (String b x) = S <$> String.index 0 pattern x.
Proof.
  intros Hp. cbn [String.index]. rewrite Hp.
  destruct (String.index 0 pattern x); reflexivity.
Qed.

(** The search passes an occurrence of the pattern's first character that
    is followed by another character than the pattern's second. *)
Lemma index_blocked (c c2 q2 : ascii) (p a r : string) :
  Js.contains c a = false -> Ascii.eqb q2 c2 = false ->
  String.index 0 (String c (String c2 p)) (a +:+ String c (String q2 r))
  = (fun n => (String.length a + S n)%nat)
      <$> String.index 0 (String c (String c2 p)) (String q2 r).
Proof.
  intros Ha Hq. rewrite index_skip by exact Ha.
  rewrite index_cons_no_prefix by (apply prefix_second_differs, Hq).
  destruct (String.index 0 (String c (String c2 p)) (String q2 r)); reflexivity.
Qed.

Lemma index_not_between_query_parts (c2 : ascii) (p a b c : string) :
  Ascii.eqb "Q" c2 = false ->
  Js.contains "@" a = false -> Js.contains "@" b = false -> Js.contains "@" c = false ->
  String.index 0 (String "@" (String c2 p))
    (a +:+ "@QueryPart" +:+ b +:+ "@QueryPart" +:+ c) = None.
Proof.
  intros Hq Ha Hb Hc.
  change ("@QueryPart" +:+ b +:+ "@QueryPart" +:+ c)
    with (String "@" (String "Q" ("ueryPart" +:+ b +:+ "@QueryPart" +:+ c))).
  rewrite (index_blocked "@" c2 "Q" p a _ Ha Hq).
  change (String "Q" ("ueryPart" +:+ b +:+ "@QueryPart" +:+ c))
    with ("QueryPart" +:+ b +:+ "@QueryPart" +:+ c).
  rewrite <- (append_assoc "QueryPart" b).
  change ("@QueryPart" +:+ c) with (String "@" (String "Q" ("ueryPart" +:+ c))).
  rewrite (index_blocked "@" c2 "Q" p ("QueryPart" +:+ b) _); [|rewrite contains_app, Hb; reflexivity|exact Hq].
  change (String "Q" ("ueryPart" +:+ c)) with ("QueryPart" +:+ c).
  rewrite index_absent; [reflexivity|]. rewrite contains_app, Hc. reflexivity.
Qed.

(** Each variable is replaced once: with two occurrences of [@QueryPart],
    only the first one receives the query part and the second stays in the
    name. *)
Theorem replaceFilenameWithVariable_first_only (currentDate connectorName a b c : string)
    (queryPart : Z) :
  Js.contains "@" a = false -> Js.contains "@" b = false -> Js.contains "@" c = false ->
  replaceFilenameWithVariable currentDate (a +:+ "@QueryPart" +:+ b +:+ "@QueryPart" +:+ c)
    queryPart connectorName
  = a +:+ pretty queryPart +:+ b +:+ "@QueryPart" +:+ c.
Proof.
  intros Ha Hb Hc. unfold replaceFilenameWithVariable, Js.replace at 3.
  rewrite (index_not_between_query_parts "C" "urrentDate" a b c eq_refl Ha Hb Hc).
  unfold Js.replace at 2.
  rewrite (index_not_between_query_parts "C" "onnectorName" a b c eq_refl Ha Hb Hc).
  rewrite (replace_first "@" "QueryPart" a (b +:+ "@QueryPart" +:+ c) (pretty queryPart) Ha).
  rewrite substitution_plain by apply pretty_no_dollar. reflexivity.
Qed.

Lemma replaceFilenameWithVariable_first_only_witness :
  replaceFilenameWithVariable "2020_01_01_00_00_00_000" "part@QueryPart_of_@QueryPart.csv"
    7 "south1"
  = "part7_of_@QueryPart.csv".
Proof.
  apply (replaceFilenameWithVariable_first_only "2020_01_01_00_00_00_000" "south1"
           "part" "_of_" ".csv" 7); reflexivity.
Defined.

End FilenameVariables.

(** ** utils.js: configuration files *)
Section ConfigFiles.
Import Utils.

Lemma pretty_N_char_no_dash (x : N) : Ascii.eqb (pretty_N_char x) "-" = false.
Proof. unfold pretty_N_char. repeat case_match; reflexivity. Qed.

Lemma pretty_N_go_no_dash (x : N) :
  forall s, Js.contains "-" s = false -> Js.contains "-" (pretty_N_go x s) = false.
Proof.
  induction (N.lt_wf_0 x) as [x _ IH]. intros s Hs.
  destruct (N.eq_dec x 0%N) as [->|Hx].
  - rewrite pretty_N_go_0. exact Hs.
  - rewrite pretty_N_go_step by lia. apply IH.
    + apply N.div_lt; lia.
    + simpl. rewrite pretty_N_char_no_dash. exact Hs.
Qed.

(** The decimal form of a non-negative number has no dash. *)
Lemma pretty_nonneg_no_dash (z : Z) : 0 <= z -> Js.contains "-" (pretty z) = false.
Proof.
  intros Hz. destruct z as [|p|p]; [reflexivity| |lia].
  unfold pretty, pretty_Z, pretty, pretty_positive, pretty, pretty_N.
  case_decide; [reflexivity|]. apply pretty_N_go_no_dash. reflexivity.
Qed.

(** The timestamp that [backupConfigFile] appends to the base name is what
    the stem computation of [generateFormDataBodyFromFile] removes: for a
    backup taken at or after 1970, the name computed from the backup's path
    is the original base name with its extension. *)
Theorem backup_name_strips_to_original `{PathLib} (filePath backupPath : string)
    (timestamp : Z) :
  0 <= timestamp ->
  name (parse backupPath) +:+ ext (parse backupPath) = backupFilename filePath timestamp ->
  ext (parse backupPath) = ext (parse filePath) ->
  generateFormDataBodyFromFile backupPath = name (parse filePath) +:+ ext (parse filePath).
Proof.
  intros Hts Hbase Hext. unfold generateFormDataBodyFromFile, backupFilename in *.
  rewrite Hext in Hbase |- *.
  assert (Hname : name (parse backupPath)
                  = name (parse filePath) +:+ String "-" (pretty timestamp)).
  { change (name (parse filePath) +:+ "-" +:+ pretty timestamp +:+ ext (parse filePath))
      with (name (parse filePath) +:+ (String "-" (pretty timestamp) +:+ ext (parse filePath)))
      in Hbase.
    rewrite <- append_assoc in Hbase.
    revert Hbase. generalize (name (parse filePath) +:+ String "-" (pretty timestamp)).
    generalize (name (parse backupPath)). generalize (ext (parse filePath)).
    intros e x y Hxy.
    assert (Hinj : forall x y : string, x +:+ e = y +:+ e -> x = y).
    { intros x0 y0 Heq.
      assert (Hlen : String.length x0 = String.length y0).
      { apply (f_equal String.length) in Heq. rewrite !length_append in Heq. lia. }
      rewrite <- (substring_prefix x0 e), <- (substring_prefix y0 e), Heq, Hlen.
      reflexivity. }
    apply Hinj, Hxy. }
  rewrite Hname, stem_dash by (apply pretty_nonneg_no_dash, Hts). reflexivity.
Qed.

End ConfigFiles.

Lemma backup_name_strips_to_original_witness :
  @Utils.backupFilename {| parse := posix_parse |} "/etc/oibus/oibus.json" 1577836800000
    = "oibus-1577836800000.json"
  /\ @Utils.generateFormDataBodyFromFile {| parse := posix_parse |}
       "/etc/oibus/oibus-1577836800000.json" = "oibus.json".
Proof.
  split; [vm_compute; reflexivity|].
  apply (@backup_name_strips_to_original {| parse := posix_parse |}
           "/etc/oibus/oibus.json" "/etc/oibus/oibus-1577836800000.json" 1577836800000).
  - lia.
  - vm_compute. reflexivity.
  - vm_compute. reflexivity.
Defined.

Section ConfigStore.
Import Utils.
Context {J : Type} `{Json J} `{Fs.Disk}.

(** [checkOrCreateConfigFile] never overwrites: when the file exists, the
    call returns and the file system is as before. A missing file receives
    the default configuration if it can be written; if it cannot, the error
    of [writeFile] is thrown on and the file system is as before. After a
    call that returned, a further call, with any default, changes
    nothing. *)
Theorem checkOrCreateConfigFile_creates_once (filePath : string) (defaultConfig : J)
    (fs : gmap string string) :
  let r := checkOrCreateConfigFile filePath defaultConfig fs in
  (forall content, fs !! filePath = Some content -> r = (Ret tt, fs)) /\
  (fs !! filePath = None -> Fs.write_error filePath = None ->
     r = (Ret tt, <[filePath := stringify defaultConfig]> fs)) /\
  (forall e, fs !! filePath = None -> Fs.write_error filePath = Some e ->
     r = (Throw e, fs)) /\
  (fst r = Ret tt ->
     forall otherDefault : J,
       checkOrCreateConfigFile filePath otherDefault (snd r) = (Ret tt, snd r)).
Proof.
  unfold checkOrCreateConfigFile, try_catch, Fs.stat, Fs.writeFile.
  destruct (fs !! filePath) as [content|] eqn:Hfile; simpl.
  - split; [reflexivity|]. split; [discriminate|]. split; [discriminate|].
    intros _ d. rewrite Hfile. reflexivity.
  - destruct (Fs.write_error filePath) as [e|]; simpl.
    + split; [discriminate|]. split; [discriminate|].
      split; [intros e0 _ [= <-]; reflexivity|discriminate].
    + split; [discriminate|]. split; [reflexivity|]. split; [discriminate|].
      intros _ d. rewrite lookup_insert_eq. reflexivity.
Qed.

Lemma substring_split (s : string) :
  forall k : nat, (k <= String.length s)%nat ->
    s = String.substring 0 k s +:+ String.substring k (String.length s - k) s.
Proof.
  induction s as [|a s IH]; intros k Hk; simpl in *.
  - destruct k; [reflexivity|lia].
  - destruct k as [|k]; simpl.
    + rewrite substring_all. reflexivity.
    + rewrite append_cons. f_equal. apply IH. lia.
Qed.

(** [endsWith] holds exactly for the strings that are some text followed by
    the suffix. *)
Lemma endsWith_spec (s suffix : string) :
  Js.endsWith s suffix = true <-> exists a, s = a +:+ suffix.
Proof.
  unfold Js.endsWith, Js.slice. split.
  - intros Hends. apply andb_true_iff in Hends as [Hlen Heq].
    apply Z.leb_le in Hlen. apply String.eqb_eq in Heq.
    destruct (Z.ltb_spec (Z.of_nat (String.length s) - Z.of_nat (String.length suffix)) 0);
      [lia|].
    destruct (Z.ltb_spec (Z.of_nat (String.length s)) 0); [lia|].
    rewrite !Z.min_l in Heq by lia.
    replace (Z.to_nat (Z.of_nat (String.length s) - Z.of_nat (String.length suffix)))
      with (String.length s - String.length suffix)%nat in Heq by lia.
    replace (Z.to_nat (Z.max (Z.of_nat (String.length s)
                              - (Z.of_nat (String.length s) - Z.of_nat (String.length suffix))) 0))
      with (String.length s - (String.length s - String.length suffix))%nat in Heq by lia.
    exists (String.substring 0 (String.length s - String.length suffix) s).
    etransitivity;
      [apply (substring_split s (String.length s - String.length suffix)); lia|].
    f_equal. exact Heq.
  - intros [a ->]. rewrite length_append.
    destruct (Z.ltb_spec (Z.of_nat (String.length a + String.length suffix)
                          - Z.of_nat (String.length suffix)) 0); [lia|].
    destruct (Z.ltb_spec (Z.of_nat (String.length a + String.length suffix)) 0); [lia|].
    rewrite !Z.min_l by lia.
    replace (Z.to_nat (Z.of_nat (String.length a + String.length suffix)
                       - Z.of_nat (String.length suffix)))
      with (String.length a) by lia.
    replace (Z.to_nat (Z.max (Z.of_nat (String.length a + String.length suffix)
                              - (Z.of_nat (String.length a + String.length suffix)
                                 - Z.of_nat (String.length suffix))) 0))
      with (String.length suffix) by lia.
    rewrite substring_suffix, String.eqb_refl.
    apply andb_true_iff. split; [apply Z.leb_le; lia|reflexivity].
Qed.

(** What [saveConfig] writes, [tryReadFile] reads back: under a [.json]
    name, when the write went through and [JSON.parse] inverts
    [JSON.stringify] on the object, the saved object is returned and the
    file system is as [saveConfig] left it. Under any other name
    [tryReadFile] throws before reading, whatever is there. *)
Theorem saveConfig_tryReadFile (filePath : string) (jsonObject : J)
    (fs : gmap string string) :
  parseJSON (stringify jsonObject) = Ret jsonObject ->
  let saved := snd (saveConfig filePath jsonObject fs) in
  ((exists base, filePath = base +:+ ".json") ->
   fst (saveConfig filePath jsonObject fs) = Ret tt ->
     tryReadFile filePath saved = (Ret jsonObject, saved)) /\
  ((forall base, filePath <> base +:+ ".json") ->
     @tryReadFile J _ filePath saved =
       (Throw (Error "You must provide a JSON file for the configuration!"), saved)).
Proof.
  intros Hround saved. unfold tryReadFile. split.
  - intros Hjson Hsaved. apply endsWith_spec in Hjson. rewrite Hjson. simpl.
    unfold bind, Fs.readFile. subst saved. unfold saveConfig, Fs.writeFile in *.
    destruct (Fs.write_error filePath); [discriminate|]. simpl.
    rewrite lookup_insert_eq, Hround. reflexivity.
  - intros Hother.
    destruct (Js.endsWith filePath ".json") eqn:E; [|reflexivity].
    apply endsWith_spec in E as [base ->]. destruct (Hother base eq_refl).
Qed.

End ConfigStore.

Lemma saveConfig_tryReadFile_witness :
  @Utils.tryReadFile string Examples.text_json "/etc/oibus/oibus.json"
    (snd (@Utils.saveConfig string Examples.text_json Examples.etc_disk
            "/etc/oibus/oibus.json" "{ engine: {} }" ∅))
  = (Ret "{ engine: {} }",
     snd (@Utils.saveConfig string Examples.text_json Examples.etc_disk
            "/etc/oibus/oibus.json" "{ engine: {} }" ∅)).
Proof.
  apply (@saveConfig_tryReadFile string Examples.text_json Examples.etc_disk
           "/etc/oibus/oibus.json" "{ engine: {} }" ∅ eq_refl).
  - exists "/etc/oibus/oibus". reflexivity.
  - reflexivity.
Defined.

(** ** NorthSFTP: sending a file *)
Section SftpDelivery.
Import NorthSFTP.
Context {L : Type} `{PathLib}.

Ltac run_send :=
  unfold handleFile, sendToSftpServer, bind, createConnectionOptions, client_connect,
    client_put, client_end, throw, ret, modify; simpl.

(** [handleFile] returns normally exactly when the options are built and the
    session opens, takes the file and ends; the file has then been put once,
    under [remoteFolder/resultingFilename], and no session stays open. When
    it throws, nothing was put, unless the only failure was the end of the
    session. The connector's lifecycle state is never touched. *)
Theorem handleFile_puts_or_throws (remote : Remote) (c : Connector)
    (nowDate filePath : string) (w : World L) :
  let target := remoteFolder (settings c) +:+ "/" +:+ resultingFilename c nowDate filePath in
  let r := handleFile remote c nowDate filePath w in
  (fst r = Ret tt <->
     options_error remote = None /\ connect_error remote = None /\
     put_error remote = None /\ end_error remote = None) /\
  (fst r = Ret tt ->
     uploads (snd r) = uploads w ++ [(filePath, target)] /\
     openClients (snd r) = openClients w) /\
  (forall e, fst r = Throw e ->
     uploads (snd r) = uploads w \/
     (end_error remote = Some e /\ uploads (snd r) = uploads w ++ [(filePath, target)])) /\
  lifecycle (snd r) = lifecycle w.
Proof.
  intros target r. subst r target. run_send.
  destruct (options_error remote) as [eo|]; simpl.
  { repeat split; try discriminate; auto. intros (? & _); discriminate. }
  destruct (connect_error remote) as [ec|]; simpl.
  { repeat split; try discriminate; auto. intros (_ & ? & _); discriminate. }
  destruct (put_error remote) as [ep|]; simpl.
  { repeat split; try discriminate; auto. intros (_ & _ & ? & _); discriminate. }
  destruct (end_error remote) as [ee|]; simpl.
  { repeat split; try discriminate; auto.
    - intros (_ & _ & _ & ?); discriminate.
    - intros e [= <-]. right. auto. }
  repeat split; auto. discriminate.
Qed.

(** When the session opens and [client.put] fails, [sendToSftpServer]
    throws the error of [put] as it is and the session it opened is left
    open: [client.end()] is only reached after a successful [put]. *)
Theorem handleFile_failed_put_stays_open (remote : Remote) (c : Connector)
    (nowDate filePath : string) (w : World L) (e : Exn) :
  options_error remote = None -> connect_error remote = None -> put_error remote = Some e ->
  fst (handleFile remote c nowDate filePath w) = Throw e
  /\ openClients (snd (handleFile remote c nowDate filePath w)) = S (openClients w)
  /\ uploads (snd (handleFile remote c nowDate filePath w)) = uploads w.
Proof. intros Ho Hc Hp. run_send. rewrite Ho, Hc. simpl. rewrite Hp. simpl. auto. Qed.

End SftpDelivery.

Lemma handleFile_puts_or_throws_witness :
  NorthSFTP.uploads
    (snd (@NorthSFTP.handleFile bool Examples.remote_with_upload {| parse := posix_parse |}
            Examples.sftp_unnamed "2020_01_01_00_00_00_000" "/cache/data-1577836800000.csv"
            Examples.idle_world))
  = [("/cache/data-1577836800000.csv", "/upload/data.csv")].
Proof.
  apply (@handleFile_puts_or_throws bool {| parse := posix_parse |} Examples.remote_with_upload
           Examples.sftp_unnamed "2020_01_01_00_00_00_000" "/cache/data-1577836800000.csv"
           Examples.idle_world).
  reflexivity.
Defined.

Lemma handleFile_failed_put_stays_open_witness :
  NorthSFTP.openClients
    (snd (@NorthSFTP.handleFile bool Examples.remote_failing_put {| parse := posix_parse |}
            Examples.sftp_unnamed "2020_01_01_00_00_00_000" "/cache/data-1577836800000.csv"
            Examples.idle_world)) = 1%nat.
Proof.
  apply (@handleFile_failed_put_stays_open bool {| parse := posix_parse |}
           Examples.remote_failing_put Examples.sftp_unnamed "2020_01_01_00_00_00_000"
           "/cache/data-1577836800000.csv" Examples.idle_world
           (Error "No space left on device")); reflexivity.
Defined.

(** ** The IP filter: what is logged, and the empty filter *)
Section IpFilterLog.
Import IpFilter.
Context `{Micromatch} {D : Type}.

(** An admitted request is not logged. A rejected one adds exactly one
    line, which names its address, and is answered with status 401 and that
    same text, when [logger] is bound; when it is not, nothing is logged
    and the request ends in the [ReferenceError]. With an empty filter list
    every request is rejected and the downstream handler is never called. *)
Theorem ipFilter_logs_rejections (logger_bound : bool) (next : M D unit)
    (filter : list string) (ctx : Ctx) (t : Trace D) :
  let r := fst (ipFilter logger_bound next filter ctx t) in
  let t' := snd (ipFilter logger_bound next filter ctx t) in
  (isMatch (ip (request ctx)) filter = true -> logged t' = logged t) /\
  (isMatch (ip (request ctx)) filter = false ->
     if logger_bound
     then logged t' = logged t ++ [ip (request ctx) +:+ " is not authorized"]
          /\ r = Throw (HttpError 401 (ip (request ctx) +:+ " is not authorized"))
     else logged t' = logged t
          /\ r = Throw (ReferenceError "logger is not defined")) /\
  (filter = [] -> (exists e, r = Throw e) /\ nextCalls t' = nextCalls t).
Proof.
  intros r t'. subst r t'. unfold ipFilter. split; [|split].
  - intros ->. unfold call_next. destruct (next (downstream t)); reflexivity.
  - intros ->. destruct logger_bound; split; reflexivity.
  - intros ->. destruct logger_bound; simpl; eauto.
Qed.

End IpFilterLog.

Lemma ipFilter_logs_rejections_witness :
  let next : M nat unit := fun d => (Ret tt, S d) in
  let t0 := {| IpFilter.downstream := 0%nat; IpFilter.nextCalls := 0; IpFilter.logged := [] |} in
  IpFilter.logged
    (snd (@IpFilter.ipFilter Examples.star_globs nat true next ["127.0.0.1"; "192.168.*"]
            {| IpFilter.request := {| IpFilter.ip := "10.0.0.1" |} |} t0))
  = ["10.0.0.1 is not authorized"]
  /\ IpFilter.logged
       (snd (@IpFilter.ipFilter Examples.star_globs nat false next ["127.0.0.1"; "192.168.*"]
               {| IpFilter.request := {| IpFilter.ip := "10.0.0.1" |} |} t0))
     = [].
Proof.
  intros next t0. split.
  - apply (proj1 (proj2 (@ipFilter_logs_rejections Examples.star_globs nat true next
                            ["127.0.0.1"; "192.168.*"]
                            {| IpFilter.request := {| IpFilter.ip := "10.0.0.1" |} |} t0))
             eq_refl).
  - apply (proj1 (proj2 (@ipFilter_logs_rejections Examples.star_globs nat false next
                            ["127.0.0.1"; "192.168.*"]
                            {| IpFilter.request := {| IpFilter.ip := "10.0.0.1" |} |} t0))
             eq_refl).
Defined.

(** ** MongoDB: batches *)
Section MongoBatches.
Import MongoDB.
Context {D : Type} `{Formatter D} `{JsonArray} (driver : Driver).

Lemma forEach_entry_no_match (entries : list (Value D)) (v : Value D) :
  v ∈ entries -> render (pointId v) (data v) = NoMatch ->
  forall l, exists e, forEach_entry entries l = Throw e.
Proof.
  induction entries as [|x entries IH]; intros Hin Hv l; [set_solver|].
  simpl. apply elem_of_cons in Hin as [<-|Hin].
  - rewrite Hv. eauto.
  - destruct (render (pointId x) (data x)); eauto.
Qed.

(** What the loop over the entries leaves in [body] and [collectionValue]:
    the documents of the entries that were rendered, in order, each
    appended to the body, and the collection of the last entry. *)
Lemma forEach_entry_result (entries : list (Value D)) :
  forall l l', forEach_entry entries l = Ret l' ->
    body l' = fold_left append_document (omap documentOf entries) (body l)
    /\ (forall v, last entries = Some v -> collectionOf v = Some (collectionValue_ l')).
Proof.
  induction entries as [|x entries IH]; intros l l' Hrun; simpl in Hrun.
  - injection Hrun as <-. split; [reflexivity|discriminate].
  - unfold documentOf, collectionOf in *. simpl omap.
    destruct (render (pointId x) (data x)) as [|c i|c i doc] eqn:Hx; [discriminate| |].
    + pose proof Hrun as Hrun'. apply IH in Hrun as [Hbody Hcoll]. simpl in Hbody.
      split; [exact Hbody|].
      intros v Hv. destruct entries as [|y entries].
      * simpl in Hv, Hrun'. injection Hv as <-. injection Hrun' as <-. rewrite Hx.
        reflexivity.
      * apply Hcoll. exact Hv.
    + pose proof Hrun as Hrun'. apply IH in Hrun as [Hbody Hcoll]. simpl in Hbody. split.
      * exact Hbody.
      * intros v Hv. destruct entries as [|y entries].
        -- simpl in Hv, Hrun'. injection Hv as <-. injection Hrun' as <-. rewrite Hx.
           reflexivity.
        -- apply Hcoll. exact Hv.
Qed.

(** Whatever goes wrong inside, [handleValues] throws
    [COMMUNICATION_ERROR] and nothing else; an empty batch always ends
    this way, because the status line reads the point id of its last
    value. *)
Theorem handleValues_throws_communication_error (values : list (Value D)) (st : State) :
  (forall e, fst (handleValues driver values st) = Throw e -> e = COMMUNICATION_ERROR) /\
  fst (handleValues driver [] st) = Throw COMMUNICATION_ERROR.
Proof.
  split.
  - intros e. unfold handleValues, try_catch. unfold bind at 1.
    destruct (bind (makeRequest driver values) _ st) as [[u|e0] s0]; simpl.
    + discriminate.
    + intros [= <-]. reflexivity.
  - unfold handleValues, try_catch. unfold bind at 1. simpl last. unfold bind at 1.
    destruct (makeRequest driver [] st) as [[b|e0] s0]; reflexivity.
Qed.

(** One value whose point id does not match the regular expression makes
    the whole batch fail: [handleValues] throws and the connector and the
    database are exactly as before, also for the values that came first. *)
Theorem handleValues_unmatched_point_rejects_batch (values : list (Value D)) (v : Value D)
    (st : State) :
  v ∈ values -> render (pointId v) (data v) = NoMatch ->
  handleValues driver values st = (Throw COMMUNICATION_ERROR, st).
Proof.
  intros Hin Hv.
  destruct (forEach_entry_no_match values v Hin Hv
              {| body := EmptyString; collectionValue_ := EmptyString;
                 indexFieldsValue_ := EmptyString |}) as [e He].
  unfold handleValues, makeRequest, try_catch, bind. rewrite He. reflexivity.
Qed.

(** Once the collection has been checked, the body built from the
    documents of the batch is parsed and inserted in one go into the
    collection computed from the last value of the batch, whatever
    collection the earlier values name. Values skipped for missing groups
    are not stored, yet the counter of sent values grows by the size of the
    whole batch. When the body does not parse (the documents are
    concatenated as they are, so a double quote inside a value breaks it),
    [handleValues] throws and nothing is inserted. *)
Theorem handleValues_inserts_into_last_collection (values : list (Value D)) (v : Value D)
    (collection : string) (st : State) :
  collectionChecked st = true ->
  mongoClient st = true ->
  (forall x, x ∈ values -> render (pointId x) (data x) <> NoMatch) ->
  last values = Some v ->
  collectionOf v = Some collection ->
  let text := "[" +:+ body_of (omap documentOf values) +:+ "]" in
  (forall docs,
     parse_array text = Ret docs ->
     insertMany_rejects driver collection docs = false ->
     exists st',
       handleValues driver values st = (Ret (length values), st')
       /\ stored st' collection = stored st collection ++ docs
       /\ (forall other, other <> collection -> stored st' other = stored st other)
       /\ valuesSent st' = valuesSent st + Z.of_nat (length values)) /\
  (forall e,
     parse_array text = Throw e ->
     handleValues driver values st = (Throw COMMUNICATION_ERROR, st)).
Proof.
  intros Hchk Hclient Hrender Hlast Hcoll text.
  destruct (forEach_entry_renders values Hrender
              {| body := EmptyString; collectionValue_ := EmptyString;
                 indexFieldsValue_ := EmptyString |}) as [l Hl].
  destruct (forEach_entry_result values _ l Hl) as [Hbody Hlastcoll]. simpl in Hbody.
  specialize (Hlastcoll v Hlast). rewrite Hcoll in Hlastcoll. injection Hlastcoll as Hc.
  fold (body_of (omap documentOf values)) in Hbody.
  split.
  - intros docs Hparse Hins.
    unfold handleValues, makeRequest, try_catch, bind, get, ret, parse_body.
    rewrite Hl, Hchk. simpl. rewrite Hbody. fold text. rewrite Hparse.
    unfold mongo_insertMany. rewrite Hclient, <- Hc, Hins, Hlast. simpl.
    eexists. split; [reflexivity|]. split; [|split].
    + unfold stored at 1. simpl. rewrite lookup_insert_eq. reflexivity.
    + intros other Hne. unfold stored at 1. simpl. rewrite lookup_insert_ne by congruence.
      reflexivity.
    + reflexivity.
  - intros e Hparse.
    unfold handleValues, makeRequest, try_catch, bind, get, ret, parse_body.
    rewrite Hl, Hchk. simpl. rewrite Hbody. fold text. rewrite Hparse. reflexivity.
Qed.

(** A rejection of [insertMany] is not seen by [handleValues]: the promise
    is not awaited, so the call returns the size of the batch and counts it
    as sent while the database is unchanged; the rejected promise is left
    without a handler. *)
Theorem handleValues_rejected_insert_unreported (values : list (Value D)) (st : State)
    (docs : list string) :
  collectionChecked st = true ->
  mongoClient st = true ->
  (forall x, x ∈ values -> render (pointId x) (data x) <> NoMatch) ->
  values <> [] ->
  parse_array ("[" +:+ body_of (omap documentOf values) +:+ "]") = Ret docs ->
  (forall c, insertMany_rejects driver c docs = true) ->
  exists st',
    handleValues driver values st = (Ret (length values), st')
    /\ documents st' = documents st
    /\ valuesSent st' = valuesSent st + Z.of_nat (length values)
    /\ unhandledRejections st' = S (unhandledRejections st).
Proof.
  intros Hchk Hclient Hrender Hne Hparse Hrej.
  destruct (forEach_entry_renders values Hrender
              {| body := EmptyString; collectionValue_ := EmptyString;
                 indexFieldsValue_ := EmptyString |}) as [l Hl].
  destruct (forEach_entry_result values _ l Hl) as [Hbody _]. simpl in Hbody.
  fold (body_of (omap documentOf values)) in Hbody.
  assert (Hlast : exists v, last values = Some v).
  { destruct (last values) eqn:E; [eauto|]. apply last_None in E. congruence. }
  destruct Hlast as [v Hv].
  unfold handleValues, makeRequest, try_catch, bind, get, ret, parse_body.
  rewrite Hl, Hchk. simpl. rewrite Hbody, Hparse.
  unfold mongo_insertMany. rewrite Hclient, Hrej, Hv. simpl.
  eexists. split; [reflexivity|]. repeat split; reflexivity.
Qed.

Lemma handleValues_without_createCollection (values : list (Value D)) (st : State) :
  createCollection st = false -> collectionChecked st = false ->
  createCollection (snd (handleValues driver values st)) = false
  /\ collectionChecked (snd (handleValues driver values st)) = false
  /\ documents (snd (handleValues driver values st)) = documents st.
Proof.
  intros Hcreate Hchk.
  unfold handleValues, makeRequest, try_catch, bind, get, ret.
  destruct (forEach_entry values _) as [l|e]; simpl; [|auto].
  rewrite Hchk, Hcreate. simpl.
  destruct (last values); simpl; auto.
Qed.

(** With [createCollection] switched off, [collectionChecked] is never set
    after a connection, so no call of [handleValues] ever reaches
    [insertMany]: after any number of batches the database holds what it
    held before. *)
Theorem handleBatches_store_nothing_without_createCollection
    (batches : list (list (Value D))) (st : State) :
  createCollection st = false -> collectionChecked st = false ->
  documents (handleBatches driver batches st) = documents st
  /\ collectionChecked (handleBatches driver batches st) = false.
Proof.
  revert st. induction batches as [|values batches IH]; intros st Hcreate Hchk.
  - auto.
  - destruct (handleValues_without_createCollection values st Hcreate Hchk)
      as (Hcreate' & Hchk' & Hdocs).
    unfold handleBatches in *. simpl.
    destruct (IH _ Hcreate' Hchk') as [Hd Hc]. rewrite Hd. auto.
Qed.

End MongoBatches.

Section MongoRuns.
Import MongoDB.

Lemma handleValues_unmatched_point_rejects_batch_witness :
  @handleValues string Examples.site_formatter Examples.line_json Examples.sound_driver
    [ {| pointId := "site.sensor1"; data := "{value:1}" |};
      {| pointId := "?"; data := "{value:2}" |} ] Examples.mongo_checked
  = (Throw COMMUNICATION_ERROR, Examples.mongo_checked).
Proof.
  apply (@handleValues_unmatched_point_rejects_batch string Examples.site_formatter
           Examples.line_json Examples.sound_driver _ {| pointId := "?"; data := "{value:2}" |}).
  - set_solver.
  - reflexivity.
Defined.

Lemma handleValues_inserts_into_last_collection_witness :
  (exists st',
     @handleValues string Examples.site_formatter Examples.line_json Examples.sound_driver
       [ {| pointId := "site.sensor1"; data := "{value:1}" |};
         {| pointId := "sensor2"; data := "{value:2}" |} ] Examples.mongo_checked
     = (Ret 2%nat, st')
     /\ stored st' "undefined" = ["{value:1}"]
     /\ stored st' "points" = []
     /\ valuesSent st' = 2)
  /\ @handleValues string Examples.site_formatter Examples.line_json Examples.sound_driver
       [ {| pointId := "site.sensor1"; data := Examples.unescaped_data |} ]
       Examples.mongo_checked
     = (Throw COMMUNICATION_ERROR, Examples.mongo_checked).
Proof.
  split.
  - destruct (proj1 (@handleValues_inserts_into_last_collection string Examples.site_formatter
                       Examples.line_json Examples.sound_driver
                       [ {| pointId := "site.sensor1"; data := "{value:1}" |};
                         {| pointId := "sensor2"; data := "{value:2}" |} ]
                       {| pointId := "sensor2"; data := "{value:2}" |} "undefined"
                       Examples.mongo_checked eq_refl eq_refl
                       ltac:(intros x Hx; apply list_elem_of_In in Hx; simpl in Hx;
                             destruct Hx as [<-|[<-|[]]]; discriminate)
                       eq_refl eq_refl)
                ["{value:1}"] eq_refl eq_refl)
      as (st' & Hrun & Hstored & Hother & Hsent).
    exists st'. split; [exact Hrun|]. split; [rewrite Hstored; reflexivity|].
    split; [rewrite Hother by discriminate; reflexivity|exact Hsent].
  - apply (proj2 (@handleValues_inserts_into_last_collection string Examples.site_formatter
                    Examples.line_json Examples.sound_driver
                    [ {| pointId := "site.sensor1"; data := Examples.unescaped_data |} ]
                    {| pointId := "site.sensor1"; data := Examples.unescaped_data |} "points"
                    Examples.mongo_checked eq_refl eq_refl
                    ltac:(intros x Hx; apply list_elem_of_In in Hx; simpl in Hx;
                          destruct Hx as [<-|[]]; discriminate)
                    eq_refl eq_refl)
             (SyntaxError "Unexpected token in JSON")).
    vm_compute. reflexivity.
Defined.

Lemma handleValues_rejected_insert_unreported_witness :
  exists st',
    @handleValues string Examples.plain_formatter Examples.line_json Examples.rejecting_driver
      Examples.first_batch Examples.mongo_checked = (Ret 2%nat, st')
    /\ documents st' = documents Examples.mongo_checked
    /\ unhandledRejections st' = 1%nat.
Proof.
  destruct (@handleValues_rejected_insert_unreported string Examples.plain_formatter
              Examples.line_json Examples.rejecting_driver Examples.first_batch
              Examples.mongo_checked ["{value:1}"; "{value:2}"])
    as (st' & Hrun & Hdocs & _ & Hun); try reflexivity.
  - intros x _. discriminate.
  - discriminate.
  - exists st'. auto.
Defined.

Lemma handleBatches_store_nothing_without_createCollection_witness :
  documents (@handleBatches string Examples.plain_formatter Examples.line_json
               Examples.sound_driver
               [Examples.first_batch; Examples.first_batch; Examples.first_batch]
               Examples.mongo_no_create) = ∅.
Proof.
  apply (@handleBatches_store_nothing_without_createCollection string
           Examples.plain_formatter Examples.line_json Examples.sound_driver
           [Examples.first_batch; Examples.first_batch; Examples.first_batch]
           Examples.mongo_no_create); reflexivity.
Defined.

End MongoRuns.

(** ** MongoDB: values by path *)
Section JsonPath.
Import MongoDB.
Context {V : Type} `{JsValue V}.

Lemma split_from_app (sep : ascii) (p1 p2 : string) :
  forall cur,
    Js.split_from sep (p1 +:+ String sep p2) cur
    = Js.split_from sep p1 cur ++ Js.split_from sep p2 EmptyString.
Proof.
  induction p1 as [|c p1 IH]; intros cur.
  - change (EmptyString +:+ String sep p2) with (String sep p2). simpl.
    rewrite Ascii.eqb_refl. reflexivity.
  - rewrite append_cons. simpl. destruct (Ascii.eqb c sep).
    + rewrite IH. reflexivity.
    + apply IH.
Qed.

Lemma follow_app (keys1 keys2 : list string) :
  forall v : V,
    follow (keys1 ++ keys2) v
    = match follow keys1 v with
      | Ret w => follow keys2 w
      | Throw e => Throw e
      end.
Proof.
  induction keys1 as [|k keys1 IH]; intros v; simpl; [reflexivity|].
  destruct (member v k); [apply IH|reflexivity].
Qed.

(** Paths compose: when [path1] leads from an object to an object [w],
    following [path1.path2] from the start is following [path2] from [w].
    A value that is not an object is returned as it is, whatever the path,
    and so is any value under the empty path. *)
Theorem getJsonValueByStringPath_composes (value w : V) (path1 path2 : string) :
  (is_object value = true ->
   path1 <> EmptyString -> path2 <> EmptyString ->
   getJsonValueByStringPath value path1 = Ret w ->
   is_object w = true ->
   getJsonValueByStringPath value (path1 +:+ "." +:+ path2)
   = getJsonValueByStringPath w path2) /\
  (is_object value = false -> getJsonValueByStringPath value path1 = Ret value) /\
  getJsonValueByStringPath value EmptyString = Ret value.
Proof.
  split; [|split].
  - intros Hobj Hp1 Hp2 Hfirst Hw. unfold getJsonValueByStringPath in *.
    rewrite Hobj in *. rewrite Hw.
    destruct path1 as [|c1 path1]; [congruence|].
    destruct path2 as [|c2 path2]; [congruence|].
    rewrite append_cons. unfold Js.split in *.
    rewrite <- append_cons.
    change (String c1 path1 +:+ "." +:+ String c2 path2)
      with (String c1 path1 +:+ String "." (String c2 path2)).
    rewrite split_from_app, follow_app, Hfirst. reflexivity.
  - intros Hprim. unfold getJsonValueByStringPath. rewrite Hprim. reflexivity.
  - unfold getJsonValueByStringPath. destruct (is_object value); reflexivity.
Qed.

End JsonPath.

Lemma getJsonValueByStringPath_composes_witness :
  @MongoDB.getJsonValueByStringPath _ Examples.plain_data Examples.nested_value
    "level1.level2.value" = Ret (Examples.Num 7)
  /\ @MongoDB.getJsonValueByStringPath _ Examples.plain_data (Examples.Num 7) "level1"
     = Ret (Examples.Num 7).
Proof.
  destruct (@getJsonValueByStringPath_composes _ Examples.plain_data Examples.nested_value
              (Examples.Obj (Examples.Member "value" (Examples.Num 7) Examples.NoMember))
              "level1.level2" "value") as (Hcompose & _ & _).
  destruct (@getJsonValueByStringPath_composes _ Examples.plain_data (Examples.Num 7)
              (Examples.Num 7) "level1" "value") as (_ & Hprimitive & _).
  split.
  - change "level1.level2.value" with ("level1.level2" +:+ "." +:+ "value").
    rewrite Hcompose; try reflexivity; discriminate.
  - apply Hprimitive. reflexivity.
Defined.

(** ** The OPCHDA connector: groups and replies *)
Section Groups.
Import SouthOPCHDA.

Lemma map_get_set_eq {X} (k : string) (v : X) (m : list (string * X)) :
  map_get k (map_set k v m) = Some v.
Proof.
  induction m as [|[k' v'] m IH]; simpl.
  - rewrite String.eqb_refl. reflexivity.
  - destruct (String.eqb k k') eqn:E; simpl; rewrite ?String.eqb_refl, ?E; auto.
Qed.

Lemma map_get_set_ne {X} (k k' : string) (v : X) (m : list (string * X)) :
  k <> k' -> map_get k (map_set k' v m) = map_get k m.
Proof.
  intros Hne. induction m as [|[k0 v0] m IH]; simpl.
  - destruct (String.eqb_spec k k'); [congruence|reflexivity].
  - destruct (String.eqb_spec k' k0) as [->|Hk0]; simpl.
    + destruct (String.eqb_spec k k0); [congruence|reflexivity].
    + destruct (String.eqb_spec k k0); [reflexivity|exact IH].
Qed.

Lemma add_item_keeps (sm k : string) (pt : ScanGroupPoint) (item : Item)
    (groups : list (string * ScanGroup)) :
  registered k pt groups -> registered k pt (add_item sm groups item).
Proof.
  intros (g & Hg & Hin). unfold add_item.
  destruct (String.eqb_spec k (groupName_of sm item)) as [->|Hne].
  - rewrite Hg. eexists. split; [apply map_get_set_eq|]. simpl. set_solver.
  - destruct (map_get (groupName_of sm item) groups);
      (exists g; split; [rewrite map_get_set_ne by exact Hne; exact Hg|exact Hin]).
Qed.

Lemma add_item_registers (sm : string) (item : Item) (groups : list (string * ScanGroup)) :
  registered (groupName_of sm item)
    {| point_name := item_name item; nodeId := item_nodeId item |}
    (add_item sm groups item).
Proof.
  unfold add_item.
  destruct (map_get (groupName_of sm item) groups);
    (eexists; split; [apply map_get_set_eq|simpl; set_solver]).
Qed.

Lemma fold_add_item_keeps (sm k : string) (pt : ScanGroupPoint) (items : list Item) :
  forall groups, registered k pt groups ->
    registered k pt (fold_left (add_item sm) items groups).
Proof.
  induction items as [|x items IH]; intros groups Hreg; simpl; [exact Hreg|].
  apply IH, add_item_keeps, Hreg.
Qed.

Lemma fold_add_item_registers (sm : string) (item : Item) (items : list Item) :
  item ∈ items ->
  forall groups,
    registered (groupName_of sm item)
      {| point_name := item_name item; nodeId := item_nodeId item |}
      (fold_left (add_item sm) items groups).
Proof.
  induction items as [|x items IH]; intros Hin groups; [set_solver|]. simpl.
  apply elem_of_cons in Hin as [<-|Hin].
  - apply fold_add_item_keeps, add_item_registers.
  - apply IH, Hin.
Qed.

Lemma build_groups_registers (byScanMode : list (string * list Item)) (sm : string)
    (items : list Item) (item : Item) :
  (sm, items) ∈ byScanMode -> item ∈ items ->
  registered (groupName_of sm item)
    {| point_name := item_name item; nodeId := item_nodeId item |}
    (build_groups byScanMode).
Proof.
  unfold build_groups. generalize (@nil (string * ScanGroup)).
  induction byScanMode as [|[sm' items'] rest IH]; intros groups Hsm Hitem; [set_solver|].
  simpl. apply elem_of_cons in Hsm as [[= <- <-]|Hsm].
  - clear IH.
    assert (Hreg := fold_add_item_registers sm item items Hitem groups).
    revert Hreg. generalize (fold_left (add_item sm) items groups).
    induction rest as [|[sm2 items2] rest IH]; intros g Hreg; simpl; [exact Hreg|].
    apply IH, fold_add_item_keeps, Hreg.
  - apply IH; assumption.
Qed.

End Groups.

Section ConnectAndRead.
Import SouthOPCHDA.
Context {A B : Type} `{Collaborators A B} (configuration : Configuration).

Local Abbreviation St := (State A B).

Lemma disconnect_groups (s : St) :
  itemsByGroups (snd (disconnect s)) = itemsByGroups s.
Proof.
  rewrite disconnect_unfold. cbv zeta.
  destruct (agent_disconnect (agent s)) as [[[]|e] a1];
    [destruct (super_disconnect (base s)) as [r b1]|]; reflexivity.
Qed.

Lemma handleConnectMessage_groups (error : string) (s : St) :
  itemsByGroups (snd (handleConnectMessage true error s)) = build_groups (itemsByScanModeIds s).
Proof.
  unfold handleConnectMessage, try_catch, bind, get, modify, on_agent. simpl.
  destruct (agent_sendInitializeMessage _ (agent s)) as [[[]|e] a1]; simpl; [reflexivity|].
  unfold clear_if_set, clearTimeout, modify, ret.
  destruct (reconnectTimeout s) as [t|]; simpl;
    match goal with
    | |- context [disconnect ?s0] =>
        pose proof (disconnect_groups s0) as Hg; destruct (disconnect s0) as [[[]|e'] s1]
    end; simpl in *; exact Hg.
Qed.

(** When the agent reports its connection, every configured item is
    registered, with its name and node id, in the group named after its scan
    mode, aggregate and resampling, whether or not the initialization
    message can then be sent. *)
Theorem handleConnectMessage_registers_items (error scanModeId : string) (items : list Item)
    (item : Item) (s : St) :
  (scanModeId, items) ∈ itemsByScanModeIds s -> item ∈ items ->
  exists group,
    map_get (scanModeId +:+ "-" +:+ item_aggregate item +:+ "-" +:+ item_resampling item)
            (itemsByGroups (snd (handleConnectMessage true error s))) = Some group
    /\ {| point_name := item_name item; nodeId := item_nodeId item |} ∈ points group.
Proof.
  intros Hsm Hitem. rewrite handleConnectMessage_groups.
  exact (build_groups_registers (itemsByScanModeIds s) scanModeId items item Hsm Hitem).
Qed.

(** A reply with points for a known group hands to [addValues], in one
    call, the values of exactly its valid points, in the order of the reply;
    points without timestamp or value are left out. When [addValues] throws,
    [handleReadMessage] throws the same error and the pending read is not
    settled by this reply. *)
Theorem handleReadMessage_forwards_valid_points (content : Content) (pts : list Point)
    (group : ScanGroup) (s : St) :
  Js.truthy (Error_ content) = false ->
  Points content = Some pts -> pts <> [] ->
  map_get (Group content) (itemsByGroups s) = Some group ->
  base (snd (handleReadMessage content s))
    = snd (addValues (omap (to_value group) pts) (base s))
  /\ (forall e, fst (addValues (omap (to_value group) pts) (base s)) = Throw e ->
        fst (handleReadMessage content s) = Throw e
        /\ historyRead_ (snd (handleReadMessage content s)) = historyRead_ s).
Proof.
  intros Herr Hpts Hne Hgroup. unfold handleReadMessage. rewrite Herr, Hpts.
  destruct pts as [|p pts']; [congruence|].
  unfold bind, get. rewrite Hgroup.
  pose proof (map_points_values group (p :: pts') 0) as Hvalues.
  destruct (map_points group (p :: pts') 0) as [values m]. cbn [fst] in Hvalues.
  rewrite <- Hvalues. clear Hvalues.
  unfold on_base.
  destruct (addValues values (base s)) as [[[]|e] b1]; simpl.
  - split; [reflexivity|discriminate].
  - split; [reflexivity|]. intros e0 [= <-]. split; reflexivity.
Qed.

(** A failed connection always leaves a retry behind: when the agent can be
    stopped, [handleConnectMessage(false, ..)] sets a new [connect] timer
    and holds it in [reconnectTimeout]; it clears no timer, so a retry
    that was already pending stays pending beside the new one. When the
    agent cannot be stopped, nothing is scheduled. *)
Theorem handleConnectMessage_failure_schedules_retry (error : string) (s : St) :
  let s' := snd (handleConnectMessage false error s) in
  (fst (agent_disconnect (agent s)) = Ret tt ->
     reconnectTimeout s' = Some (nextTimer s)
     /\ timers s' = <[nextTimer s := CbConnect]> (timers s)) /\
  (forall e, fst (agent_disconnect (agent s)) = Throw e ->
     fst (handleConnectMessage false error s) = Throw e
     /\ timers s' = timers s /\ reconnectTimeout s' = reconnectTimeout s).
Proof.
  intros s'. subst s'. unfold handleConnectMessage, bind, on_agent, setTimeout, modify. simpl.
  destruct (agent_disconnect (agent s)) as [[[]|e] a1]; simpl.
  - split; [auto|discriminate].
  - split; [discriminate|]. intros e0 [= <-]. auto.
Qed.

(** When the initialization message cannot be sent, the connector is
    disconnected and, if the agent and the base class can be stopped, a new
    [connect] timer is held in [reconnectTimeout]: the timers that the two
    handle fields held are cancelled and every other timer is as before. *)
Theorem handleConnectMessage_init_failure_retries (error : string) (s : St) (e : Exn) :
  fst (agent_sendInitializeMessage (build_groups (itemsByScanModeIds s)) (agent s)) = Throw e ->
  (forall a, fst (agent_disconnect a) = Ret tt) ->
  (forall b, fst (super_disconnect b) = Ret tt) ->
  let s' := snd (handleConnectMessage true error s) in
  fst (handleConnectMessage true error s) = Ret tt
  /\ reconnectTimeout s' = Some (nextTimer s)
  /\ timers s' = <[nextTimer s := CbConnect]>
                   (cleared (historyReadTimeout s) (cleared (reconnectTimeout s) (timers s))).
Proof.
  intros Hsend Hagent Hbase s'. subst s'.
  unfold handleConnectMessage, try_catch, bind, get, modify, on_agent. simpl.
  destruct (agent_sendInitializeMessage _ (agent s)) as [r a1]. simpl in Hsend. subst r.
  simpl. unfold clear_if_set, clearTimeout, modify, ret.
  destruct (reconnectTimeout s) as [t|] eqn:Hrt; simpl;
    match goal with
    | |- context [disconnect ?s0] =>
        pose proof (disconnect_timers s0) as (Htm & Hnext & _);
        pose proof (disconnect_returns s0 (Hagent _) (Hbase _)) as Hret;
        destruct (disconnect s0) as [r s1]
    end;
    simpl in Hret; subst r; unfold setTimeout; simpl in *;
    rewrite Htm, Hnext, ?Hrt; simpl; rewrite ?delete_delete_eq; auto.
Qed.

End ConnectAndRead.

(** ** The OPCHDA connector: the read timer across queries *)
Section ReadTimer.
Import SouthOPCHDA.
Context {A B : Type} `{Collaborators A B} (configuration : Configuration).

Local Abbreviation St := (State A B).

(** A query that returns on a reply leaves no timer behind: the timer it
    set is cleared, the handle field is reset, and the pending timers are
    those that were pending when the query started. *)
Theorem historyQuery_success_clears_timer (items : list Item) (startT endT : Z)
    (content : Content) (s s' : St) (r : Z) :
  (forall g t1 t2 a, fst (agent_sendReadMessage g t1 t2 a) = Ret tt) ->
  Js.truthy (Error_ content) = false ->
  timers s !! nextTimer s = None ->
  historyQuery configuration items startT endT [ReadMessage content] s = (Returned r, s') ->
  timers s' = timers s /\ historyReadTimeout s' = None.
Proof.
  intros Hsent Herr Hfresh. unfold historyQuery.
  destruct (historyQuery_begin_waits Hsent items startT endT s) as (a' & ->).
  rewrite await_pending, await_no_more_events by reflexivity.
  destruct (handleReadMessage_reply_frame content (waiting a' s) Herr) as (Htm & Hhrt & _).
  unfold deliver, handle.
  destruct (historyRead_ (snd (handleReadMessage content (waiting a' s)))) as [[|v|e]|];
    try discriminate.
  unfold historyQuery_resume, bind, get, modify, ret, clearTimeout, modify. rewrite Hhrt.
  simpl. intros [= _ <-]. simpl. rewrite Htm. simpl.
  split; [|reflexivity]. rewrite delete_insert_eq. apply delete_id, Hfresh.
Qed.

(** A query rejected by an error reply of the agent does not clear its
    timer. The timer is still pending afterwards, and when it fires while a
    later query is waiting, that query is rejected with the time-out error
    although its own timer has not expired. *)
Theorem stale_read_timer_rejects_next_query (items : list Item) (startT endT : Z)
    (content : Content) (s : St) :
  (forall g t1 t2 a, fst (agent_sendReadMessage g t1 t2 a) = Ret tt) ->
  Js.truthy (Error_ content) = true -> Disconnected content = false ->
  let s1 := snd (historyQuery configuration items startT endT [ReadMessage content] s) in
  timers s1 !! nextTimer s = Some CbHistoryReadTimeout
  /\ forall items2 startT2 endT2 rest,
       fst (historyQuery configuration items2 startT2 endT2
              (TimerFires (nextTimer s) :: rest) s1)
       = Failed (Error ("History query has not succeeded in the requested readTimeout: " +:+
                        pretty (readTimeout configuration) +:+ "s")).
Proof.
  intros Hsent Herr Hdisc s1.
  assert (Hs1 : s1 = set_historyRead
                       (Some (Rejected (Error (default EmptyString (Error_ content)))))
                       (waiting (agent s1) s)).
  { subst s1. unfold historyQuery.
    destruct (historyQuery_begin_waits Hsent items startT endT s) as (a' & ->).
    rewrite await_pending, await_no_more_events by reflexivity.
    unfold deliver, handle, handleReadMessage. rewrite Herr, Hdisc.
    unfold bind, ret, historyRead_reject, modify. simpl. reflexivity. }
  split; [rewrite Hs1; simpl; apply lookup_insert_eq|].
  intros items2 startT2 endT2 rest.
  destruct (historyQuery_begin_waits Hsent items2 startT2 endT2 s1) as (a2 & Hbegin).
  refine (proj1 (historyQuery_first_event configuration items2 startT2 endT2
                   (TimerFires (nextTimer s)) rest s1 a2
                   (Rejected (Error (timeout_message configuration))) Hbegin _ _));
    [|discriminate].
  unfold deliver, handle, fire, bind, get.
  assert (Hpending : timers (waiting a2 s1) !! nextTimer s = Some CbHistoryReadTimeout).
  { rewrite Hs1. simpl. rewrite lookup_insert_ne by lia. apply lookup_insert_eq. }
  rewrite Hpending. reflexivity.
Qed.

(** [disconnect()] clears the read timer and settles nothing: a query that
    is waiting when the connector is disconnected is neither resolved nor
    rejected, and the timer that would have rejected it no longer fires. *)
Theorem disconnect_leaves_query_pending (items : list Item) (startT endT : Z) (s : St) :
  (forall g t1 t2 a, fst (agent_sendReadMessage g t1 t2 a) = Ret tt) ->
  fst (historyQuery configuration items startT endT
         [DisconnectCall; TimerFires (nextTimer s)] s) = Hangs.
Proof.
  intros Hsent. unfold historyQuery.
  destruct (historyQuery_begin_waits Hsent items startT endT s) as (a' & ->).
  destruct (disconnect_timers (waiting a' s)) as (Htm & _ & _ & _ & Hhr).
  change (historyRead_ (waiting a' s)) with (Some (@Pending Z)) in Hhr.
  assert (Hgone : timers (snd (disconnect (waiting a' s))) !! nextTimer s = None).
  { rewrite Htm. apply cleared_lookup. reflexivity. }
  rewrite await_pending by reflexivity.
  change (deliver configuration DisconnectCall (waiting a' s))
    with (snd (disconnect (waiting a' s))).
  rewrite await_pending by exact Hhr.
  unfold deliver at 1. unfold handle.
  rewrite (fire_cleared configuration _ _ Hgone). simpl snd.
  rewrite await_no_more_events, Hhr. reflexivity.
Qed.

End ReadTimer.

Section MoreRuns.
Import SouthOPCHDA.

Lemma handleConnectMessage_registers_items_witness :
  exists group,
    map_get "scanModeId1-Raw-None"
      (itemsByGroups (snd (@handleConnectMessage _ _ Examples.uninitialized true EmptyString
                             Examples.hda_constructed))) = Some group
    /\ {| point_name := "item1"; nodeId := "ns=1;s=Counter" |} ∈ points group.
Proof.
  apply (@handleConnectMessage_registers_items _ _ Examples.uninitialized EmptyString
           "scanModeId1" [Examples.item1] Examples.item1 Examples.hda_constructed).
  - simpl. set_solver.
  - set_solver.
Defined.

Lemma handleReadMessage_forwards_valid_points_witness :
  base (snd (@handleReadMessage _ _ Examples.quiet Examples.reply_mixed Examples.hda_ready))
  = [ {| pointId := "item1"; timestamp := 1500; value := "42"; quality := "192" |};
      {| pointId := "ns=1;s=Other"; timestamp := 1400; value := "7"; quality := "192" |} ].
Proof.
  refine (eq_trans
            (proj1 (@handleReadMessage_forwards_valid_points _ _ Examples.quiet
                      Examples.reply_mixed _ Examples.group1 Examples.hda_ready
                      eq_refl eq_refl _ eq_refl)) _).
  - discriminate.
  - reflexivity.
Defined.

Lemma handleConnectMessage_failure_schedules_retry_witness :
  timers Examples.hda_two_failures = {[ 0%nat := CbConnect; 1%nat := CbConnect ]}
  /\ reconnectTimeout Examples.hda_two_failures = Some 1%nat.
Proof.
  pose proof (@handleConnectMessage_failure_schedules_retry _ _ Examples.quiet "refused"
                (@deliver _ _ Examples.quiet Examples.hda_configuration
                   (ConnectMessage false "refused") Examples.hda_constructed)) as [Hretry _].
  destruct (Hretry eq_refl) as [Hheld Htimers].
  split.
  - etransitivity; [exact Htimers|]. apply map_eq. intros i.
    destruct i as [|[|i]]; vm_compute; reflexivity.
  - exact Hheld.
Defined.

Lemma handleConnectMessage_init_failure_retries_witness :
  let s' := snd (@handleConnectMessage _ _ Examples.uninitialized true EmptyString
                   Examples.hda_querying) in
  reconnectTimeout s' = Some 1%nat
  /\ timers s' !! 1%nat = Some CbConnect
  /\ timers s' !! 0%nat = None.
Proof.
  destruct (@handleConnectMessage_init_failure_retries _ _ Examples.uninitialized EmptyString
              Examples.hda_querying (Error "socket closed") eq_refl
              ltac:(intros; reflexivity) ltac:(intros; reflexivity))
    as (_ & Hheld & Htimers).
  cbv zeta. split; [exact Hheld|]. rewrite Htimers. split; reflexivity.
Defined.

Lemma historyQuery_success_clears_timer_witness :
  let s' := snd (@historyQuery _ _ Examples.quiet Examples.hda_configuration [] 1000 2000
                   [ReadMessage Examples.reply_1500] Examples.hda_ready) in
  timers s' = timers Examples.hda_ready /\ historyReadTimeout s' = None.
Proof.
  cbv zeta.
  destruct (@historyQuery _ _ Examples.quiet Examples.hda_configuration [] 1000 2000
              [ReadMessage Examples.reply_1500] Examples.hda_ready) as [r s'] eqn:Hrun.
  assert (Hr : r = Returned 1501).
  { change r with (fst (r, s')). rewrite <- Hrun. vm_compute. reflexivity. }
  subst r.
  apply (@historyQuery_success_clears_timer _ _ Examples.quiet Examples.hda_configuration
           [] 1000 2000 Examples.reply_1500 Examples.hda_ready s' 1501);
    [intros; reflexivity|reflexivity|reflexivity|exact Hrun].
Defined.

Lemma stale_read_timer_rejects_next_query_witness :
  let s1 := snd (@historyQuery _ _ Examples.quiet Examples.hda_configuration [] 1000 2000
                   [ReadMessage Examples.reply_bad_request] Examples.hda_ready) in
  fst (@historyQuery _ _ Examples.quiet Examples.hda_configuration [] 1000 2000
         [TimerFires 0%nat; ReadMessage Examples.reply_1500] s1)
  = Failed (Error ("History query has not succeeded in the requested readTimeout: " +:+
                   pretty (readTimeout Examples.hda_configuration) +:+ "s")).
Proof.
  cbv zeta.
  apply (@stale_read_timer_rejects_next_query _ _ Examples.quiet Examples.hda_configuration
           [] 1000 2000 Examples.reply_bad_request Examples.hda_ready);
    [intros; reflexivity|reflexivity|reflexivity].
Defined.

Lemma disconnect_leaves_query_pending_witness :
  fst (@historyQuery _ _ Examples.stubborn Examples.hda_configuration [] 1000 2000
         [DisconnectCall; TimerFires 0%nat] Examples.hda_ready) = Hangs.
Proof.
  apply (@disconnect_leaves_query_pending _ _ Examples.stubborn Examples.hda_configuration
           [] 1000 2000 Examples.hda_ready).
  intros; reflexivity.
Defined.

End MoreRuns.

Lemma checkOrCreateConfigFile_creates_once_witness :
  @Utils.checkOrCreateConfigFile string Examples.text_json Examples.etc_disk
    "/etc/oibus/oibus.json" "{ engine: {} }" ∅
  = (Ret tt, {[ "/etc/oibus/oibus.json" := "{ engine: {} }" ]})
  /\ @Utils.checkOrCreateConfigFile string Examples.text_json Examples.etc_disk
       "/etc/oibus/oibus.json" "{ engine: {} }"
       {[ "/etc/oibus/oibus.json" := "{ south: [] }" ]}
     = (Ret tt, {[ "/etc/oibus/oibus.json" := "{ south: [] }" ]})
  /\ @Utils.checkOrCreateConfigFile string Examples.text_json Examples.etc_disk
       "/nowhere/oibus.json" "{ engine: {} }" ∅
     = (Throw (Fs.enoent "open" "/nowhere/oibus.json"), ∅).
Proof.
  split; [|split].
  - refine (eq_trans
              (proj1 (proj2 (@checkOrCreateConfigFile_creates_once string Examples.text_json
                               Examples.etc_disk "/etc/oibus/oibus.json" "{ engine: {} }" ∅))
                 eq_refl eq_refl) _).
    apply f_equal. apply insert_empty.
  - exact (proj1 (@checkOrCreateConfigFile_creates_once string Examples.text_json
                    Examples.etc_disk "/etc/oibus/oibus.json" "{ engine: {} }"
                    {[ "/etc/oibus/oibus.json" := "{ south: [] }" ]})
             "{ south: [] }" eq_refl).
  - exact (proj1 (proj2 (proj2 (@checkOrCreateConfigFile_creates_once string
                                  Examples.text_json Examples.etc_disk "/nowhere/oibus.json"
                                  "{ engine: {} }" ∅)))
             (Fs.enoent "open" "/nowhere/oibus.json") eq_refl eq_refl).
Defined.

Lemma handleValues_throws_communication_error_witness :
  fst (@MongoDB.handleValues string Examples.plain_formatter Examples.line_json
         Examples.sound_driver [] Examples.mongo_checked) = Throw COMMUNICATION_ERROR.
Proof.
  apply (@handleValues_throws_communication_error string Examples.plain_formatter
           Examples.line_json Examples.sound_driver [] Examples.mongo_checked).
Defined.
